(** * Verification model of combined-latency-jitter.c

    A shallow embedding of the measurement protocol of the network probe:
    the packet codec ([create_packet], [validate_packet]), the clock
    synchroniser ([synchronize_clocks]), the stream and datagram exchange
    loops of client and server, and the statistics computed at the end of a
    client run.

    Conventions of the model.
    - C integers are mathematical integers ([Z]) with the wrap-around of
      their type written out ([to_u64], [to_i64], [to_u32], ...), for the
      LP64 data model the tool is built for ([int] 32 bits, [size_t] and
      [uint64_t] 64 bits).
    - A packet buffer is the list of its bytes.  Header fields are read and
      written at their offsets in [packet_t]; multi-byte fields use the byte
      order of the host, taken little-endian here (both ends exchange the
      raw struct, so the choice does not show in any statement).
    - The network, the clock and the allocator are the environment: each
      function takes what the environment answers as an argument.
    - [double] arithmetic is exact rational arithmetic ([Q]); only the final
      square root of the jitter is a real number.  Rounding is outside the
      model. *)

From Stdlib Require Import ZArith List Lia Bool.
From Stdlib Require Import QArith.
From Stdlib Require Import Reals Qreals Lra Psatz.
From Stdlib Require Import Sorted.
From Stdlib Require String.
From Stdlib Require Floats.
Import ListNotations.

Local Open Scope Z_scope.

(* ================================================================== *)
(** ** Machine integers and byte memory *)

Module C.

Definition to_u64 (x : Z) : Z := x mod 2 ^ 64.
Definition to_u32 (x : Z) : Z := x mod 2 ^ 32.

(** Conversion of an out-of-range value to a signed type, as GCC defines
    it: reduction modulo 2^N. *)
Definition to_i64 (x : Z) : Z :=
  let r := x mod 2 ^ 64 in if r <? 2 ^ 63 then r else r - 2 ^ 64.
Definition to_i32 (x : Z) : Z :=
  let r := x mod 2 ^ 32 in if r <? 2 ^ 31 then r else r - 2 ^ 32.

Definition to_size_t : Z -> Z := to_u64.

Definition INT_MAX : Z := 2 ^ 31 - 1.
Definition INT64_MAX : Z := 2 ^ 63 - 1.
Definition PTRDIFF_MAX : Z := 2 ^ 63 - 1.

(** [uint64_t] arithmetic. *)
Definition add64 (a b : Z) : Z := to_u64 (a + b).
Definition sub64 (a b : Z) : Z := to_u64 (a - b).
Definition div64 (a b : Z) : Z := to_u64 a / to_u64 b.

(** [unsigned int] arithmetic. *)
Definition sub32 (a b : Z) : Z := to_u32 (a - b).

(** Little-endian images of unsigned values. *)
Fixpoint le_encode (n : nat) (v : Z) : list Z :=
  match n with
  | O => []
  | S k => v mod 256 :: le_encode k (v / 256)
  end.

(** [load n m off]: the unsigned value of the [n] bytes of [m] at [off]. *)
Fixpoint load (n : nat) (m : list Z) (off : nat) : Z :=
  match n with
  | O => 0
  | S k => nth off m 0 + 256 * load k m (S off)
  end.

(** [write m off data]: [m] with [data] copied in at offset [off]
    (what [memcpy], [recv] into a buffer, or a field store does). *)
Definition write (m : list Z) (off : nat) (data : list Z) : list Z :=
  firstn off m ++ data ++ skipn (off + length data) m.

Definition store (n : nat) (m : list Z) (off : nat) (v : Z) : list Z :=
  write m off (le_encode n v).

(** [malloc] followed by [memset (p, 0, n)].  A request above
    [PTRDIFF_MAX] cannot be satisfied by any allocator and yields [NULL];
    exhaustion of memory by smaller requests is not modelled. *)
Definition calloc_bytes (n : Z) : option (list Z) :=
  if PTRDIFF_MAX <? n then None else Some (repeat 0 (Z.to_nat n)).

End C.

(* ================================================================== *)
(** ** The wire record [packet_t] *)

Module Packet.
Import C.

(** Offsets of the fields of [packet_t]; the five [uint64_t] stamps and
    the [uint32_t] size take 44 bytes, the flexible array [payload]
    starts right after them, and [sizeof (packet_t)] is 48 (the struct is
    padded to its 8-byte alignment). *)
Definition OFF_seq_num : nat := 0.
Definition OFF_client_send : nat := 8.
Definition OFF_server_recv : nat := 16.
Definition OFF_server_send : nat := 24.
Definition OFF_client_recv : nat := 32.
Definition OFF_packet_size : nat := 40.
Definition OFF_payload : nat := 44.
Definition sizeof_packet_t : Z := 48.

Definition MIN_PACKET_SIZE : Z := 64.
Definition MAX_PACKET_SIZE : Z := 8192.

Definition seq_num (p : list Z) : Z := load 8 p OFF_seq_num.
Definition client_send (p : list Z) : Z := load 8 p OFF_client_send.
Definition server_recv (p : list Z) : Z := load 8 p OFF_server_recv.
Definition server_send (p : list Z) : Z := load 8 p OFF_server_send.
Definition client_recv (p : list Z) : Z := load 8 p OFF_client_recv.
Definition packet_size (p : list Z) : Z := load 4 p OFF_packet_size.
Definition payload (p : list Z) (i : nat) : Z := nth (OFF_payload + i) p 0.

Definition set_seq_num (p : list Z) (v : Z) := store 8 p OFF_seq_num v.
Definition set_client_send (p : list Z) (v : Z) := store 8 p OFF_client_send v.
Definition set_server_recv (p : list Z) (v : Z) := store 8 p OFF_server_recv v.
Definition set_server_send (p : list Z) (v : Z) := store 8 p OFF_server_send v.
Definition set_client_recv (p : list Z) (v : Z) := store 8 p OFF_client_recv v.
Definition set_packet_size (p : list Z) (v : Z) := store 4 p OFF_packet_size v.
Definition set_payload (p : list Z) (i : nat) (v : Z) :=
  write p (OFF_payload + i) [v].

(** The loop of [create_packet]:
    [for (i = 0; i < n; i++) packet->payload[i] = i % 256]. *)
Fixpoint fill_payload (p : list Z) (count i : nat) : list Z :=
  match count with
  | O => p
  | S c => fill_payload (set_payload p i (Z.of_nat i mod 256)) c (S i)
  end.

(** [create_packet]; [None] is the [exit (EXIT_FAILURE)] taken when the
    allocation fails.  The comparison with [sizeof (packet_t)] is made in
    [size_t], where the [int] argument is converted first. *)
Definition create_packet (size : Z) : option (list Z) :=
  let size :=
    if to_size_t size <? sizeof_packet_t then sizeof_packet_t else size in
  match calloc_bytes (to_size_t size) with
  | None => None
  | Some p =>
      let p := set_packet_size p (to_u32 size) in
      Some (fill_payload p (Z.to_nat (to_size_t size - sizeof_packet_t)) 0)
  end.

(** The loop of [validate_packet]. *)
Fixpoint validate_loop (p : list Z) (count i : nat) : bool :=
  match count with
  | O => true
  | S c =>
      if payload p i =? Z.of_nat i mod 256
      then validate_loop p c (S i)
      else false
  end.

(** [validate_packet] on a non-null packet whose bytes up to the declared
    size lie in the buffer. *)
Definition validate_packet (p : list Z) : bool :=
  if packet_size p <? sizeof_packet_t then false
  else validate_loop p (Z.to_nat (packet_size p - sizeof_packet_t)) 0.

(** A buffer of [size] bytes that declares [size] and carries the
    pattern in its payload. *)
Definition well_formed (size : Z) (p : list Z) : Prop :=
  sizeof_packet_t <= size /\
  length p = Z.to_nat size /\
  packet_size p = size /\
  forall j, (j < Z.to_nat (size - sizeof_packet_t))%nat ->
            payload p j = Z.of_nat j mod 256.

End Packet.

(* ================================================================== *)
(** ** Clock synchronisation ([synchronize_clocks]) *)

Module Sync.
Import C Packet.

Definition SYNC_ROUNDS : nat := 10.

(** [0xFFFFFFFF - i], computed in [unsigned int] and widened to the
    64-bit field. *)
Definition sync_seq_num (i : Z) : Z := to_u64 (sub32 0xFFFFFFFF i).

(** The packet a round sends: zeroed header, tag, size, then [t1]. *)
Definition sync_packet (i : nat) (t1 : Z) : list Z :=
  let p := repeat 0 (Z.to_nat sizeof_packet_t) in
  let p := set_seq_num p (sync_seq_num (Z.of_nat i)) in
  let p := set_packet_size p sizeof_packet_t in
  set_client_send p t1.

(** What the network answers in one round: the send fails, the receive
    fails, or an echo arrives carrying [server_recv] and [server_send],
    with the client clock read at arrival. *)
Inductive round_io : Type :=
| SendFailed
| RecvFailed
| Echoed (t2 t3 t4 : Z).

Record round_env : Type := { r_t1 : Z; r_io : round_io }.

(** The locals of the function.  A cell of [offsets] that no round has
    written holds an indeterminate value: [None]. *)
Record sync_state : Type :=
  { offsets : list (option Z); min_rtt : Z; best_round : nat }.

Definition sync_init : sync_state :=
  {| offsets := repeat None SYNC_ROUNDS;
     min_rtt := INT64_MAX;
     best_round := 0 |}.

Definition array_set {A : Type} (a : list A) (i : nat) (v : A) : list A :=
  firstn i a ++ v :: skipn (S i) a.

(** [rtt] and [offset] of a round, with the arithmetic of the operand
    type [uint64_t] and the conversion to [int64_t] at the assignment. *)
Definition round_rtt (t1 t2 t3 t4 : Z) : Z :=
  to_i64 (sub64 (sub64 t4 t1) (sub64 t3 t2)).
Definition round_offset (t1 t2 t3 t4 : Z) : Z :=
  to_i64 (div64 (add64 (sub64 t2 t1) (sub64 t3 t4)) 2).

(** One pass through the body of the loop; a failed round [continue]s. *)
Definition sync_round (i : nat) (e : round_env) (st : sync_state)
  : sync_state :=
  match r_io e with
  | SendFailed => st
  | RecvFailed => st
  | Echoed t2 t3 t4 =>
      let rtt := round_rtt (r_t1 e) t2 t3 t4 in
      let offset := round_offset (r_t1 e) t2 t3 t4 in
      let offs := array_set (offsets st) i (Some offset) in
      if rtt <? min_rtt st
      then {| offsets := offs; min_rtt := rtt; best_round := i |}
      else {| offsets := offs; min_rtt := min_rtt st;
              best_round := best_round st |}
  end.

Fixpoint sync_loop (count i : nat) (env : nat -> round_env)
         (st : sync_state) : sync_state :=
  match count with
  | O => st
  | S c => sync_loop c (S i) env (sync_round i (env i) st)
  end.

(** [synchronize_clocks]: [Some v] is the returned offset, [None] a
    return of a cell of [offsets] that was never written. *)
Definition synchronize_clocks (is_client : bool) (env : nat -> round_env)
  : option Z :=
  if negb is_client then Some 0
  else
    let st := sync_loop SYNC_ROUNDS 0 env sync_init in
    nth (best_round st) (offsets st) None.

(** The noiseless simulation: the server clock runs [o] ahead of the
    client clock, every transit takes [d], the server answers at once.
    Round [i] starts at client time [start i]. *)
Definition ideal_round (d o t1 : Z) : round_env :=
  {| r_t1 := t1; r_io := Echoed (t1 + d + o) (t1 + d + o) (t1 + 2 * d) |}.

Definition ideal_env (d : nat -> Z) (o : Z) (start : nat -> Z)
  : nat -> round_env :=
  fun i => ideal_round (d i) o (start i).

(** What a round contributes: its [rtt] and [offset] if the echo
    arrived, nothing if it was skipped. *)
Definition round_values (e : round_env) : option (Z * Z) :=
  match r_io e with
  | Echoed t2 t3 t4 =>
      Some (round_rtt (r_t1 e) t2 t3 t4, round_offset (r_t1 e) t2 t3 t4)
  | _ => None
  end.

Definition round_failed (e : round_env) : bool :=
  match r_io e with Echoed _ _ _ => false | _ => true end.

(** The loop invariant: the cells written so far, the running minimum,
    and the round that holds it. *)
Definition sync_inv (env : nat -> round_env) (i : nat) (st : sync_state)
  : Prop :=
  length (offsets st) = SYNC_ROUNDS /\
  (forall j, nth j (offsets st) None =
             if (j <? i)%nat then option_map snd (round_values (env j))
             else None) /\
  (forall j r o, (j < i)%nat -> round_values (env j) = Some (r, o) ->
                 min_rtt st <= r) /\
  ((min_rtt st = INT64_MAX /\ best_round st = 0%nat) \/
   ((best_round st < i)%nat /\
    (exists o, round_values (env (best_round st)) = Some (min_rtt st, o)) /\
    forall j r o, (j < best_round st)%nat ->
                  round_values (env j) = Some (r, o) -> min_rtt st < r)).

End Sync.

(* ================================================================== *)
(** ** Sockets as seen by the program *)

Module Net.
Import C.

(** What arrives on a stream socket, in the order of the [recv] calls
    that find it: a batch of bytes ready to be read (never empty), or a
    failure of the call.  The end of the list is the peer's close. *)
Inductive arrival : Type :=
| Segment (bytes : list Z)
| Failure.

(** [recv (fd, buf, len, 0)]: the return value, the bytes copied, the
    stream left.  A batch longer than [len] is read in part. *)
Definition recv (q : list arrival) (len : nat)
  : Z * list Z * list arrival :=
  match q with
  | [] => (0, [], [])
  | Failure :: q' => (-1, [], q')
  | Segment s :: q' =>
      if (length s <=? len)%nat
      then (Z.of_nat (length s), s, q')
      else (Z.of_nat len, firstn len s, Segment (skipn len s) :: q')
  end.

(** What a [recvfrom] on a datagram socket finds: one whole datagram, or
    nothing (timeout or error, return value -1). *)
Inductive dgram_in : Type :=
| Datagram (bytes : list Z)
| NoDatagram.

(** [recvfrom (fd, buf, len, ...)]: the return value and the buffer; a
    datagram longer than [len] is cut.  The buffer is meant to hold
    [len] bytes: where it is shorter the code writes past its end, and
    the list that grows here stands for nothing the program
    guarantees. *)
Definition recvfrom (buf : list Z) (len : nat) (d : dgram_in)
  : Z * list Z :=
  match d with
  | NoDatagram => (-1, buf)
  | Datagram bs =>
      (Z.of_nat (Nat.min (length bs) len), write buf 0 (firstn len bs))
  end.

End Net.

(* ================================================================== *)
(** ** Servers *)

Module Server.
Import C Packet Net.

(** The test [packet_buffer->seq_num >= 0xFFFFFFFF - 20]; the constant
    is an [unsigned int]. *)
Definition is_sync_seq (s : Z) : bool := sub32 0xFFFFFFFF 20 <=? s.

Definition stamp (p : list Z) (now1 now2 : Z) : list Z :=
  set_server_send (set_server_recv p now1) now2.

(** One pass through the inner loop of [run_tcp_server].  The loop has
    two ways out: the [break] after the read of the header, which prints
    nothing, and the [break] after the read of the rest, which prints
    "Client disconnected after [packet_count] packets". *)
Inductive tcp_action : Type :=
| TcpClosed
| TcpDisconnected
| TcpSyncEcho (buf out : list Z) (q : list arrival)
| TcpDataEcho (bytes_received : Z) (buf out : list Z) (q : list arrival).

Definition tcp_server_step (buf : list Z) (q : list arrival)
           (now1 now2 : Z) : tcp_action :=
  let '(n1, d1, q1) := recv q (Z.to_nat sizeof_packet_t) in
  if n1 <=? 0 then TcpClosed
  else
    let buf := write buf 0 d1 in
    if is_sync_seq (seq_num buf) then
      let buf := stamp buf now1 now2 in
      TcpSyncEcho buf (firstn (Z.to_nat sizeof_packet_t) buf) q1
    else
      let remaining := to_i32 (sub32 (packet_size buf) n1) in
      let '(n, buf, q2) :=
        if 0 <? remaining then
          let '(n2, d2, q2) := recv q1 (Z.to_nat remaining) in
          (n1 + n2, write buf (Z.to_nat n1) d2, q2)
        else (n1, buf, q1) in
      if n <=? 0 then TcpDisconnected
      else
        let buf := stamp buf now1 now2 in
        TcpDataEcho n buf (firstn (Z.to_nat (packet_size buf)) buf) q2.

(** Whether a pass treated what it read as a synchronisation packet. *)
Definition is_sync_action (a : tcp_action) : bool :=
  match a with TcpSyncEcho _ _ _ => true | _ => false end.

(** One pass through the loop of [run_udp_server]: nothing is sent when
    [recvfrom] returns no byte; otherwise [sendto] is called on the
    buffer with the length read from its [packet_size] field.  [len] is
    that length; [out] is what the buffer holds of it, and stops at the
    end of the buffer where the code would read on past it. *)
Inductive udp_action : Type :=
| UdpSkip
| UdpEcho (len : Z) (out : list Z).

Definition udp_server_step (buf : list Z) (d : dgram_in) (now1 now2 : Z)
  : list Z * udp_action :=
  let '(bytes_received, buf) :=
    recvfrom buf (Z.to_nat MAX_PACKET_SIZE) d in
  if bytes_received <=? 0 then (buf, UdpSkip)
  else
    let buf := stamp buf now1 now2 in
    (buf, UdpEcho (packet_size buf)
                  (firstn (Z.to_nat (packet_size buf)) buf)).

End Server.

(* ================================================================== *)
(** ** Samples and statistics *)

Module Stats.
Import C Packet.
Local Open Scope Q_scope.

Record sample : Type :=
  { s_seq_num : Z;
    s_packet_size : Z;
    s_one_way_latency : Q;
    s_rtt : Q;
    s_server_processing : Q }.

(** The unsigned value of
    [(packet->server_recv - clock_offset) - packet->client_send]:
    [clock_offset] is converted to [uint64_t] by the subtraction. *)
Definition one_way_sync_u64 (p : list Z) (clock_offset : Z) : Z :=
  sub64 (sub64 (server_recv p) (to_u64 clock_offset)) (client_send p).

(** The measurements taken from a validated reply, as the values of
    the expressions the code evaluates; what the assignment to a
    [double] makes of each of them is [Double.measure]. *)
Definition measure (time_sync : bool) (clock_offset : Z) (p : list Z)
  : sample :=
  let server_processing := inject_Z (sub64 (server_send p) (server_recv p)) in
  let rtt := inject_Z (sub64 (client_recv p) (client_send p)) in
  let one_way_latency :=
    if time_sync then inject_Z (one_way_sync_u64 p clock_offset)
    else (rtt - server_processing) / 2 in
  {| s_seq_num := seq_num p;
     s_packet_size := packet_size p;
     s_one_way_latency := one_way_latency;
     s_rtt := rtt;
     s_server_processing := server_processing |}.

Definition Qltb (x y : Q) : bool := negb (Qle_bool y x).

(** The loops over [latencies[0 .. packets_received - 1]], in exact
    arithmetic.  Doubles are compared exactly; their sums, quotients and
    square roots are rounded, and [Double.total], [Double.average],
    [Double.variance] and [Double.jitter] are the same loops in
    binary64. *)
Definition total (xs : list Q) : Q := fold_left Qplus xs 0.
Definition minimum (x0 : Q) (xs : list Q) : Q :=
  fold_left (fun m x => if Qltb x m then x else m) xs x0.
Definition maximum (x0 : Q) (xs : list Q) : Q :=
  fold_left (fun m x => if Qltb m x then x else m) xs x0.
Definition count (xs : list Q) : Q := inject_Z (Z.of_nat (length xs)).
Definition average (xs : list Q) : Q := total xs / count xs.

(** [std_dev += pow (latencies[i] - avg_latency, 2)], then
    [std_dev / packets_received], whose square root is the jitter. *)
Definition squared_deviations (avg : Q) (xs : list Q) : Q :=
  fold_left (fun acc x => acc + (x - avg) ^ 2) xs 0.
Definition variance (xs : list Q) : Q :=
  squared_deviations (average xs) xs / count xs.
Definition jitter (xs : list Q) : R := sqrt (Q2R (variance xs)).

Definition packet_loss (num_packets : Z) (received : nat) : Q :=
  100 * inject_Z (num_packets - Z.of_nat received) / inject_Z num_packets.

Record summary : Type :=
  { packets_received : nat;
    loss_pct : Q;
    min_latency : Q; max_latency : Q; avg_latency : Q;
    latency_variance : Q; jitter_us : R;
    min_rtt_us : Q; max_rtt_us : Q; avg_rtt_us : Q }.

(** The statistics block at the end of a client run: [None] is the
    branch that prints only "No packets were successfully exchanged". *)
Definition summarize (num_packets : Z) (samples : list sample)
  : option summary :=
  let latencies := map s_one_way_latency samples in
  let rtts := map s_rtt samples in
  match latencies, rtts with
  | l0 :: _, r0 :: _ =>
      Some {| packets_received := length samples;
              loss_pct := packet_loss num_packets (length samples);
              min_latency := minimum l0 latencies;
              max_latency := maximum l0 latencies;
              avg_latency := average latencies;
              latency_variance := variance latencies;
              jitter_us := jitter latencies;
              min_rtt_us := minimum r0 rtts;
              max_rtt_us := maximum r0 rtts;
              avg_rtt_us := average rtts |}
  | _, _ => None
  end.

(** The population standard deviation as the specification words it:
    the mean of the squared deviations from the mean. *)
Definition mean_spec (xs : list Q) : Q :=
  fold_right Qplus 0 xs / inject_Z (Z.of_nat (length xs)).
Definition population_variance_spec (xs : list Q) : Q :=
  fold_right Qplus 0 (map (fun x => (x - mean_spec xs) * (x - mean_spec xs)) xs)
  / inject_Z (Z.of_nat (length xs)).
Definition population_std_dev_spec (xs : list Q) : R :=
  sqrt (Q2R (population_variance_spec xs)).

(** The sample (n - 1) variant, which the code does not compute. *)
Definition sample_variance_spec (xs : list Q) : Q :=
  fold_right Qplus 0 (map (fun x => (x - mean_spec xs) * (x - mean_spec xs)) xs)
  / inject_Z (Z.of_nat (length xs) - 1).

End Stats.

(* ================================================================== *)
(** ** Clients *)

Module Client.
Import C Packet Net Stats.

(** The two-step receive of [run_tcp_client]. *)
Inductive rx : Type :=
| Disconnected
| Received (bytes_received : Z) (packet : list Z) (q : list arrival).

Definition tcp_client_receive (packet : list Z) (q : list arrival) : rx :=
  let '(n1, d1, q1) := recv q (Z.to_nat sizeof_packet_t) in
  if n1 <=? 0 then Disconnected
  else
    let packet := write packet 0 d1 in
    let remaining := to_i32 (sub32 (packet_size packet) n1) in
    let '(n, packet, q2) :=
      if 0 <? remaining then
        let '(n2, d2, q2) := recv q1 (Z.to_nat remaining) in
        (n1 + n2, write packet (Z.to_nat n1) d2, q2)
      else (n1, packet, q1) in
    if n <=? 0 then Disconnected else Received n packet q2.

(** The packet as prepared at the top of an iteration. *)
Definition prepare (packet : list Z) (i : nat) (now : Z) : list Z :=
  let p := set_seq_num packet (Z.of_nat i + 1) in
  let p := set_client_send p now in
  let p := set_server_recv p 0 in
  set_server_send p 0.

(** One iteration of the loop of [run_tcp_client], on the bytes the
    server will have sent by then: [None] is the [break]. *)
Definition tcp_client_iter (time_sync : bool) (clock_offset : Z)
           (i : nat) (now_send now_recv : Z)
           (packet : list Z) (q : list arrival)
  : option (list Z * list arrival * option sample) :=
  let p := prepare packet i now_send in
  match tcp_client_receive p q with
  | Disconnected => None
  | Received _ p q' =>
      let p := set_client_recv p now_recv in
      if negb (validate_packet p) then Some (p, q', None)
      else Some (p, q', Some (measure time_sync clock_offset p))
  end.

(** What the datagram channel does with the packet of one iteration:
    [sendto] fails, or the packet leaves and [recvfrom] then finds a
    datagram or none within the timeout. *)
Inductive udp_outcome : Type :=
| SendError
| Sent (d : dgram_in).

Record udp_env : Type :=
  { now_send : nat -> Z;
    now_recv : nat -> Z;
    channel : nat -> list Z -> udp_outcome }.

Record client_state : Type :=
  { packet : list Z; samples : list sample }.

(** One iteration of the loop of [run_udp_client]. *)
Definition udp_client_iter (time_sync : bool) (clock_offset : Z)
           (env : udp_env) (st : client_state) (i : nat) : client_state :=
  let p := prepare (packet st) i (now_send env i) in
  match channel env i (firstn (Z.to_nat (packet_size p)) p) with
  | SendError => {| packet := p; samples := samples st |}
  | Sent d =>
      let '(bytes_received, p) :=
        recvfrom p (Z.to_nat (packet_size p)) d in
      if bytes_received <=? 0
      then {| packet := p; samples := samples st |}
      else
        let p := set_client_recv p (now_recv env i) in
        if negb (validate_packet p)
           || negb (seq_num p =? Z.of_nat i + 1)
        then {| packet := p; samples := samples st |}
        else {| packet := p;
                samples := samples st
                             ++ [measure time_sync clock_offset p] |}
  end.

Record config : Type :=
  { num_packets : Z;
    cfg_packet_size : Z;
    time_sync : bool;
    rate_pps : Z;
    delay_ms : Z }.

Definition actual_delay_us (cfg : config) : Z :=
  if 0 <? rate_pps cfg then 1000000 / rate_pps cfg
  else to_i32 (delay_ms cfg * 1000).

(** The 1-second receive timeout set on the datagram socket
    ([tv_sec], [tv_usec]). *)
Definition udp_receive_timeout : Z * Z := (1, 0).

(** What a completed run leaves: the samples in the order recorded, and
    the statistics block if one was printed. *)
Record run_output : Type :=
  { recorded : list sample; report : option summary }.

(** [run_udp_client] from the allocation of the packet on, with the
    clock offset obtained before; no stop signal arrives.  [None] is the
    exit on a failed allocation. *)
Definition run_udp_client (cfg : config) (clock_offset : Z)
           (env : udp_env) : option run_output :=
  match create_packet (cfg_packet_size cfg) with
  | None => None
  | Some p =>
      let st :=
        fold_left (udp_client_iter (time_sync cfg) clock_offset env)
                  (seq 0 (Z.to_nat (num_packets cfg)))
                  {| packet := p; samples := [] |} in
      Some {| recorded := samples st;
              report := summarize (num_packets cfg) (samples st) |}
  end.

(** The server of the simulation for a whole datagram: the bytes come
    back with the two server stamps set. *)
Definition faithful_echo (sent : list Z) (t2 t3 : Z) : list Z :=
  Server.stamp sent t2 t3.

(** The channel that loses every third packet and echoes the others. *)
Definition lossy_channel (srv_recv srv_send : nat -> Z)
  : nat -> list Z -> udp_outcome :=
  fun i sent =>
    if (Z.of_nat i + 1) mod 3 =? 0 then Sent NoDatagram
    else Sent (Datagram (faithful_echo sent (srv_recv i) (srv_send i))).

End Client.

(* ================================================================== *)
(** ** Concrete exchanges used as test inputs *)

Module Scenario.
Import C Packet Net Server Client Stats.

(** The 64-byte packet of a client run. *)
Definition packet64 : list Z :=
  match create_packet 64 with Some p => p | None => [] end.

(** First iteration of a stream client: sent at 1000, stamped by the
    server at 1500, and delivered as the 48 header bytes followed by the
    16 payload bytes in two reads of 8. *)
Definition sent1 : list Z := prepare packet64 0 1000.
Definition reply1 : list Z := stamp sent1 1500 1500.
Definition split_delivery : list arrival :=
  [Segment (firstn 48 reply1);
   Segment (firstn 8 (skipn 48 reply1));
   Segment (skipn 56 reply1)].

(** The buffer and the stream the first iteration leaves, and the reply
    to the second packet (sent at 3000, stamped at 3500), which arrives
    in one piece behind what is left of the first. *)
Definition after1 : list Z * list arrival :=
  match tcp_client_iter false 0 0 1000 2000 packet64 split_delivery with
  | Some (p, q, _) => (p, q)
  | None => ([], [])
  end.
Definition reply2 : list Z := stamp (prepare (fst after1) 1 3000) 3500 3500.

(** The buffer a server allocates at start. *)
Definition server_buffer : list Z :=
  match create_packet MAX_PACKET_SIZE with Some p => p | None => [] end.

(** A reply measured with synchronisation enabled: sent at 1000 on the
    client clock, received by the server at 1102 on its own clock,
    back at 1004; the estimated offset is 105. *)
Definition early_reply : list Z :=
  set_client_recv (stamp (prepare packet64 0 1000) 1102 1102) 1004.

Definition config5 : config :=
  {| num_packets := 5; cfg_packet_size := 64; time_sync := false;
     rate_pps := 10; delay_ms := 100 |}.

Definition config0 : config :=
  {| num_packets := 0; cfg_packet_size := 64; time_sync := false;
     rate_pps := 10; delay_ms := 100 |}.

(** A lossy datagram channel with a server 100 ahead of the client and
    a transit time of 20 each way. *)
Definition lossy_env : udp_env :=
  {| now_send := fun i => 1000 * Z.of_nat i;
     now_recv := fun i => 1000 * Z.of_nat i + 40;
     channel := lossy_channel (fun i => 1000 * Z.of_nat i + 120)
                              (fun i => 1000 * Z.of_nat i + 120) |}.

(** The three-sample example of the statistics. *)
Definition latencies_10_20_30 : list Q := [10%Q; 20%Q; 30%Q].

Definition sample_of_latency (l : Q) : sample :=
  {| s_seq_num := 0; s_packet_size := 64; s_one_way_latency := l;
     s_rtt := 2 * l; s_server_processing := 0 |}.

End Scenario.

(* ================================================================== *)
(** ** The clock ([get_timestamp_usec]) *)

Module Clock.
Import C.

(** The stamp made from the [timeval] that [gettimeofday] filled:
    [(uint64_t) (tv.tv_sec * 1000000 + tv.tv_usec)]. *)
Definition get_timestamp_usec (tv_sec tv_usec : Z) : Z :=
  to_u64 (tv_sec * 1000000 + tv_usec).

(** A [timeval] as [gettimeofday] returns it, early enough for the
    product to fit a [long]. *)
Definition valid_timeval (tv_sec tv_usec : Z) : Prop :=
  0 <= tv_sec < 2 ^ 43 /\ 0 <= tv_usec < 1000000.

End Clock.

(* ================================================================== *)
(** ** The command line ([main]) *)

Module Main.
Import C.

Inductive protocol_t : Type := PROTOCOL_TCP | PROTOCOL_UDP.

Record config_t : Type :=
  { is_server : bool;
    server_ip : String.string;
    port : Z;
    protocol : protocol_t;
    use_ipv6 : bool;
    num_packets : Z;
    delay_ms : Z;
    packet_size : Z;
    rate_pps : Z;
    time_sync : bool;
    output_file : String.string }.

Definition DEFAULT_PORT : Z := 8888.
Definition DEFAULT_NUM_PACKETS : Z := 100.
Definition DEFAULT_DELAY_MS : Z := 100.
Definition DEFAULT_PACKET_SIZE : Z := 1024.
Definition DEFAULT_RATE_PPS : Z := 10.
Definition EXIT_SUCCESS : Z := 0.
Definition EXIT_FAILURE : Z := 1.

(** The configuration before the options are read: the zeroed struct
    with the defaults stored in it. *)
Definition default_config : config_t :=
  {| is_server := false;
     server_ip := String.EmptyString;
     port := DEFAULT_PORT;
     protocol := PROTOCOL_TCP;
     use_ipv6 := false;
     num_packets := DEFAULT_NUM_PACKETS;
     delay_ms := DEFAULT_DELAY_MS;
     packet_size := DEFAULT_PACKET_SIZE;
     rate_pps := DEFAULT_RATE_PPS;
     time_sync := false;
     output_file := String.EmptyString |}.

(** One option as [getopt] returns it; a numeric argument is the [int]
    that [atoi] made of it. *)
Inductive option_t : Type :=
| Opt_s
| Opt_c (optarg : String.string)
| Opt_p (n : Z)
| Opt_u
| Opt_n (n : Z)
| Opt_d (n : Z)
| Opt_l (n : Z)
| Opt_r (n : Z)
| Opt_o (optarg : String.string)
| Opt_6
| Opt_t
| Opt_h
| Opt_unknown.

(** [strncpy (dst, optarg, n)] into a zeroed field of [n + 1] bytes. *)
Definition strncpy (n : nat) (optarg : String.string) : String.string :=
  String.substring 0 n optarg.

(** The bounds put on the argument of [-l]. *)
Definition clamp_packet_size (n : Z) : Z :=
  if n <? Packet.MIN_PACKET_SIZE then Packet.MIN_PACKET_SIZE
  else if Packet.MAX_PACKET_SIZE <? n then Packet.MAX_PACKET_SIZE
  else n.

Inductive parsed : Type :=
| Exit (status : Z)
| Config (c : config_t).

(** One pass through the [switch] of the option loop. *)
Definition set_option (c : config_t) (o : option_t) : parsed :=
  match o with
  | Opt_s =>
      Config {| is_server := true; server_ip := server_ip c; port := port c;
                protocol := protocol c; use_ipv6 := use_ipv6 c;
                num_packets := num_packets c; delay_ms := delay_ms c;
                packet_size := packet_size c; rate_pps := rate_pps c;
                time_sync := time_sync c; output_file := output_file c |}
  | Opt_c optarg =>
      Config {| is_server := false; server_ip := strncpy 127 optarg;
                port := port c;
                protocol := protocol c; use_ipv6 := use_ipv6 c;
                num_packets := num_packets c; delay_ms := delay_ms c;
                packet_size := packet_size c; rate_pps := rate_pps c;
                time_sync := time_sync c; output_file := output_file c |}
  | Opt_p n =>
      Config {| is_server := is_server c; server_ip := server_ip c; port := n;
                protocol := protocol c; use_ipv6 := use_ipv6 c;
                num_packets := num_packets c; delay_ms := delay_ms c;
                packet_size := packet_size c; rate_pps := rate_pps c;
                time_sync := time_sync c; output_file := output_file c |}
  | Opt_u =>
      Config {| is_server := is_server c; server_ip := server_ip c;
                port := port c;
                protocol := PROTOCOL_UDP; use_ipv6 := use_ipv6 c;
                num_packets := num_packets c; delay_ms := delay_ms c;
                packet_size := packet_size c; rate_pps := rate_pps c;
                time_sync := time_sync c; output_file := output_file c |}
  | Opt_n n =>
      Config {| is_server := is_server c; server_ip := server_ip c;
                port := port c;
                protocol := protocol c; use_ipv6 := use_ipv6 c;
                num_packets := n; delay_ms := delay_ms c;
                packet_size := packet_size c; rate_pps := rate_pps c;
                time_sync := time_sync c; output_file := output_file c |}
  | Opt_d n =>
      Config {| is_server := is_server c; server_ip := server_ip c;
                port := port c;
                protocol := protocol c; use_ipv6 := use_ipv6 c;
                num_packets := num_packets c; delay_ms := n;
                packet_size := packet_size c; rate_pps := rate_pps c;
                time_sync := time_sync c; output_file := output_file c |}
  | Opt_l n =>
      Config {| is_server := is_server c; server_ip := server_ip c;
                port := port c;
                protocol := protocol c; use_ipv6 := use_ipv6 c;
                num_packets := num_packets c; delay_ms := delay_ms c;
                packet_size := clamp_packet_size n; rate_pps := rate_pps c;
                time_sync := time_sync c; output_file := output_file c |}
  | Opt_r n =>
      Config {| is_server := is_server c; server_ip := server_ip c;
                port := port c;
                protocol := protocol c; use_ipv6 := use_ipv6 c;
                num_packets := num_packets c; delay_ms := delay_ms c;
                packet_size := packet_size c; rate_pps := n;
                time_sync := time_sync c; output_file := output_file c |}
  | Opt_o optarg =>
      Config {| is_server := is_server c; server_ip := server_ip c;
                port := port c;
                protocol := protocol c; use_ipv6 := use_ipv6 c;
                num_packets := num_packets c; delay_ms := delay_ms c;
                packet_size := packet_size c; rate_pps := rate_pps c;
                time_sync := time_sync c;
                output_file := strncpy 255 optarg |}
  | Opt_6 =>
      Config {| is_server := is_server c; server_ip := server_ip c;
                port := port c;
                protocol := protocol c; use_ipv6 := true;
                num_packets := num_packets c; delay_ms := delay_ms c;
                packet_size := packet_size c; rate_pps := rate_pps c;
                time_sync := time_sync c; output_file := output_file c |}
  | Opt_t =>
      Config {| is_server := is_server c; server_ip := server_ip c;
                port := port c;
                protocol := protocol c; use_ipv6 := use_ipv6 c;
                num_packets := num_packets c; delay_ms := delay_ms c;
                packet_size := packet_size c; rate_pps := rate_pps c;
                time_sync := true; output_file := output_file c |}
  | Opt_h => Exit EXIT_SUCCESS
  | Opt_unknown => Exit EXIT_FAILURE
  end.

(** The option loop. *)
Fixpoint parse_options (opts : list option_t) (c : config_t) : parsed :=
  match opts with
  | [] => Config c
  | o :: rest =>
      match set_option c o with
      | Exit status => Exit status
      | Config c' => parse_options rest c'
      end
  end.

(** What [main] goes on to run. *)
Inductive run_mode : Type :=
| RunTcpServer
| RunUdpServer
| RunTcpClient
| RunUdpClient
| UsageFailure.

Definition dispatch (c : config_t) : run_mode :=
  if is_server c then
    match protocol c with
    | PROTOCOL_TCP => RunTcpServer
    | PROTOCOL_UDP => RunUdpServer
    end
  else
    match server_ip c with
    | String.EmptyString => UsageFailure
    | String.String _ _ =>
        match protocol c with
        | PROTOCOL_TCP => RunTcpClient
        | PROTOCOL_UDP => RunUdpClient
        end
    end.

(** [main], up to the call of the function that runs the mode. *)
Definition main (opts : list option_t) : Z + run_mode * config_t :=
  match parse_options opts default_config with
  | Exit status => inl status
  | Config c =>
      match dispatch c with
      | UsageFailure => inl EXIT_FAILURE
      | mode => inr (mode, c)
      end
  end.

(** The part of the configuration a client run reads. *)
Definition client_config (c : config_t) : Client.config :=
  {| Client.num_packets := num_packets c;
     Client.cfg_packet_size := packet_size c;
     Client.time_sync := time_sync c;
     Client.rate_pps := rate_pps c;
     Client.delay_ms := delay_ms c |}.

End Main.

(** Command lines used as test inputs. *)
Module CommandLines.
Import String.

(** [-c 10.0.0.1 -u -n 5 -l 5 -d 250]: a datagram client that asks for
    packets of 5 bytes and a delay of 250 ms. *)
Definition client_line : list Main.option_t :=
  [Main.Opt_c "10.0.0.1"%string; Main.Opt_u; Main.Opt_n 5; Main.Opt_l 5;
   Main.Opt_d 250].

(** The configuration that command line leaves. *)
Definition client_line_config : Main.config_t :=
  {| Main.is_server := false;
     Main.server_ip := "10.0.0.1"%string;
     Main.port := 8888;
     Main.protocol := Main.PROTOCOL_UDP;
     Main.use_ipv6 := false;
     Main.num_packets := 5;
     Main.delay_ms := 250;
     Main.packet_size := 64;
     Main.rate_pps := 10;
     Main.time_sync := false;
     Main.output_file := EmptyString |}.

End CommandLines.

(* ================================================================== *)
(** ** Throughput *)

Module Throughput.
Import C.
Local Open Scope Q_scope.

(** [test_duration_sec]: the difference of the last and the first entry
    of [rtts] plus one pacing interval, or the interval alone when
    fewer than two samples were recorded. *)
Definition test_duration_sec (actual_delay_us : Z) (rtts : list Q) : Q :=
  match rtts with
  | r0 :: _ :: _ =>
      (last rtts 0 - r0) / 1000000 + inject_Z actual_delay_us / 1000000
  | _ => inject_Z actual_delay_us / 1000000
  end.

(** [throughput_bps]; the number of bits is an [int] product.  A zero
    duration makes the division yield no number: [None]. *)
Definition throughput_bps (packet_size actual_delay_us : Z) (rtts : list Q)
  : option Q :=
  let bits := to_i32 (Z.of_nat (length rtts) * packet_size * 8) in
  let d := test_duration_sec actual_delay_us rtts in
  if Qeq_bool d 0 then None else Some (inject_Z bits / d).

End Throughput.

(* ================================================================== *)
(** ** Values of type [double] *)

Module Double.
Import C Packet Stats.

(** The conversion of an integer to [double] (binary64, round to
    nearest, ties to even), as the value it yields: an integer of
    magnitude up to 2^53 is kept; a larger one keeps its 53 leading
    bits.  This is the conversion at an assignment such as
    [double rtt = packet->client_recv - packet->client_send], and the
    rounding of a sum or difference of two integer-valued doubles.
    Magnitudes stay far below 2^1024, so nothing overflows. *)
Definition round_int (z : Z) : Z :=
  let a := Z.abs z in
  if a <=? 2 ^ 53 then z
  else
    let e := Z.log2 a - 52 in
    let q := a / 2 ^ e in
    let r := a mod 2 ^ e in
    let half := 2 ^ (e - 1) in
    let q := if (half <? r) || ((r =? half) && Z.odd q) then q + 1 else q in
    Z.sgn z * (q * 2 ^ e).

(** The measurements as the client stores them:
    [double server_processing = packet->server_send - packet->server_recv],
    [double rtt = packet->client_recv - packet->client_send], and
    [one_way_latency], which is the 64-bit unsigned value
    [(packet->server_recv - clock_offset) - packet->client_send]
    converted, or [(rtt - server_processing) / 2.0] computed on the two
    doubles (the division by 2 is exact).  The fields of the sample hold
    the values of the doubles. *)
Definition measure (time_sync : bool) (clock_offset : Z) (p : list Z)
  : sample :=
  let server_processing :=
    round_int (sub64 (server_send p) (server_recv p)) in
  let rtt := round_int (sub64 (client_recv p) (client_send p)) in
  let one_way_latency :=
    if time_sync
    then inject_Z (round_int (one_way_sync_u64 p clock_offset))
    else (inject_Z (round_int (rtt - server_processing)) / 2)%Q in
  {| s_seq_num := seq_num p;
     s_packet_size := packet_size p;
     s_one_way_latency := one_way_latency;
     s_rtt := inject_Z rtt;
     s_server_processing := inject_Z server_processing |}.

(** The same conversion on the primitive binary64 numbers, for an
    unsigned 64-bit value: the two halves are exact and the sum is
    rounded once. *)
Definition of_u64 (z : Z) : PrimFloat.float :=
  PrimFloat.add
    (PrimFloat.mul (PrimFloat.of_uint63 (Uint63.of_Z (z / 2 ^ 32)))
                   (PrimFloat.of_uint63 (Uint63.of_Z (2 ^ 32))))
    (PrimFloat.of_uint63 (Uint63.of_Z (z mod 2 ^ 32))).

(** The integer a binary64 number stands for, when it is one. *)
Definition to_int (x : PrimFloat.float) : option Z :=
  match FloatOps.Prim2SF x with
  | SpecFloat.S754_zero _ => Some 0
  | SpecFloat.S754_finite sign m e =>
      let s := if sign then -1 else 1 in
      if 0 <=? e then Some (s * (Z.pos m * 2 ^ e))
      else if Z.pos m mod 2 ^ (- e) =? 0
           then Some (s * (Z.pos m / 2 ^ (- e)))
           else None
  | _ => None
  end.


(** The statistics loops of the clients in binary64, operation by
    operation: [total_latency += latencies[i]],
    [avg_latency = total_latency / packets_received],
    [std_dev += pow (latencies[i] - avg_latency, 2)] and
    [std_dev = sqrt (std_dev / packets_received)].  [packets_received]
    is an [int], converted exactly; [pow (x, 2)] is taken as the
    correctly rounded square [x * x]. *)
Definition of_count (n : nat) : PrimFloat.float :=
  PrimFloat.of_uint63 (Uint63.of_Z (Z.of_nat n)).

Definition total (xs : list PrimFloat.float) : PrimFloat.float :=
  fold_left PrimFloat.add xs PrimFloat.zero.

Definition average (xs : list PrimFloat.float) : PrimFloat.float :=
  PrimFloat.div (total xs) (of_count (length xs)).

Definition squared_deviations (avg : PrimFloat.float)
           (xs : list PrimFloat.float) : PrimFloat.float :=
  fold_left (fun acc x =>
               PrimFloat.add acc (PrimFloat.mul (PrimFloat.sub x avg)
                                                (PrimFloat.sub x avg)))
            xs PrimFloat.zero.

Definition variance (xs : list PrimFloat.float) : PrimFloat.float :=
  PrimFloat.div (squared_deviations (average xs) xs) (of_count (length xs)).

Definition jitter (xs : list PrimFloat.float) : PrimFloat.float :=
  PrimFloat.sqrt (variance xs).

(** The population standard deviation as the specification words it,
    with each operation in binary64 and the sums taken from the first
    sample on: the mean, the squared deviations from it, their sum
    divided by the number of samples, the square root. *)
Definition sum (xs : list PrimFloat.float) : PrimFloat.float :=
  fold_left PrimFloat.add xs PrimFloat.zero.

Definition mean_spec (xs : list PrimFloat.float) : PrimFloat.float :=
  PrimFloat.div (sum xs) (of_count (length xs)).

Definition squared_deviation (m x : PrimFloat.float) : PrimFloat.float :=
  PrimFloat.mul (PrimFloat.sub x m) (PrimFloat.sub x m).

Definition population_std_dev_spec (xs : list PrimFloat.float)
  : PrimFloat.float :=
  PrimFloat.sqrt
    (PrimFloat.div (sum (map (squared_deviation (mean_spec xs)) xs))
                   (of_count (length xs))).




(** Latencies as lists of doubles: 10, 20 and 30 microseconds; the two
    neighbouring doubles 2^63 and 2^63 + 2048; a hundred samples of
    2^63 + 4096. *)
Definition latencies_10_20_30 : list PrimFloat.float :=
  map of_u64 [10; 20; 30].



End Double.

(* ================================================================== *)
(** ** A connection of the stream server, a run of the stream client *)

Module Session.
Import C Packet Net Server Client Stats.

(** What one connection leaves: the packets sent back, the value of
    [packet_count] when the loop ends, and the count printed on the way
    out, if the loop printed one. *)
Record session_result : Type :=
  { echoes : list (list Z);
    packet_count : Z;
    printed_count : option Z }.

(** The inner loop of [run_tcp_server] for one connection.  [clock k]
    is the pair of readings of the clock in pass [k]; [fuel] bounds the
    number of passes, and [None] means it ran out. *)
Fixpoint tcp_server_session (fuel : nat) (clock : nat -> Z * Z) (k : nat)
         (buf : list Z) (q : list arrival) (count : Z)
         (outs : list (list Z)) : option session_result :=
  match fuel with
  | O => None
  | S f =>
      match tcp_server_step buf q (fst (clock k)) (snd (clock k)) with
      | TcpClosed =>
          Some {| echoes := outs; packet_count := count;
                  printed_count := None |}
      | TcpDisconnected =>
          Some {| echoes := outs; packet_count := count;
                  printed_count := Some count |}
      | TcpSyncEcho buf' out q' =>
          tcp_server_session f clock (S k) buf' q' count (outs ++ [out])
      | TcpDataEcho _ buf' out q' =>
          tcp_server_session f clock (S k) buf' q' (add64 count 1)
                             (outs ++ [out])
      end
  end.

(** What the server answers to the packet the client sends in
    iteration [i], and the client clock at send and at receipt. *)
Record tcp_env : Type :=
  { tcp_now_send : nat -> Z;
    tcp_now_recv : nat -> Z;
    tcp_reply : nat -> list Z -> list arrival }.

(** One iteration of the loop of [run_tcp_client] on the bytes the
    server will have sent by then, with the measurements as the arrays
    of doubles receive them: [None] is the [break]. *)
Definition tcp_client_pass (time_sync : bool) (clock_offset : Z)
           (i : nat) (now_send now_recv : Z)
           (packet : list Z) (q : list arrival)
  : option (list Z * list arrival * option sample) :=
  let p := prepare packet i now_send in
  match tcp_client_receive p q with
  | Disconnected => None
  | Received _ p q' =>
      let p := set_client_recv p now_recv in
      if negb (validate_packet p) then Some (p, q', None)
      else Some (p, q', Some (Double.measure time_sync clock_offset p))
  end.

(** The loop of [run_tcp_client]: the packet goes out, what the server
    answers joins the stream, and the iteration of the client reads from
    it; a disconnection ends the loop with the samples taken so far. *)
Fixpoint tcp_client_loop (count i : nat) (time_sync : bool)
         (clock_offset : Z) (env : tcp_env) (p : list Z)
         (q : list arrival) (acc : list sample) : list sample :=
  match count with
  | O => acc
  | S c =>
      let sent := prepare p i (tcp_now_send env i) in
      let q := q ++ tcp_reply env i
                      (firstn (Z.to_nat (packet_size sent)) sent) in
      match tcp_client_pass time_sync clock_offset i
                            (tcp_now_send env i) (tcp_now_recv env i) p q with
      | None => acc
      | Some (p', q', Some s) =>
          tcp_client_loop c (S i) time_sync clock_offset env p' q'
                          (acc ++ [s])
      | Some (p', q', None) =>
          tcp_client_loop c (S i) time_sync clock_offset env p' q' acc
      end
  end.

(** [run_tcp_client] from the allocation of the packet on, with the
    clock offset obtained before; no stop signal arrives. *)
Definition run_tcp_client (cfg : config) (clock_offset : Z) (env : tcp_env)
  : option run_output :=
  match create_packet (cfg_packet_size cfg) with
  | None => None
  | Some p =>
      let recorded :=
        tcp_client_loop (Z.to_nat (num_packets cfg)) 0 (time_sync cfg)
                        clock_offset env p [] [] in
      Some {| recorded := recorded;
              report := summarize (num_packets cfg) recorded |}
  end.

(** The server that sends each packet back whole, stamped. *)
Definition echo_server (srv_recv srv_send : nat -> Z)
  : nat -> list Z -> list arrival :=
  fun i sent => [Segment (stamp sent (srv_recv i) (srv_send i))].

(** The server that does so for the first [k] packets and then closes
    the connection. *)
Definition closing_server (k : nat) (srv_recv srv_send : nat -> Z)
  : nat -> list Z -> list arrival :=
  fun i sent =>
    if (i <? k)%nat then [Segment (stamp sent (srv_recv i) (srv_send i))]
    else [].

End Session.

(* ================================================================== *)
(** ** Streams of whole packets *)

Module Stream.
Import C Packet Net Server Client Stats Session.

(** A packet as a client puts it on the stream, when it is delivered in
    one piece: at least a header and no more than the buffer of the
    server holds; a synchronisation packet is a bare header, any other
    packet has the length its [packet_size] field declares. *)
Definition framed (w : list Z) : Prop :=
  (Z.to_nat sizeof_packet_t <= length w <= Z.to_nat MAX_PACKET_SIZE)%nat /\
  if is_sync_seq (seq_num w)
  then length w = Z.to_nat sizeof_packet_t
  else packet_size w = Z.of_nat (length w).

(** The packets stamped with the readings of the server clock, pass
    after pass from pass [k] on. *)
Fixpoint stamped (clock : nat -> Z * Z) (k : nat) (ws : list (list Z))
  : list (list Z) :=
  match ws with
  | [] => []
  | w :: ws' =>
      stamp w (fst (clock k)) (snd (clock k)) :: stamped clock (S k) ws'
  end.

Definition data_packets (ws : list (list Z)) : list (list Z) :=
  filter (fun w => negb (is_sync_seq (seq_num w))) ws.

(** The sample a client stores in iteration [i] from a faithful echo:
    the packet left at [ns] and came back at [nr] on the client clock,
    and the server stamped it [t2] and [t3].  The differences are taken
    in [uint64_t] and converted to [double]. *)
Definition echo_sample (time_sync : bool) (clock_offset size : Z)
           (i : nat) (ns nr t2 t3 : Z) : sample :=
  let server_processing :=
    Double.round_int (sub64 (to_u64 t3) (to_u64 t2)) in
  let rtt := Double.round_int (sub64 (to_u64 nr) (to_u64 ns)) in
  {| s_seq_num := Z.of_nat i + 1;
     s_packet_size := size;
     s_one_way_latency :=
       if time_sync
       then inject_Z
              (Double.round_int
                 (sub64 (sub64 (to_u64 t2) (to_u64 clock_offset))
                        (to_u64 ns)))
       else (inject_Z (Double.round_int (rtt - server_processing)) / 2)%Q;
     s_rtt := inject_Z rtt;
     s_server_processing := inject_Z server_processing |}.

Definition echo_samples (time_sync : bool) (clock_offset size : Z)
           (env : tcp_env) (srv_recv srv_send : nat -> Z) (n : nat)
  : list sample :=
  map (fun i => echo_sample time_sync clock_offset size i
                            (tcp_now_send env i) (tcp_now_recv env i)
                            (srv_recv i) (srv_send i))
      (seq 0 n).

(** A server clock, and a stream of one synchronisation packet and two
    data packets. *)
Definition tick : nat -> Z * Z :=
  fun k => (10 * Z.of_nat k, 10 * Z.of_nat k + 1).

Definition three_packets : list (list Z) :=
  [Sync.sync_packet 0 5;
   prepare Scenario.packet64 0 100;
   prepare Scenario.packet64 1 200].

(** A client clock and a server that answers each packet whole. *)
Definition steady_env (k : nat) : tcp_env :=
  {| tcp_now_send := fun i => 1000 * Z.of_nat i;
     tcp_now_recv := fun i => 1000 * Z.of_nat i + 240;
     tcp_reply :=
       closing_server k (fun i => 1000 * Z.of_nat i + 120)
                        (fun i => 1000 * Z.of_nat i + 120) |}.

(** A run with synchronisation, against a server whose clock is 50
    behind the client clock, on a path that takes 120 each way. *)
Definition synced_config5 : config :=
  {| num_packets := 5; cfg_packet_size := 64; time_sync := true;
     rate_pps := 10; delay_ms := 100 |}.

Definition behind_env (k : nat) : tcp_env :=
  {| tcp_now_send := fun i => 1000 * Z.of_nat i;
     tcp_now_recv := fun i => 1000 * Z.of_nat i + 240;
     tcp_reply :=
       closing_server k (fun i => 1000 * Z.of_nat i + 70)
                        (fun i => 1000 * Z.of_nat i + 70) |}.

End Stream.

(* ================================================================== *)
(** ** Datagram channels that damage a reply *)

Module Channel.
Import C Packet Net Server Client.

(** A buffer of the right size and declared size whose payload departs
    from the pattern at some byte. *)
Definition corrupted (size : Z) (p : list Z) : Prop :=
  sizeof_packet_t <= size /\
  length p = Z.to_nat size /\
  packet_size p = size /\
  exists j, (j < Z.to_nat (size - sizeof_packet_t))%nat /\
            payload p j <> Z.of_nat j mod 256.

(** The echo of a packet with payload byte [j] replaced by [b]. *)
Definition damaged_echo (sent : list Z) (t2 t3 : Z) (j : nat) (b : Z)
  : list Z :=
  set_payload (faithful_echo sent t2 t3) j b.

(** In iteration [i] the channel does nothing worse than lose the
    packet: the send fails, no reply comes, or the faithful echo does. *)
Definition well_behaved (env : udp_env) (i : nat) : Prop :=
  forall sent,
    channel env i sent = SendError \/
    channel env i sent = Sent NoDatagram \/
    exists t2 t3,
      channel env i sent = Sent (Datagram (faithful_echo sent t2 t3)).

(** A channel that damages the reply of iteration 2 and is faithful in
    every other iteration. *)
Definition one_damaged_reply : udp_env :=
  {| now_send := fun i => 1000 * Z.of_nat i;
     now_recv := fun i => 1000 * Z.of_nat i + 40;
     channel := fun i sent =>
       if (i =? 2)%nat
       then Sent (Datagram (damaged_echo sent 2120 2120 5 255))
       else Sent (Datagram (faithful_echo sent (1000 * Z.of_nat i + 120)
                                          (1000 * Z.of_nat i + 120))) |}.




(** A datagram that leaves the size declared in the buffer within the
    allocation of [size] bytes: it stops before the [packet_size] field,
    or it carries the whole field with a value from 44, the end of the
    field, to [size].  The client passes the declared size to [sendto]
    and [recvfrom] as the length of its buffer. *)
Definition fits (size : Z) (d : list Z) : Prop :=
  (length d <= 40)%nat \/
  ((44 <= length d)%nat /\ 44 <= packet_size d <= size).

(** Every reply to a packet that is as long as it declares, and no
    longer than the allocation, fits. *)
Definition within_buffer (size : Z) (env : udp_env) : Prop :=
  forall i sent d,
    (44 <= length sent <= Z.to_nat size)%nat ->
    packet_size sent = Z.of_nat (length sent) ->
    channel env i sent = Sent (Datagram d) ->
    fits size d.

(** The buffer has its allocated length and declares no more. *)
Definition bounded (size : Z) (p : list Z) : Prop :=
  length p = Z.to_nat size /\ 44 <= packet_size p <= size.

(** Two datagrams for the server: a whole packet whose payload byte 10
    is 99, and the first 44 bytes of a packet that declares 64. *)
Definition marked_datagram : list Z := set_payload Scenario.packet64 10 99.
Definition cut_datagram : list Z := firstn 44 Scenario.packet64.

End Channel.

(* ================================================================== *)
(** * Facts about the machine model *)

(** Case analysis on the boolean comparisons of offsets in the goal. *)
Ltac nat_cases :=
  repeat match goal with
         | |- context [(?a <=? ?b)%nat] => destruct (Nat.leb_spec a b)
         | |- context [(?a <? ?b)%nat] => destruct (Nat.ltb_spec a b)
         end;
  cbn [andb]; try lia; try reflexivity.

Section MemoryFacts.
Import C.

Lemma length_le_encode (n : nat) (v : Z) : length (le_encode n v) = n.
Proof. revert v; induction n as [|n IH]; intros v; simpl; auto. Qed.

Lemma length_write (m : list Z) (off : nat) (data : list Z) :
  (off + length data <= length m)%nat ->
  length (write m off data) = length m.
Proof.
  intros H. unfold write.
  rewrite !length_app, length_firstn, length_skipn. lia.
Qed.

Lemma nth_write (m : list Z) (off : nat) (data : list Z) (k : nat) :
  (off <= length m)%nat ->
  nth k (write m off data) 0 =
  if ((off <=? k) && (k <? off + length data))%nat
  then nth (k - off) data 0
  else nth k m 0.
Proof.
  intros Hoff. unfold write.
  assert (Hf : length (firstn off m) = off)
    by (rewrite length_firstn; lia).
  destruct (Nat.leb_spec off k) as [Hle|Hlt]; simpl.
  - rewrite app_nth2 by lia. rewrite Hf.
    destruct (Nat.ltb_spec k (off + length data)) as [Hin|Hout].
    + rewrite app_nth1 by lia. reflexivity.
    + rewrite app_nth2 by lia. rewrite nth_skipn. f_equal. lia.
  - rewrite app_nth1 by lia. rewrite nth_firstn.
    destruct (Nat.ltb_spec k off); [reflexivity | lia].
Qed.

Lemma load_ext (n : nat) (m1 m2 : list Z) (off : nat) :
  (forall k, (off <= k < off + n)%nat -> nth k m1 0 = nth k m2 0) ->
  load n m1 off = load n m2 off.
Proof.
  revert off; induction n as [|n IH]; intros off H; simpl; [reflexivity|].
  rewrite (H off) by lia. rewrite (IH (S off)); [reflexivity|].
  intros k Hk. apply H. lia.
Qed.

Lemma load_encoded (n : nat) (m : list Z) (off : nat) (v : Z) :
  (forall k, (k < n)%nat -> nth (off + k) m 0 = nth k (le_encode n v) 0) ->
  load n m off = v mod 256 ^ Z.of_nat n.
Proof.
  revert off v; induction n as [|n IH]; intros off v H.
  - simpl. rewrite Z.mod_1_r. reflexivity.
  - cbn [load]. rewrite (IH (S off) (v / 256)).
    + specialize (H 0%nat ltac:(lia)). rewrite Nat.add_0_r in H.
      rewrite H. cbn [le_encode nth].
      rewrite Nat2Z.inj_succ, Z.pow_succ_r by lia.
      rewrite (Z.rem_mul_r v 256 (256 ^ Z.of_nat n)) by lia.
      reflexivity.
    + intros k Hk. specialize (H (S k) ltac:(lia)).
      rewrite Nat.add_succ_r in H. exact H.
Qed.

Lemma load_store_same (n : nat) (m : list Z) (off : nat) (v : Z) :
  (off <= length m)%nat ->
  load n (store n m off v) off = v mod 256 ^ Z.of_nat n.
Proof.
  intros Hoff. apply load_encoded. intros k Hk. unfold store.
  rewrite nth_write by assumption. rewrite length_le_encode.
  destruct (Nat.leb_spec off (off + k)); [|lia].
  destruct (Nat.ltb_spec (off + k) (off + n)); [|lia].
  simpl. f_equal. lia.
Qed.

Lemma load_write_other (n : nat) (m : list Z) (off : nat) (data : list Z)
      (off' : nat) :
  (off <= length m)%nat ->
  (off' + n <= off \/ off + length data <= off')%nat ->
  load n (write m off data) off' = load n m off'.
Proof.
  intros Hoff Hdisj. apply load_ext. intros k Hk.
  rewrite nth_write by assumption.
  destruct (Nat.leb_spec off k); simpl; [|reflexivity].
  destruct (Nat.ltb_spec k (off + length data)); [lia | reflexivity].
Qed.

Lemma nth_write_other (m : list Z) (off : nat) (data : list Z) (k : nat) :
  (off <= length m)%nat ->
  (k < off \/ off + length data <= k)%nat ->
  nth k (write m off data) 0 = nth k m 0.
Proof.
  intros Hoff Hk. rewrite nth_write by assumption.
  destruct (Nat.leb_spec off k); simpl; [|reflexivity].
  destruct (Nat.ltb_spec k (off + length data)); [lia | reflexivity].
Qed.

Lemma list_eq_nth (l1 l2 : list Z) :
  length l1 = length l2 ->
  (forall k, (k < length l1)%nat -> nth k l1 0 = nth k l2 0) ->
  l1 = l2.
Proof.
  revert l2; induction l1 as [|a l1 IH]; intros [|b l2] Hlen H;
    simpl in *; try discriminate; [reflexivity|].
  f_equal.
  - apply (H 0%nat). lia.
  - apply IH; [lia|]. intros k Hk. apply (H (S k)). lia.
Qed.

End MemoryFacts.

(* ================================================================== *)
(** * The packet codec *)

Section CodecFacts.
Import C Packet.

Lemma to_u64_small (x : Z) : 0 <= x < 2 ^ 64 -> to_u64 x = x.
Proof. intros H. unfold to_u64. apply Z.mod_small. exact H. Qed.

Lemma to_u32_small (x : Z) : 0 <= x < 2 ^ 32 -> to_u32 x = x.
Proof. intros H. unfold to_u32. apply Z.mod_small. exact H. Qed.

Lemma length_fill_payload (c : nat) :
  forall p i, (OFF_payload + i + c <= length p)%nat ->
  length (fill_payload p c i) = length p.
Proof.
  induction c as [|c IH]; intros p i H; cbn [fill_payload]; [reflexivity|].
  assert (Hl : length (set_payload p i (Z.of_nat i mod 256)) = length p)
    by (unfold set_payload; apply length_write; cbn [length]; lia).
  rewrite IH; [exact Hl | rewrite Hl; lia].
Qed.

Lemma nth_fill_payload (c : nat) :
  forall p i k, (OFF_payload + i + c <= length p)%nat ->
  nth k (fill_payload p c i) 0 =
  if ((OFF_payload + i <=? k) && (k <? OFF_payload + i + c))%nat
  then Z.of_nat (k - OFF_payload) mod 256
  else nth k p 0.
Proof.
  induction c as [|c IH]; intros p i k H.
  - cbn [fill_payload]. nat_cases.
  - cbn [fill_payload].
    assert (Hl : length (set_payload p i (Z.of_nat i mod 256)) = length p)
      by (unfold set_payload; apply length_write; cbn [length]; lia).
    rewrite IH by (rewrite Hl; lia).
    unfold set_payload. rewrite nth_write by lia. cbn [length].
    destruct (Nat.leb_spec (OFF_payload + S i) k);
      destruct (Nat.ltb_spec k (OFF_payload + S i + c));
      destruct (Nat.leb_spec (OFF_payload + i) k);
      destruct (Nat.ltb_spec k (OFF_payload + i + S c));
      destruct (Nat.ltb_spec k (OFF_payload + i + 1));
      cbn [andb]; try lia; try reflexivity.
    replace (k - (OFF_payload + i))%nat with 0%nat by lia.
    replace (k - OFF_payload)%nat with i by lia. reflexivity.
Qed.

Lemma validate_loop_true (p : list Z) (c : nat) :
  forall i,
  (forall j, (i <= j < i + c)%nat -> payload p j = Z.of_nat j mod 256) ->
  validate_loop p c i = true.
Proof.
  induction c as [|c IH]; intros i H; simpl; [reflexivity|].
  rewrite (H i) by lia. rewrite Z.eqb_refl.
  apply IH. intros j Hj. apply H. lia.
Qed.

Lemma validate_loop_false (p : list Z) (c : nat) :
  forall i j, (i <= j < i + c)%nat ->
  payload p j <> Z.of_nat j mod 256 ->
  validate_loop p c i = false.
Proof.
  induction c as [|c IH]; intros i j Hj Hne; [lia|].
  simpl. destruct (Z.eqb_spec (payload p i) (Z.of_nat i mod 256)) as [He|He];
    [|reflexivity].
  apply (IH (S i) j); [|exact Hne].
  destruct (Nat.eq_dec i j) as [->|]; [contradiction | lia].
Qed.

Lemma validate_well_formed (size : Z) (p : list Z) :
  well_formed size p -> validate_packet p = true.
Proof.
  intros (Hsz & _ & Hps & Hpat). unfold validate_packet. rewrite Hps.
  destruct (Z.ltb_spec size sizeof_packet_t); [lia|].
  apply validate_loop_true. intros j Hj. apply Hpat. lia.
Qed.

Lemma validate_below_header (p : list Z) :
  packet_size p < sizeof_packet_t -> validate_packet p = false.
Proof.
  intros H. unfold validate_packet.
  destruct (Z.ltb_spec (packet_size p) sizeof_packet_t); [reflexivity|lia].
Qed.

(** A change of one payload byte is seen by [validate_packet]. *)
Lemma validate_flipped (size : Z) (p : list Z) (j : nat) (b : Z) :
  well_formed size p ->
  (j < Z.to_nat (size - sizeof_packet_t))%nat ->
  b <> payload p j ->
  validate_packet (set_payload p j b) = false.
Proof.
  intros (Hsz & Hlen & Hps & Hpat) Hj Hb.
  unfold sizeof_packet_t in *.
  assert (Hoff : (OFF_payload + j + 1 <= length p)%nat)
    by (rewrite Hlen; unfold OFF_payload; lia).
  assert (Hps' : packet_size (set_payload p j b) = size).
  { unfold packet_size, set_payload. rewrite load_write_other.
    - exact Hps.
    - lia.
    - left. unfold OFF_packet_size, OFF_payload. lia. }
  unfold validate_packet. rewrite Hps'.
  destruct (Z.ltb_spec size sizeof_packet_t) as [Hlt|_];
    [unfold sizeof_packet_t in Hlt; lia|].
  apply (validate_loop_false _ _ 0%nat j).
  - unfold sizeof_packet_t. lia.
  - unfold payload at 1, set_payload. rewrite nth_write by lia.
    cbn [length].
    destruct (Nat.leb_spec (OFF_payload + j) (OFF_payload + j)); [|lia].
    destruct (Nat.ltb_spec (OFF_payload + j) (OFF_payload + j + 1)); [|lia].
    cbn [andb]. rewrite Nat.sub_diag. cbn [nth].
    rewrite <- (Hpat j Hj). exact Hb.
Qed.

(** [create_packet] on a size that is not negative. *)
Lemma create_packet_nonneg (size : Z) :
  0 <= size <= INT_MAX ->
  exists p, create_packet size = Some p /\
            well_formed (Z.max size sizeof_packet_t) p.
Proof.
  intros Hsize. unfold INT_MAX in Hsize.
  set (size' := Z.max size sizeof_packet_t).
  assert (Hs' : sizeof_packet_t <= size' <= 2 ^ 31 - 1)
    by (unfold size', sizeof_packet_t; lia).
  unfold create_packet, to_size_t.
  rewrite (to_u64_small size) by lia.
  replace (if size <? sizeof_packet_t then sizeof_packet_t else size)
    with size'
    by (unfold size'; destruct (Z.ltb_spec size sizeof_packet_t); lia).
  rewrite (to_u64_small size') by lia.
  rewrite (to_u32_small size') by lia.
  unfold calloc_bytes, PTRDIFF_MAX.
  destruct (Z.ltb_spec (2 ^ 63 - 1) size') as [Hbig|_]; [lia|].
  eexists; split; [reflexivity|].
  unfold well_formed, sizeof_packet_t in *.
  set (p0 := set_packet_size (repeat 0 (Z.to_nat size')) size').
  assert (Hl0 : length p0 = Z.to_nat size').
  { unfold p0, set_packet_size, store. rewrite length_write.
    - apply repeat_length.
    - rewrite length_le_encode, repeat_length. unfold OFF_packet_size. lia. }
  assert (Hfit : (OFF_payload + 0 + Z.to_nat (size' - 48) <= length p0)%nat)
    by (rewrite Hl0; unfold OFF_payload; lia).
  repeat split.
  - lia.
  - rewrite length_fill_payload by exact Hfit. exact Hl0.
  - unfold packet_size.
    rewrite (load_ext 4 _ p0).
    + unfold p0, set_packet_size. rewrite load_store_same.
      * apply Z.mod_small. change (256 ^ Z.of_nat 4) with (2 ^ 32). lia.
      * rewrite repeat_length. unfold OFF_packet_size. lia.
    + intros k Hk. rewrite nth_fill_payload by exact Hfit.
      unfold OFF_packet_size, OFF_payload in *.
      destruct (Nat.leb_spec (44 + 0) k); [lia | reflexivity].
  - intros j Hj. unfold payload.
    rewrite nth_fill_payload by exact Hfit.
    unfold OFF_payload in *.
    destruct (Nat.leb_spec (44 + 0) (44 + j)); [|lia].
    destruct (Nat.ltb_spec (44 + j) (44 + 0 + Z.to_nat (size' - 48))); [|lia].
    cbn [andb]. do 2 f_equal. lia.
Qed.

(** A negative size is not raised to the header size: converted to
    [size_t] it is a huge request, and the allocation fails. *)
Lemma create_packet_negative (size : Z) :
  - 2 ^ 31 <= size < 0 -> create_packet size = None.
Proof.
  intros Hsize. unfold create_packet, to_size_t, to_u64.
  assert (Hm : size mod 2 ^ 64 = size + 2 ^ 64).
  { symmetry. apply (Z.mod_unique_pos size (2 ^ 64) (-1)); lia. }
  rewrite Hm.
  destruct (Z.ltb_spec (size + 2 ^ 64) sizeof_packet_t) as [Hlt|_];
    [unfold sizeof_packet_t in Hlt; lia|].
  rewrite Hm. unfold calloc_bytes, PTRDIFF_MAX.
  destruct (Z.ltb_spec (2 ^ 63 - 1) (size + 2 ^ 64)); [reflexivity | lia].
Qed.

End CodecFacts.

(* ================================================================== *)
(** * Clock synchronisation *)

Section SyncFacts.
Import C Packet Sync.

Lemma length_array_set {A : Type} (a : list A) (i : nat) (v : A) :
  (i < length a)%nat -> length (array_set a i v) = length a.
Proof.
  intros H. unfold array_set.
  rewrite length_app, length_firstn. cbn [length]. rewrite length_skipn. lia.
Qed.

Lemma nth_array_set {A : Type} (a : list A) (i j : nat) (v d : A) :
  (i < length a)%nat ->
  nth j (array_set a i v) d = if (j =? i)%nat then v else nth j a d.
Proof.
  intros H. unfold array_set.
  assert (Hf : length (firstn i a) = i) by (rewrite length_firstn; lia).
  destruct (Nat.eqb_spec j i) as [->|Hne].
  - rewrite <- Hf at 1. apply nth_middle.
  - destruct (Nat.lt_ge_cases j i) as [Hlt|Hge].
    + rewrite app_nth1 by lia. rewrite nth_firstn.
      destruct (Nat.ltb_spec j i); [reflexivity | lia].
    + rewrite app_nth2 by lia. rewrite Hf.
      destruct (j - i)%nat as [|k] eqn:Hk; [lia|].
      cbn [nth]. rewrite nth_skipn. f_equal. lia.
Qed.

(** A skipped round leaves the locals as they were: the rounds after
    it run from the state the rounds before it left. *)
Lemma sync_round_failed (i : nat) (e : round_env) (st : sync_state) :
  round_failed e = true -> sync_round i e st = st.
Proof.
  unfold round_failed, sync_round. destruct (r_io e); auto; discriminate.
Qed.

Lemma sync_inv_init (env : nat -> round_env) : sync_inv env 0 sync_init.
Proof.
  unfold sync_inv, sync_init; cbn [offsets min_rtt best_round].
  repeat split.
  - intros j. destruct (Nat.ltb_spec j 0); [lia|].
    unfold SYNC_ROUNDS. do 10 (destruct j as [|j]; [reflexivity|]).
    destruct j; reflexivity.
  - intros j r o Hj. lia.
  - left. split; reflexivity.
Qed.

Lemma round_rtt_le_max (t1 t2 t3 t4 : Z) :
  round_rtt t1 t2 t3 t4 <= INT64_MAX.
Proof.
  unfold round_rtt, to_i64, INT64_MAX.
  set (x := sub64 (sub64 t4 t1) (sub64 t3 t2)).
  assert (0 <= x mod 2 ^ 64 < 2 ^ 64) by (apply Z.mod_pos_bound; lia).
  destruct (Z.ltb_spec (x mod 2 ^ 64) (2 ^ 63)); lia.
Qed.

Lemma sync_inv_skip (env : nat -> round_env) (i : nat) (st : sync_state) :
  round_values (env i) = None ->
  sync_inv env i st -> sync_inv env (S i) st.
Proof.
  intros Hv (Hlen & Hcells & Hmin & Hbest).
  unfold sync_inv. split; [exact Hlen | split; [| split]].
  - intros j. rewrite Hcells.
    destruct (Nat.ltb_spec j i); destruct (Nat.ltb_spec j (S i));
      try lia; try reflexivity.
    replace j with i by lia. rewrite Hv. reflexivity.
  - intros j r o Hj Hr. destruct (Nat.eq_dec j i) as [->|Hne];
      [congruence | apply (Hmin j r o); [lia | exact Hr]].
  - destruct Hbest as [Hb | (Hb1 & Hb2 & Hb3)]; [left; exact Hb|].
    right. split; [lia | split; [exact Hb2 | exact Hb3]].
Qed.

Lemma sync_inv_step (env : nat -> round_env) (i : nat) (st : sync_state) :
  (i < SYNC_ROUNDS)%nat ->
  sync_inv env i st -> sync_inv env (S i) (sync_round i (env i) st).
Proof.
  intros Hi Hinv. unfold sync_round.
  destruct (r_io (env i)) as [| |t2 t3 t4] eqn:Hio.
  1, 2: apply sync_inv_skip;
    [unfold round_values; rewrite Hio; reflexivity | exact Hinv].
  destruct Hinv as (Hlen & Hcells & Hmin & Hbest).
  set (rtt := round_rtt (r_t1 (env i)) t2 t3 t4).
  set (off := round_offset (r_t1 (env i)) t2 t3 t4).
  assert (Hv : round_values (env i) = Some (rtt, off))
    by (unfold round_values; rewrite Hio; reflexivity).
  assert (Hcells' : forall j,
             nth j (array_set (offsets st) i (Some off)) None =
             if (j <? S i)%nat
             then option_map snd (round_values (env j)) else None).
  { intros j. rewrite nth_array_set by (rewrite Hlen; exact Hi).
    destruct (Nat.eqb_spec j i) as [->|Hne].
    - destruct (Nat.ltb_spec i (S i)); [|lia]. rewrite Hv. reflexivity.
    - rewrite Hcells.
      destruct (Nat.ltb_spec j i); destruct (Nat.ltb_spec j (S i));
        try lia; reflexivity. }
  assert (Hlen' : length (array_set (offsets st) i (Some off))
                  = SYNC_ROUNDS)
    by (rewrite length_array_set; [exact Hlen | rewrite Hlen; exact Hi]).
  destruct (Z.ltb_spec rtt (min_rtt st)) as [Hlt|Hge];
    unfold sync_inv; cbn [offsets min_rtt best_round];
    (split; [exact Hlen' | split; [exact Hcells' | split]]).
  - (* a new minimum *)
    intros j r o Hj Hr. destruct (Nat.eq_dec j i) as [->|Hne].
    + rewrite Hv in Hr. injection Hr as <- _. lia.
    + specialize (Hmin j r o ltac:(lia) Hr). lia.
  - right. split; [lia | split; [exists off; exact Hv|]].
    intros j r o Hj Hr. specialize (Hmin j r o Hj Hr). lia.
  - (* the minimum stands *)
    intros j r o Hj Hr. destruct (Nat.eq_dec j i) as [->|Hne].
    + rewrite Hv in Hr. injection Hr as <- _. exact Hge.
    + apply (Hmin j r o); [lia | exact Hr].
  - destruct Hbest as [Hb | (Hb1 & Hb2 & Hb3)]; [left; exact Hb|].
    right. split; [lia | split; [exact Hb2 | exact Hb3]].
Qed.

Lemma sync_inv_loop (env : nat -> round_env) (c : nat) :
  forall i st, (i + c <= SYNC_ROUNDS)%nat ->
  sync_inv env i st -> sync_inv env (i + c) (sync_loop c i env st).
Proof.
  induction c as [|c IH]; intros i st Hic Hinv; cbn [sync_loop].
  - rewrite Nat.add_0_r. exact Hinv.
  - replace (i + S c)%nat with (S i + c)%nat by lia.
    apply IH; [lia|]. apply sync_inv_step; [lia | exact Hinv].
Qed.

(** The value returned on the client side is the [offset] cell of the
    round the loop ends on. *)
Lemma synchronize_clocks_best (env : nat -> round_env) :
  let st := sync_loop SYNC_ROUNDS 0 env sync_init in
  sync_inv env SYNC_ROUNDS st /\
  (best_round st < SYNC_ROUNDS)%nat /\
  synchronize_clocks true env =
  option_map snd (round_values (env (best_round st))).
Proof.
  intros st.
  assert (Hinv : sync_inv env SYNC_ROUNDS st)
    by (apply (sync_inv_loop env SYNC_ROUNDS 0 sync_init);
        [lia | apply sync_inv_init]).
  assert (Hb : (best_round st < SYNC_ROUNDS)%nat).
  { destruct Hinv as (_ & _ & _ & [[_ Hb] | (Hb & _)]);
      [rewrite Hb; unfold SYNC_ROUNDS; lia | exact Hb]. }
  split; [exact Hinv | split; [exact Hb|]].
  unfold synchronize_clocks. cbn [negb]. fold st.
  destruct Hinv as (_ & Hcells & _). rewrite Hcells.
  destruct (Nat.ltb_spec (best_round st) SYNC_ROUNDS); [reflexivity | lia].
Qed.

(** The offset of a round of the noiseless simulation is [2 * o]
    reduced to 64 bits, halved as an unsigned number. *)
Lemma round_offset_ideal (t1 d o : Z) :
  round_offset t1 (t1 + d + o) (t1 + d + o) (t1 + 2 * d) =
  to_i64 ((2 * o) mod 2 ^ 64 / 2).
Proof.
  unfold round_offset, div64, add64, sub64, to_u64.
  rewrite <- Z.add_mod by lia. rewrite Z.mod_mod by lia.
  replace (t1 + d + o - t1 + (t1 + d + o - (t1 + 2 * d))) with (2 * o)
    by ring.
  rewrite (Z.mod_small 2) by lia. reflexivity.
Qed.

Lemma round_offset_ideal_nonneg (t1 d o : Z) :
  0 <= o < 2 ^ 63 ->
  round_offset t1 (t1 + d + o) (t1 + d + o) (t1 + 2 * d) = o.
Proof.
  intros Ho. rewrite round_offset_ideal.
  rewrite (Z.mod_small (2 * o)) by lia.
  rewrite Z.mul_comm, Z.div_mul by lia.
  unfold to_i64. rewrite (Z.mod_small o) by lia.
  destruct (Z.ltb_spec o (2 ^ 63)); lia.
Qed.

Lemma round_offset_ideal_negative (t1 d o : Z) :
  - 2 ^ 63 <= o < 0 ->
  round_offset t1 (t1 + d + o) (t1 + d + o) (t1 + 2 * d) = o + 2 ^ 63.
Proof.
  intros Ho. rewrite round_offset_ideal.
  assert (Hm : (2 * o) mod 2 ^ 64 = 2 * (o + 2 ^ 63)).
  { symmetry. apply (Z.mod_unique_pos (2 * o) (2 ^ 64) (-1)); lia. }
  rewrite Hm, Z.mul_comm, Z.div_mul by lia.
  unfold to_i64. rewrite (Z.mod_small (o + 2 ^ 63)) by lia.
  destruct (Z.ltb_spec (o + 2 ^ 63) (2 ^ 63)); lia.
Qed.

Lemma round_rtt_ideal (t1 d o : Z) :
  0 <= 2 * d < 2 ^ 63 ->
  round_rtt t1 (t1 + d + o) (t1 + d + o) (t1 + 2 * d) = 2 * d.
Proof.
  intros Hd. unfold round_rtt, sub64, to_u64.
  rewrite <- Zminus_mod. 
  replace (t1 + 2 * d - t1 - (t1 + d + o - (t1 + d + o))) with (2 * d)
    by ring.
  unfold to_i64. rewrite Z.mod_mod by lia.
  rewrite (Z.mod_small (2 * d)) by lia.
  destruct (Z.ltb_spec (2 * d) (2 ^ 63)); lia.
Qed.

End SyncFacts.

Section SyncTheorems.
Import C Packet Sync.

Lemma ideal_round_values (d : nat -> Z) (o : Z) (start : nat -> Z) (i : nat) :
  round_values (ideal_env d o start i) =
  Some (round_rtt (start i) (start i + d i + o) (start i + d i + o)
                  (start i + 2 * d i),
        round_offset (start i) (start i + d i + o) (start i + d i + o)
                     (start i + 2 * d i)).
Proof. reflexivity. Qed.

(** In the noiseless simulation with an offset that is not negative,
    the estimate is the offset, whatever the delays of the rounds. *)
Theorem sync_nonnegative_offset (d start : nat -> Z) (o : Z) :
  0 <= o < 2 ^ 63 ->
  synchronize_clocks true (ideal_env d o start) = Some o.
Proof.
  intros Ho.
  destruct (synchronize_clocks_best (ideal_env d o start)) as (_ & _ & ->).
  rewrite ideal_round_values. cbn [option_map snd].
  rewrite round_offset_ideal_nonneg by exact Ho. reflexivity.
Qed.

Lemma sync_nonnegative_offset_example :
  synchronize_clocks true
    (ideal_env (fun _ => 100) 50 (fun i => 1000000 + 50000 * Z.of_nat i))
  = Some 50.
Proof. exact (sync_nonnegative_offset _ _ 50 ltac:(lia)). Defined.

(** C1 (what the code does where the claim fails): in the noiseless
    simulation with a negative clock offset [o], every round halves
    [2 * o] as an unsigned 64-bit number, and [synchronize_clocks]
    returns [o + 2^63] instead of [o]. *)
Theorem sync_negative_offset (d start : nat -> Z) (o : Z) :
  - 2 ^ 63 <= o < 0 ->
  synchronize_clocks true (ideal_env d o start) = Some (o + 2 ^ 63).
Proof.
  intros Ho.
  destruct (synchronize_clocks_best (ideal_env d o start)) as (_ & _ & ->).
  rewrite ideal_round_values. cbn [option_map snd].
  rewrite round_offset_ideal_negative by exact Ho. reflexivity.
Qed.

Lemma sync_negative_offset_witness :
  synchronize_clocks true
    (ideal_env (fun _ => 100) (-50) (fun i => 1000000 + 50000 * Z.of_nat i))
  = Some 9223372036854775758.
Proof. exact (sync_negative_offset _ _ (-50) ltac:(lia)). Defined.

(** When every round succeeds, the returned offset is that of the first
    round whose [rtt] is the smallest. *)
Theorem sync_selects_min_rtt (env : nat -> round_env) :
  (forall i, (i < SYNC_ROUNDS)%nat -> round_failed (env i) = false) ->
  exists b r o,
    (b < SYNC_ROUNDS)%nat /\
    round_values (env b) = Some (r, o) /\
    synchronize_clocks true env = Some o /\
    (forall j r' o', (j < SYNC_ROUNDS)%nat ->
                     round_values (env j) = Some (r', o') -> r <= r') /\
    (forall j r' o', (j < b)%nat ->
                     round_values (env j) = Some (r', o') -> r < r').
Proof.
  intros Hok.
  destruct (synchronize_clocks_best env) as (Hinv & Hb & Hres).
  set (st := sync_loop SYNC_ROUNDS 0 env sync_init) in *.
  destruct Hinv as (_ & _ & Hmin & Hbest).
  assert (Hval : forall i, (i < SYNC_ROUNDS)%nat ->
                 exists r o, round_values (env i) = Some (r, o) /\
                             r <= INT64_MAX).
  { intros i Hi. specialize (Hok i Hi).
    unfold round_failed in Hok. unfold round_values.
    destruct (r_io (env i)); try discriminate.
    eexists; eexists; split; [reflexivity | apply round_rtt_le_max]. }
  destruct Hbest as [[Hm H0] | (_ & [o Hbo] & Hfirst)].
  - destruct (Hval 0%nat ltac:(unfold SYNC_ROUNDS; lia)) as (r & o & Hv & Hr).
    exists 0%nat, r, o. rewrite H0 in Hres. rewrite Hv in Hres.
    repeat split; [unfold SYNC_ROUNDS; lia | exact Hv | exact Hres | | ].
    + intros j r' o' Hj Hv'. specialize (Hmin j r' o' Hj Hv').
      rewrite Hm in Hmin. lia.
    + intros j r' o' Hj. lia.
  - exists (best_round st), (min_rtt st), o. rewrite Hbo in Hres.
    repeat split; [exact Hb | exact Hbo | exact Hres | exact Hmin
                   | exact Hfirst].
Qed.

Lemma sync_selects_min_rtt_example :
  exists b r o,
    (b < SYNC_ROUNDS)%nat /\
    round_values (ideal_env (fun i => 100 - Z.of_nat i) 7 (fun _ => 5) b)
    = Some (r, o) /\
    synchronize_clocks true
      (ideal_env (fun i => 100 - Z.of_nat i) 7 (fun _ => 5)) = Some o /\
    (forall j r' o', (j < SYNC_ROUNDS)%nat ->
       round_values (ideal_env (fun i => 100 - Z.of_nat i) 7 (fun _ => 5) j)
       = Some (r', o') -> r <= r') /\
    (forall j r' o', (j < b)%nat ->
       round_values (ideal_env (fun i => 100 - Z.of_nat i) 7 (fun _ => 5) j)
       = Some (r', o') -> r < r').
Proof.
  apply (sync_selects_min_rtt
           (ideal_env (fun i => 100 - Z.of_nat i) 7 (fun _ => 5))).
  intros i Hi. reflexivity.
Defined.

Lemma sync_loop_all_failed (env : nat -> round_env) (c : nat) :
  forall i st,
  (forall j, (i <= j < i + c)%nat -> round_failed (env j) = true) ->
  sync_loop c i env st = st.
Proof.
  induction c as [|c IH]; intros i st H; cbn [sync_loop]; [reflexivity|].
  rewrite sync_round_failed by (apply H; lia).
  apply IH. intros j Hj. apply H. lia.
Qed.

(** C3 (what the code does where the claim fails): when every round
    fails, each one is skipped, the loop runs to its end with the locals
    untouched, and the function returns [offsets[0]], a cell no round
    has written: an indeterminate value, not 0. *)
Theorem sync_all_rounds_failed (env : nat -> round_env) :
  (forall i, (i < SYNC_ROUNDS)%nat -> round_failed (env i) = true) ->
  sync_loop SYNC_ROUNDS 0 env sync_init = sync_init /\
  synchronize_clocks true env = None /\
  synchronize_clocks true env <> Some 0.
Proof.
  intros Hfail.
  assert (Hst : sync_loop SYNC_ROUNDS 0 env sync_init = sync_init)
    by (apply sync_loop_all_failed; intros j Hj; apply Hfail; lia).
  assert (Hres : synchronize_clocks true env = None)
    by (unfold synchronize_clocks; cbn [negb]; rewrite Hst; reflexivity).
  split; [exact Hst | split; [exact Hres|]].
  rewrite Hres. discriminate.
Qed.

Lemma sync_all_rounds_failed_witness :
  synchronize_clocks true (fun _ => {| r_t1 := 0; r_io := RecvFailed |})
  = None.
Proof.
  apply (sync_all_rounds_failed
           (fun _ => {| r_t1 := 0; r_io := RecvFailed |})).
  intros i Hi. reflexivity.
Defined.

(** The server side never estimates anything. *)
Lemma synchronize_clocks_server (env : nat -> round_env) :
  synchronize_clocks false env = Some 0.
Proof. reflexivity. Qed.

End SyncTheorems.

(* ================================================================== *)
(** * Header fields *)

Section HeaderFacts.
Import C Packet.

Lemma length_store (n : nat) (m : list Z) (off : nat) (v : Z) :
  (off + n <= length m)%nat -> length (store n m off v) = length m.
Proof.
  intros H. unfold store. apply length_write. rewrite length_le_encode. lia.
Qed.

Lemma nth_store_other (n : nat) (m : list Z) (off : nat) (v : Z) (k : nat) :
  (off <= length m)%nat -> (k < off \/ off + n <= k)%nat ->
  nth k (store n m off v) 0 = nth k m 0.
Proof.
  intros Hoff Hk. unfold store. apply nth_write_other; [exact Hoff|].
  rewrite length_le_encode. exact Hk.
Qed.

Lemma load_store_other (n : nat) (m : list Z) (off : nat) (v : Z)
      (n' off' : nat) :
  (off <= length m)%nat ->
  (off' + n' <= off \/ off + n <= off')%nat ->
  load n' (store n m off v) off' = load n' m off'.
Proof.
  intros Hoff Hd. unfold store. apply load_write_other; [exact Hoff|].
  rewrite length_le_encode. exact Hd.
Qed.

(** [stamp] sets the two server fields and nothing else. *)
Lemma stamp_spec (p : list Z) (now1 now2 : Z) :
  (32 <= length p)%nat ->
  length (Server.stamp p now1 now2) = length p /\
  (forall k, (k < 16 \/ 32 <= k)%nat ->
             nth k (Server.stamp p now1 now2) 0 = nth k p 0) /\
  server_recv (Server.stamp p now1 now2) = to_u64 now1 /\
  server_send (Server.stamp p now1 now2) = to_u64 now2.
Proof.
  intros Hlen. unfold Server.stamp, set_server_send, set_server_recv,
    server_recv, server_send, OFF_server_recv, OFF_server_send.
  assert (H1 : length (store 8 p 16 now1) = length p)
    by (apply length_store; lia).
  repeat split.
  - rewrite length_store by lia. exact H1.
  - intros k Hk. rewrite nth_store_other by lia.
    apply nth_store_other; lia.
  - rewrite load_store_other by lia. apply load_store_same. lia.
  - apply load_store_same. lia.
Qed.

(** [prepare] sets the sequence number and the send stamp, clears the
    server stamps, and leaves the rest of the buffer alone. *)
Lemma prepare_spec (p : list Z) (i : nat) (now : Z) :
  (32 <= length p)%nat ->
  length (Client.prepare p i now) = length p /\
  (forall k, (32 <= k)%nat -> nth k (Client.prepare p i now) 0 = nth k p 0) /\
  seq_num (Client.prepare p i now) = to_u64 (Z.of_nat i + 1) /\
  client_send (Client.prepare p i now) = to_u64 now.
Proof.
  intros Hlen. unfold Client.prepare, set_server_send, set_server_recv,
    set_client_send, set_seq_num, seq_num, client_send,
    OFF_server_recv, OFF_server_send, OFF_client_send, OFF_seq_num.
  set (v := Z.of_nat i + 1).
  assert (H1 : length (store 8 p 0 v) = length p)
    by (apply length_store; lia).
  assert (H2 : length (store 8 (store 8 p 0 v) 8 now) = length p)
    by (rewrite length_store; lia).
  assert (H3 : length (store 8 (store 8 (store 8 p 0 v) 8 now) 16 0)
               = length p)
    by (rewrite length_store; lia).
  repeat split.
  - rewrite length_store; lia.
  - intros k Hk. rewrite !nth_store_other by lia. reflexivity.
  - rewrite !load_store_other by lia. apply load_store_same. lia.
  - rewrite !load_store_other by lia. apply load_store_same. lia.
Qed.

Lemma set_client_recv_spec (p : list Z) (now : Z) :
  (40 <= length p)%nat ->
  length (set_client_recv p now) = length p /\
  (forall k, (k < 32 \/ 40 <= k)%nat ->
             nth k (set_client_recv p now) 0 = nth k p 0) /\
  client_recv (set_client_recv p now) = to_u64 now.
Proof.
  intros Hlen. unfold set_client_recv, client_recv, OFF_client_recv.
  repeat split.
  - apply length_store. lia.
  - intros k Hk. apply nth_store_other; lia.
  - apply load_store_same. lia.
Qed.

(** A buffer keeps being well formed when bytes of its first 40 are
    rewritten. *)
Lemma well_formed_header_change (size : Z) (p p' : list Z) :
  well_formed size p ->
  length p' = length p ->
  (forall k, (40 <= k)%nat -> nth k p' 0 = nth k p 0) ->
  well_formed size p'.
Proof.
  intros (Hsz & Hlen & Hps & Hpat) Hl Hsame. unfold well_formed.
  repeat split.
  - exact Hsz.
  - rewrite Hl. exact Hlen.
  - rewrite <- Hps. unfold packet_size. apply load_ext.
    intros k Hk. apply Hsame. unfold OFF_packet_size in Hk. lia.
  - intros j Hj. rewrite <- (Hpat j Hj). unfold payload.
    apply Hsame. unfold OFF_payload. lia.
Qed.

Lemma sync_seq_num_value (i : Z) :
  0 <= i < 2 ^ 32 -> Sync.sync_seq_num i = 2 ^ 32 - 1 - i.
Proof.
  intros Hi. unfold Sync.sync_seq_num, sub32.
  change 0xFFFFFFFF with (2 ^ 32 - 1).
  rewrite to_u32_small by lia. apply to_u64_small. lia.
Qed.

Lemma seq_num_sync_packet (i : nat) (t1 : Z) :
  seq_num (Sync.sync_packet i t1) = to_u64 (Sync.sync_seq_num (Z.of_nat i)).
Proof.
  unfold Sync.sync_packet, set_client_send, set_packet_size, set_seq_num,
    seq_num, sizeof_packet_t, OFF_client_send, OFF_packet_size, OFF_seq_num.
  set (v := Sync.sync_seq_num (Z.of_nat i)).
  assert (H0 : length (repeat 0 (Z.to_nat 48)) = 48%nat)
    by (rewrite repeat_length; reflexivity).
  assert (H1 : length (store 8 (repeat 0 (Z.to_nat 48)) 0 v) = 48%nat)
    by (rewrite length_store; lia).
  assert (H2 : length (store 4 (store 8 (repeat 0 (Z.to_nat 48)) 0 v) 40 48)
               = 48%nat)
    by (rewrite length_store; lia).
  rewrite !load_store_other by lia. apply load_store_same. lia.
Qed.

Lemma is_sync_seq_threshold (s : Z) :
  Server.is_sync_seq s = true <-> 2 ^ 32 - 21 <= s.
Proof.
  unfold Server.is_sync_seq.
  change (sub32 0xFFFFFFFF 20) with (2 ^ 32 - 21).
  apply Z.leb_le.
Qed.

End HeaderFacts.


(* ================================================================== *)
(** * The datagram server *)

Section UdpServerFacts.
Import C Packet Net Server.

Lemma write_whole (m d : list Z) :
  length d = length m -> write m 0 d = d.
Proof.
  intros H. unfold write. cbn [firstn app Nat.add].
  rewrite skipn_all2 by lia. apply app_nil_r.
Qed.

Lemma nth_write_prefix (m d : list Z) (k : nat) :
  (k < length d)%nat -> nth k (write m 0 d) 0 = nth k d 0.
Proof.
  intros H. rewrite nth_write by lia.
  destruct (Nat.leb_spec 0 k); [|lia].
  destruct (Nat.ltb_spec k (0 + length d)); [|lia].
  cbn [andb]. f_equal. lia.
Qed.

Lemma length_write_prefix (m d : list Z) :
  (length d <= length m)%nat -> length (write m 0 d) = length m.
Proof. intros H. apply length_write. lia. Qed.

Lemma nth_stamp (p : list Z) (now1 now2 : Z) (k : nat) :
  (32 <= length p)%nat ->
  nth k (stamp p now1 now2) 0 =
  if ((24 <=? k) && (k <? 32))%nat then nth (k - 24) (le_encode 8 now2) 0
  else if ((16 <=? k) && (k <? 24))%nat then nth (k - 16) (le_encode 8 now1) 0
  else nth k p 0.
Proof.
  intros Hlen.
  unfold stamp, set_server_send, set_server_recv, store,
    OFF_server_send, OFF_server_recv.
  assert (Hw : length (write p 16 (le_encode 8 now1)) = length p)
    by (rewrite length_write; rewrite ?length_le_encode; lia).
  rewrite !nth_write by lia. rewrite !length_le_encode.
  nat_cases.
Qed.

Lemma udp_server_step_datagram (buf dgram : list Z) (now1 now2 : Z) :
  dgram <> [] ->
  udp_server_step buf (Datagram dgram) now1 now2 =
  let buf' :=
    stamp (write buf 0 (firstn (Z.to_nat MAX_PACKET_SIZE) dgram))
          now1 now2 in
  (buf', UdpEcho (packet_size buf')
                 (firstn (Z.to_nat (packet_size buf')) buf')).
Proof.
  intros Hne. unfold udp_server_step, recvfrom.
  assert (Hpos : (0 < length dgram)%nat)
    by (destruct dgram; [contradiction | cbn [length]; lia]).
  destruct (Z.leb_spec (Z.of_nat (Nat.min (length dgram)
                                    (Z.to_nat MAX_PACKET_SIZE))) 0) as [H0|H0];
    [unfold MAX_PACKET_SIZE in H0; lia | reflexivity].
Qed.

(** C10 (amended): every datagram of at least one byte is stamped
    ([server_recv] from the first reading of the clock, [server_send]
    from the second) and handed to [sendto] with the length found in the
    [packet_size] field of the buffer, which for a datagram that carries
    the whole header is the size the datagram declares, whatever the
    number of bytes received.  Nothing else is looked at: the bytes
    outside the two stamps go back as they came, valid or not, tagged as
    synchronisation or not. *)
Theorem udp_server_echoes_declared_size (buf dgram : list Z)
        (now1 now2 : Z) :
  length buf = Z.to_nat MAX_PACKET_SIZE ->
  dgram <> [] ->
  exists buf',
    udp_server_step buf (Datagram dgram) now1 now2 =
    (buf', UdpEcho (packet_size buf')
                   (firstn (Z.to_nat (packet_size buf')) buf')) /\
    server_recv buf' = to_u64 now1 /\
    server_send buf' = to_u64 now2 /\
    (forall k, (k < length dgram)%nat ->
               (k < Z.to_nat MAX_PACKET_SIZE)%nat ->
               (k < 16 \/ 32 <= k)%nat -> nth k buf' 0 = nth k dgram 0) /\
    ((44 <= length dgram)%nat -> packet_size buf' = packet_size dgram).
Proof.
  intros Hbuf Hne.
  set (M := Z.to_nat MAX_PACKET_SIZE) in *.
  assert (HM : (64 <= M)%nat) by (unfold M, MAX_PACKET_SIZE; lia).
  set (d := firstn M dgram).
  assert (Hd : length d = Nat.min M (length dgram))
    by (unfold d; apply length_firstn).
  assert (Hpos : (0 < length dgram)%nat)
    by (destruct dgram; [contradiction | cbn [length]; lia]).
  set (b1 := write buf 0 d).
  assert (Hb1 : length b1 = M)
    by (unfold b1; rewrite length_write_prefix; lia).
  destruct (stamp_spec b1 now1 now2 ltac:(lia)) as (Hl & Hsame & Hr & Hs).
  assert (Hbytes : forall k, (k < length dgram)%nat -> (k < M)%nat ->
                             nth k b1 0 = nth k dgram 0).
  { intros k Hk Hk'. unfold b1. rewrite nth_write_prefix by lia.
    unfold d. rewrite nth_firstn.
    destruct (Nat.ltb_spec k M); [reflexivity | lia]. }
  exists (stamp b1 now1 now2).
  split; [|split; [exact Hr | split; [exact Hs | split]]].
  - rewrite udp_server_step_datagram by exact Hne. reflexivity.
  - intros k Hk Hk' Hout. rewrite Hsame by exact Hout.
    apply Hbytes; assumption.
  - intros Hhdr. unfold packet_size, OFF_packet_size.
    apply load_ext. intros k Hk. rewrite Hsame by lia.
    apply Hbytes; lia.
Qed.

Lemma udp_server_echoes_declared_size_witness :
  exists buf',
    udp_server_step (repeat 0 (Z.to_nat MAX_PACKET_SIZE))
                    (Datagram (repeat 7 50%nat)) 11 12 =
    (buf', UdpEcho (packet_size buf')
                   (firstn (Z.to_nat (packet_size buf')) buf')) /\
    server_recv buf' = to_u64 11 /\
    server_send buf' = to_u64 12 /\
    (forall k, (k < length (repeat 7 50%nat))%nat ->
               (k < Z.to_nat MAX_PACKET_SIZE)%nat ->
               (k < 16 \/ 32 <= k)%nat ->
               nth k buf' 0 = nth k (repeat 7 50%nat) 0) /\
    ((44 <= length (repeat 7 50%nat))%nat ->
     packet_size buf' = packet_size (repeat 7 50%nat)).
Proof.
  apply (udp_server_echoes_declared_size
           (repeat 0 (Z.to_nat MAX_PACKET_SIZE)) (repeat 7 50%nat) 11 12).
  - apply repeat_length.
  - discriminate.
Defined.

Lemma server_buffer_well_formed :
  well_formed MAX_PACKET_SIZE Scenario.server_buffer.
Proof.
  destruct (create_packet_nonneg MAX_PACKET_SIZE) as (p & Hc & Hwf);
    [unfold MAX_PACKET_SIZE, INT_MAX; lia|].
  unfold Scenario.server_buffer. rewrite Hc.
  replace (Z.max MAX_PACKET_SIZE sizeof_packet_t) with MAX_PACKET_SIZE in Hwf
    by (unfold MAX_PACKET_SIZE, sizeof_packet_t; lia).
  exact Hwf.
Qed.

(** A datagram too short to reach the size field is answered with the
    size the buffer held before. *)
Lemma udp_server_short_datagram (buf dgram : list Z) (now1 now2 : Z) :
  length buf = Z.to_nat MAX_PACKET_SIZE ->
  (0 < length dgram <= 40)%nat ->
  exists out,
    snd (udp_server_step buf (Datagram dgram) now1 now2)
    = UdpEcho (packet_size buf) out.
Proof.
  intros Hbuf Hlen.
  assert (Hne : dgram <> [])
    by (destruct dgram; [cbn [length] in Hlen; lia | discriminate]).
  rewrite udp_server_step_datagram by exact Hne. cbv zeta. cbn [snd].
  set (M := Z.to_nat MAX_PACKET_SIZE) in *.
  assert (HM : (64 <= M)%nat) by (unfold M, MAX_PACKET_SIZE; lia).
  set (b1 := write buf 0 (firstn M dgram)).
  assert (Hd : length (firstn M dgram) = length dgram)
    by (rewrite length_firstn; lia).
  assert (Hb1 : length b1 = M)
    by (unfold b1; rewrite length_write_prefix; lia).
  destruct (stamp_spec b1 now1 now2 ltac:(lia)) as (_ & Hsame & _).
  assert (Hsize : packet_size (stamp b1 now1 now2) = packet_size buf).
  { unfold packet_size, OFF_packet_size. apply load_ext. intros k Hk.
    rewrite Hsame by lia. unfold b1. apply nth_write_other; lia. }
  rewrite Hsize. eexists. reflexivity.
Qed.

(** C10 as stated fails for two kinds of datagram: an empty one is not
    echoed at all, and one of 10 bytes, which declares no size, is
    answered with the 8192 bytes the fresh buffer declares. *)
Lemma udp_server_empty_and_short_datagrams :
  snd (udp_server_step Scenario.server_buffer (Datagram []) 11 12) = UdpSkip /\
  exists out,
    snd (udp_server_step Scenario.server_buffer
                         (Datagram (repeat 7 10%nat)) 11 12)
    = UdpEcho 8192 out.
Proof.
  destruct server_buffer_well_formed as (_ & Hlen & Hps & _).
  split; [reflexivity|].
  destruct (udp_server_short_datagram Scenario.server_buffer
              (repeat 7 10%nat) 11 12 Hlen) as (out & Hout);
    [cbn [repeat length]; lia|].
  exists out. rewrite Hout, Hps. reflexivity.
Qed.

(** No datagram, or an empty one: nothing is sent, the loop goes on. *)
Lemma udp_server_skips (buf : list Z) (now1 now2 : Z) :
  snd (udp_server_step buf NoDatagram now1 now2) = UdpSkip /\
  snd (udp_server_step buf (Datagram []) now1 now2) = UdpSkip.
Proof. split; reflexivity. Qed.

(** For a datagram that is as long as it declares, the echo is the
    datagram with the two stamps set. *)
Lemma udp_server_faithful (buf dgram : list Z) (now1 now2 : Z) :
  length buf = Z.to_nat MAX_PACKET_SIZE ->
  (48 <= length dgram <= Z.to_nat MAX_PACKET_SIZE)%nat ->
  packet_size dgram = Z.of_nat (length dgram) ->
  snd (udp_server_step buf (Datagram dgram) now1 now2) =
  UdpEcho (Z.of_nat (length dgram)) (Client.faithful_echo dgram now1 now2).
Proof.
  intros Hbuf Hlen Hps.
  assert (Hne : dgram <> [])
    by (destruct dgram; [cbn [length] in Hlen; lia | discriminate]).
  rewrite udp_server_step_datagram by exact Hne. cbv zeta. cbn [snd].
  set (M := Z.to_nat MAX_PACKET_SIZE) in *.
  set (b1 := write buf 0 (firstn M dgram)).
  assert (Hb1 : length b1 = M)
    by (unfold b1; rewrite length_write_prefix;
        rewrite ?length_firstn; lia).
  assert (Hbytes : forall k, (k < length dgram)%nat ->
                             nth k b1 0 = nth k dgram 0).
  { intros k Hk. unfold b1.
    rewrite nth_write_prefix by (rewrite length_firstn; lia).
    rewrite nth_firstn. destruct (Nat.ltb_spec k M); [reflexivity | lia]. }
  destruct (stamp_spec b1 now1 now2 ltac:(lia)) as (Hl1 & Hsame & _).
  destruct (stamp_spec dgram now1 now2 ltac:(lia)) as (Hl2 & _).
  assert (Hsize : packet_size (stamp b1 now1 now2)
                  = Z.of_nat (length dgram)).
  { rewrite <- Hps. unfold packet_size, OFF_packet_size.
    apply load_ext. intros k Hk. rewrite Hsame by lia. apply Hbytes. lia. }
  rewrite Hsize, Nat2Z.id. f_equal.
  unfold Client.faithful_echo.
  apply list_eq_nth.
  - rewrite length_firstn, Hl1, Hl2. lia.
  - intros k Hk. rewrite length_firstn, Hl1 in Hk.
    rewrite nth_firstn. destruct (Nat.ltb_spec k (length dgram)); [|lia].
    rewrite !nth_stamp by lia.
    destruct ((24 <=? k) && (k <? 32))%nat; [reflexivity|].
    destruct ((16 <=? k) && (k <? 24))%nat; [reflexivity|].
    apply Hbytes. lia.
Qed.

End UdpServerFacts.

(* ================================================================== *)
(** * Framing on the stream transport *)

Section StreamFacts.
Import C Packet Net Client.

Lemma recv_segment_fits (s : list Z) (q : list arrival) (len : nat) :
  (length s <= len)%nat ->
  recv (Segment s :: q) len = (Z.of_nat (length s), s, q).
Proof.
  intros H. unfold recv.
  destruct (Nat.leb_spec (length s) len); [reflexivity | lia].
Qed.

Lemma to_i32_small (x : Z) : 0 <= x < 2 ^ 31 -> to_i32 x = x.
Proof.
  intros H. unfold to_i32. rewrite Z.mod_small by lia.
  destruct (Z.ltb_spec x (2 ^ 31)); lia.
Qed.

(** The header in one read and the whole rest in the next: the buffer
    ends up holding the packet, and nothing of it stays in the stream. *)
Lemma tcp_receive_header_then_rest (p w : list Z) (q : list arrival) :
  length p = length w ->
  (48 < length w)%nat ->
  packet_size w = Z.of_nat (length w) ->
  Z.of_nat (length w) < 2 ^ 31 ->
  tcp_client_receive p (Segment (firstn 48 w) :: Segment (skipn 48 w) :: q)
  = Received (Z.of_nat (length w)) w q.
Proof.
  intros Hlen Hbig Hps Hint.
  unfold tcp_client_receive, sizeof_packet_t.
  change (Z.to_nat 48) with 48%nat.
  assert (Hh : length (firstn 48 w) = 48%nat)
    by (rewrite length_firstn; lia).
  rewrite recv_segment_fits by lia. rewrite Hh.
  destruct (Z.leb_spec (Z.of_nat 48) 0) as [H0|_]; [lia|].
  set (p1 := write p 0 (firstn 48 w)).
  assert (Hp1 : length p1 = length w)
    by (unfold p1; rewrite length_write_prefix; lia).
  assert (Hb1 : forall k, (k < 48)%nat -> nth k p1 0 = nth k w 0).
  { intros k Hk. unfold p1. rewrite nth_write_prefix by lia.
    rewrite nth_firstn. destruct (Nat.ltb_spec k 48); [reflexivity | lia]. }
  assert (Hps1 : packet_size p1 = Z.of_nat (length w)).
  { rewrite <- Hps. unfold packet_size, OFF_packet_size.
    apply load_ext. intros k Hk. apply Hb1. lia. }
  rewrite Hps1.
  assert (Hrem : to_i32 (sub32 (Z.of_nat (length w)) (Z.of_nat 48))
                 = Z.of_nat (length w) - 48).
  { unfold sub32. rewrite to_u32_small by lia. apply to_i32_small. lia. }
  rewrite Hrem.
  destruct (Z.ltb_spec 0 (Z.of_nat (length w) - 48)) as [_|H0]; [|lia].
  assert (Hr : length (skipn 48 w) = (length w - 48)%nat)
    by apply length_skipn.
  rewrite recv_segment_fits by lia. rewrite Hr.
  replace (Z.of_nat 48 + Z.of_nat (length w - 48)) with (Z.of_nat (length w))
    by lia.
  destruct (Z.leb_spec (Z.of_nat (length w)) 0) as [H0|_]; [lia|].
  f_equal. rewrite Nat2Z.id.
  apply list_eq_nth.
  - rewrite length_write; lia.
  - intros k Hk. rewrite nth_write by lia. rewrite Hr.
    destruct (Nat.leb_spec 48 k); destruct (Nat.ltb_spec k (48 + (length w - 48)));
      cbn [andb].
    + rewrite nth_skipn. f_equal. lia.
    + rewrite length_write in Hk; lia.
    + apply Hb1. lia.
    + apply Hb1. lia.
Qed.

End StreamFacts.

(* ================================================================== *)
(** * The reserved sequence numbers *)

Section TagTheorems.
Import C Packet Net Sync Server.

(** The stream server takes what it reads for a synchronisation packet
    exactly when the sequence number of the header passes its test. *)
Lemma tcp_server_classifies (buf h : list Z) (q : list arrival)
      (now1 now2 : Z) :
  length h = 48%nat -> (48 <= length buf)%nat ->
  is_sync_action (tcp_server_step buf (Segment h :: q) now1 now2)
  = is_sync_seq (seq_num h).
Proof.
  intros Hh Hbuf. unfold tcp_server_step, sizeof_packet_t.
  change (Z.to_nat 48) with 48%nat.
  rewrite recv_segment_fits by lia. rewrite Hh.
  destruct (Z.leb_spec (Z.of_nat 48) 0) as [H0|_]; [lia|].
  assert (Hseq : seq_num (write buf 0 h) = seq_num h).
  { unfold seq_num, OFF_seq_num. apply load_ext. intros k Hk.
    apply nth_write_prefix. lia. }
  rewrite Hseq. destruct (is_sync_seq (seq_num h)); [reflexivity|].
  destruct (0 <? to_i32 (sub32 (packet_size (write buf 0 h)) (Z.of_nat 48))).
  - destruct (recv q _) as [[n2 d2] q2].
    destruct (Z.of_nat 48 + n2 <=? 0); reflexivity.
  - destruct (Z.of_nat 48 <=? 0); reflexivity.
Qed.

(** C2 (amended): the tag of a synchronisation packet is derived from
    the largest 32-bit value, not the largest 64-bit one.  Round [i]
    of the ten carries [2^32 - 1 - i], which the stream server takes for
    a synchronisation packet; the [k]-th data packet of a run carries
    [k + 1], at most [INT_MAX], which the server never takes for one;
    and the server treats a header as a synchronisation packet exactly
    when its [seq_num] is at least [2^32 - 21]. *)
Theorem sync_tag_is_32_bit (i : nat) (t1 : Z) (k : nat) (p : list Z)
        (now : Z) (buf h : list Z) (q : list arrival) (now1 now2 : Z) :
  (i < SYNC_ROUNDS)%nat ->
  (32 <= length p)%nat ->
  Z.of_nat k + 1 <= INT_MAX ->
  length h = 48%nat ->
  (48 <= length buf)%nat ->
  seq_num (sync_packet i t1) = 2 ^ 32 - 1 - Z.of_nat i /\
  is_sync_seq (seq_num (sync_packet i t1)) = true /\
  seq_num (Client.prepare p k now) = Z.of_nat k + 1 /\
  is_sync_seq (seq_num (Client.prepare p k now)) = false /\
  (is_sync_action (tcp_server_step buf (Segment h :: q) now1 now2) = true
   <-> 2 ^ 32 - 21 <= seq_num h).
Proof.
  intros Hi Hlen Hk Hh Hbuf. unfold SYNC_ROUNDS in Hi. unfold INT_MAX in Hk.
  assert (Hs : seq_num (sync_packet i t1) = 2 ^ 32 - 1 - Z.of_nat i).
  { rewrite seq_num_sync_packet, sync_seq_num_value by lia.
    apply to_u64_small. lia. }
  assert (Hd : seq_num (Client.prepare p k now) = Z.of_nat k + 1).
  { destruct (prepare_spec p k now Hlen) as (_ & _ & -> & _).
    apply to_u64_small. lia. }
  split; [exact Hs | split; [| split; [exact Hd | split]]].
  - apply is_sync_seq_threshold. rewrite Hs. lia.
  - rewrite Hd. destruct (is_sync_seq (Z.of_nat k + 1)) eqn:E;
      [|reflexivity].
    apply is_sync_seq_threshold in E. lia.
  - rewrite tcp_server_classifies by assumption.
    apply is_sync_seq_threshold.
Qed.

Lemma sync_tag_is_32_bit_witness :
  seq_num (sync_packet 3 7) = 2 ^ 32 - 1 - 3 /\
  is_sync_seq (seq_num (sync_packet 3 7)) = true /\
  seq_num (Client.prepare Scenario.packet64 4 1000) = 5 /\
  is_sync_seq (seq_num (Client.prepare Scenario.packet64 4 1000)) = false /\
  (is_sync_action
     (tcp_server_step Scenario.packet64 [Segment (sync_packet 3 7)] 11 12)
   = true
   <-> 2 ^ 32 - 21 <= seq_num (sync_packet 3 7)).
Proof.
  apply (sync_tag_is_32_bit 3 7 4 Scenario.packet64 1000
                            Scenario.packet64 (sync_packet 3 7) [] 11 12).
  - unfold SYNC_ROUNDS. lia.
  - vm_compute. lia.
  - unfold INT_MAX. lia.
  - reflexivity.
  - vm_compute. lia.
Defined.

(** C2 as stated fails: the first synchronisation packet carries
    [2^32 - 1], far below [2^64 - 21], and the server takes a header
    whose [seq_num] is [2^32], outside the top of the 64-bit range, for
    a synchronisation packet. *)
Lemma sync_tag_not_top_of_64_bit :
  seq_num (sync_packet 0 0) = 4294967295 /\
  ~ (2 ^ 64 - 21 <= seq_num (sync_packet 0 0)) /\
  is_sync_action
    (tcp_server_step Scenario.packet64
       [Segment (set_seq_num (sync_packet 0 0) 4294967296)] 11 12) = true /\
  ~ (2 ^ 64 - 21 <= 4294967296).
Proof.
  assert (H : seq_num (sync_packet 0 0) = 4294967295) by reflexivity.
  rewrite H.
  split; [reflexivity | split; [lia | split; [vm_compute; reflexivity | lia]]].
Qed.

End TagTheorems.

(* ================================================================== *)
(** * The datagram client *)

Section UdpClientFacts.
Import C Packet Net Client Stats.

Variables (ts : bool) (clock_offset : Z) (env : udp_env).

(** A timeout is a loss: the iteration ends without a sample, and the
    state it leaves is the one the next iteration starts from. *)
Lemma udp_iter_timeout (st : client_state) (i : nat) :
  (forall sent, channel env i sent = Sent NoDatagram) ->
  udp_client_iter ts clock_offset env st i =
  {| packet := prepare (packet st) i (now_send env i);
     samples := samples st |}.
Proof.
  intros Hch. unfold udp_client_iter. rewrite Hch. reflexivity.
Qed.

Lemma prepare_well_formed (size : Z) (p : list Z) (i : nat) (now : Z) :
  well_formed size p -> well_formed size (prepare p i now).
Proof.
  intros Hwf. pose proof Hwf as (Hsz & Hlen & _).
  unfold sizeof_packet_t in Hsz.
  destruct (prepare_spec p i now ltac:(lia)) as (Hl & Hsame & _).
  apply (well_formed_header_change size p); [exact Hwf | exact Hl|].
  intros k Hk. apply Hsame. lia.
Qed.

(** A faithful echo of the prepared packet is accepted and measured. *)
Lemma udp_iter_echo (size : Z) (st : client_state) (i : nat) (t2 t3 : Z) :
  well_formed size (packet st) ->
  Z.of_nat i + 1 < 2 ^ 64 ->
  (forall sent, channel env i sent =
                Sent (Datagram (faithful_echo sent t2 t3))) ->
  exists p',
    well_formed size p' /\
    udp_client_iter ts clock_offset env st i =
    {| packet := p';
       samples := samples st ++ [measure ts clock_offset p'] |}.
Proof.
  intros Hwf Hi Hch.
  set (p1 := prepare (packet st) i (now_send env i)).
  assert (Hwf1 : well_formed size p1) by (apply prepare_well_formed; exact Hwf).
  pose proof Hwf1 as (Hsz & Hlen1 & Hps1 & _).
  unfold sizeof_packet_t in Hsz.
  assert (Hpl : (32 <= length (packet st))%nat)
    by (destruct Hwf as (_ & Hl & _); unfold sizeof_packet_t in *; lia).
  destruct (prepare_spec (packet st) i (now_send env i) Hpl)
    as (_ & _ & Hseq1 & _). fold p1 in Hseq1.
  set (e := faithful_echo p1 t2 t3).
  destruct (stamp_spec p1 t2 t3 ltac:(lia)) as (Hle & Hsame_e & _).
  fold (faithful_echo p1 t2 t3) in Hle, Hsame_e. fold e in Hle, Hsame_e.
  assert (Hwfe : well_formed size e).
  { apply (well_formed_header_change size p1); [exact Hwf1 | exact Hle|].
    intros k Hk. apply Hsame_e. lia. }
  set (p' := set_client_recv e (now_recv env i)).
  destruct (set_client_recv_spec e (now_recv env i) ltac:(lia))
    as (Hl' & Hsame' & _). fold p' in Hl', Hsame'.
  assert (Hwf' : well_formed size p').
  { apply (well_formed_header_change size e); [exact Hwfe | exact Hl'|].
    intros k Hk. apply Hsame'. lia. }
  assert (Hseq' : seq_num p' = Z.of_nat i + 1).
  { transitivity (seq_num p1).
    - unfold seq_num, OFF_seq_num. apply load_ext. intros k Hk.
      rewrite Hsame' by lia. apply Hsame_e. lia.
    - rewrite Hseq1. apply to_u64_small. lia. }
  exists p'. split; [exact Hwf'|].
  unfold udp_client_iter. fold p1. rewrite Hch.
  rewrite Hps1.
  assert (Hfirst : firstn (Z.to_nat size) p1 = p1)
    by (apply firstn_all2; lia).
  rewrite Hfirst. fold e. unfold recvfrom.
  assert (Hfe : firstn (Z.to_nat size) e = e) by (apply firstn_all2; lia).
  rewrite Hfe, write_whole by lia.
  destruct (Z.leb_spec (Z.of_nat (Nat.min (length e) (Z.to_nat size))) 0)
    as [H0|_]; [lia|].
  fold p'. rewrite (validate_well_formed size p' Hwf'), Hseq', Z.eqb_refl.
  reflexivity.
Qed.

Lemma fold_left_seq_S {A : Type} (f : A -> nat -> A) (a : A) (n : nat) :
  fold_left f (seq 0 (S n)) a = f (fold_left f (seq 0 n) a) n.
Proof. rewrite seq_S, fold_left_app. reflexivity. Qed.

End UdpClientFacts.

Section LossyRun.
Import C Packet Net Client Stats.

Variables (ts : bool) (clock_offset : Z).
Variables (now_s now_r srv_recv srv_send : nat -> Z).

Let env : udp_env :=
  {| now_send := now_s; now_recv := now_r;
     channel := lossy_channel srv_recv srv_send |}.

Lemma third_count (n : nat) :
  Z.of_nat (S n) - Z.of_nat (S n) / 3 =
  Z.of_nat n - Z.of_nat n / 3
  + (if (Z.of_nat n + 1) mod 3 =? 0 then 0 else 1).
Proof.
  rewrite Nat2Z.inj_succ. unfold Z.succ.
  set (x := Z.of_nat n).
  assert (Hx : 0 <= x) by (unfold x; lia).
  pose proof (Z.div_mod x 3 ltac:(lia)) as H1.
  pose proof (Z.mod_pos_bound x 3 ltac:(lia)) as H2.
  pose proof (Z.div_mod (x + 1) 3 ltac:(lia)) as H3.
  pose proof (Z.mod_pos_bound (x + 1) 3 ltac:(lia)) as H4.
  destruct (Z.eqb_spec ((x + 1) mod 3) 0) as [E|E]; lia.
Qed.

(** After [n] iterations against the lossy channel the buffer is still
    a well-formed packet and [n - n / 3] samples are recorded. *)
Lemma lossy_loop_invariant (size : Z) (p0 : list Z) (n : nat) :
  well_formed size p0 ->
  Z.of_nat n < 2 ^ 64 ->
  let st := fold_left (udp_client_iter ts clock_offset env) (seq 0 n)
                      {| packet := p0; samples := [] |} in
  well_formed size (packet st) /\
  Z.of_nat (length (samples st)) = Z.of_nat n - Z.of_nat n / 3.
Proof.
  intros Hwf. induction n as [|n IH]; intros Hn st.
  - subst st. cbn [seq fold_left packet samples length]. split; [exact Hwf|].
    reflexivity.
  - subst st. rewrite fold_left_seq_S.
    destruct (IH ltac:(lia)) as (Hwfn & Hcount).
    set (stn := fold_left (udp_client_iter ts clock_offset env) (seq 0 n)
                          {| packet := p0; samples := [] |}) in *.
    rewrite third_count.
    destruct (Z.eqb_spec ((Z.of_nat n + 1) mod 3) 0) as [E|E].
    + rewrite udp_iter_timeout.
      * cbn [packet samples]. split; [|lia].
        apply prepare_well_formed. exact Hwfn.
      * intros sent. subst env. cbn [channel]. unfold lossy_channel.
        rewrite E. reflexivity.
    + destruct (udp_iter_echo ts clock_offset env size stn n
                              (srv_recv n) (srv_send n) Hwfn)
        as (p' & Hwf' & ->).
      * lia.
      * intros sent. subst env. cbn [channel]. unfold lossy_channel.
        destruct (Z.eqb_spec ((Z.of_nat n + 1) mod 3) 0); [contradiction|].
        reflexivity.
      * cbn [packet samples]. split; [exact Hwf'|].
        rewrite length_app. cbn [length]. lia.
Qed.

End LossyRun.

(* ================================================================== *)
(** * Statistics *)

Section StatsFacts.
Import Stats.
Local Open Scope Q_scope.






Lemma summarize_nonempty (num_packets : Z) (samples : list sample) :
  samples <> [] ->
  exists s,
    summarize num_packets samples = Some s /\
    packets_received s = length samples /\
    avg_latency s = average (map s_one_way_latency samples) /\
    latency_variance s = variance (map s_one_way_latency samples) /\
    jitter_us s = jitter (map s_one_way_latency samples) /\
    loss_pct s = packet_loss num_packets (length samples).
Proof.
  intros Hne. destruct samples as [|s0 rest]; [contradiction|].
  unfold summarize. cbn [map].
  eexists. split; [reflexivity|]. cbn. repeat split; reflexivity.
Qed.

Lemma summarize_empty (num_packets : Z) : summarize num_packets [] = None.
Proof. reflexivity. Qed.

Lemma sqrt_between (x lo hi : R) :
  (0 <= lo)%R -> (0 <= hi)%R -> (lo * lo < x)%R -> (x < hi * hi)%R ->
  (lo < sqrt x < hi)%R.
Proof.
  intros Hlo Hhi H1 H2. split.
  - rewrite <- (sqrt_square lo Hlo). apply sqrt_lt_1_alt. nra.
  - rewrite <- (sqrt_square hi Hhi). apply sqrt_lt_1_alt. nra.
Qed.

End StatsFacts.

(* ================================================================== *)
(** * Measurements of a sample *)

Section MeasureFacts.
Import C Packet Stats.
Local Open Scope Q_scope.

(** What [measure] computes, field by field: every difference of
    stamps is taken in [uint64_t], that is modulo 2^64. *)
Lemma measure_fields (ts : bool) (off : Z) (p : list Z) :
  s_server_processing (measure ts off p)
  = inject_Z (to_u64 (server_send p - server_recv p)) /\
  s_rtt (measure ts off p)
  = inject_Z (to_u64 (client_recv p - client_send p)) /\
  s_one_way_latency (measure true off p)
  = inject_Z (to_u64 (server_recv p - off - client_send p)) /\
  s_one_way_latency (measure false off p)
  = (s_rtt (measure false off p)
     - s_server_processing (measure false off p)) / 2.
Proof.
  unfold measure; cbn [s_server_processing s_rtt s_one_way_latency].
  repeat split.
  unfold one_way_sync_u64, sub64, to_u64. f_equal.
  rewrite Zminus_mod_idemp_r, Zminus_mod_idemp_l. reflexivity.
Qed.

(** Without synchronisation and with no time spent in the server, the
    one-way latency is half the round trip. *)
Lemma measure_symmetric (off : Z) (p : list Z) :
  s_server_processing (measure false off p) == 0 ->
  s_one_way_latency (measure false off p)
  == s_rtt (measure false off p) / 2.
Proof.
  intros H0.
  destruct (measure_fields false off p) as (_ & _ & _ & ->).
  rewrite H0. unfold Qminus. rewrite Qplus_0_r. reflexivity.
Qed.

End MeasureFacts.

(* ================================================================== *)
(** * Codec and framing theorems *)

Section Claims.
Import C Packet Net Server Client Stats.

(** C7 (amended): for every size from 64 to 8192, [create_packet]
    returns a packet of that size whose payload byte [i] is [i mod 256]
    for every [i] below the size minus [sizeof (packet_t)],
    [validate_packet] accepts it, and rejects it once any single one of
    these bytes is changed; [validate_packet] rejects every packet whose
    declared size is below the header size. *)
Theorem create_validate_in_range (size : Z) :
  MIN_PACKET_SIZE <= size <= MAX_PACKET_SIZE ->
  exists p,
    create_packet size = Some p /\
    packet_size p = size /\
    length p = Z.to_nat size /\
    (forall j, (j < Z.to_nat (size - sizeof_packet_t))%nat ->
               payload p j = Z.of_nat j mod 256) /\
    validate_packet p = true /\
    (forall j b, (j < Z.to_nat (size - sizeof_packet_t))%nat ->
                 b <> payload p j ->
                 validate_packet (set_payload p j b) = false) /\
    (forall q, packet_size q < sizeof_packet_t ->
               validate_packet q = false).
Proof.
  intros Hsize. unfold MIN_PACKET_SIZE, MAX_PACKET_SIZE in Hsize.
  destruct (create_packet_nonneg size) as (p & Hc & Hwf);
    [unfold INT_MAX; lia|].
  replace (Z.max size sizeof_packet_t) with size in Hwf
    by (unfold sizeof_packet_t; lia).
  exists p. pose proof Hwf as (_ & Hlen & Hps & Hpat).
  repeat split; try assumption.
  - apply (validate_well_formed size). exact Hwf.
  - intros j b Hj Hb. apply (validate_flipped size); assumption.
  - intros q Hq. apply validate_below_header. exact Hq.
Qed.

Lemma create_validate_in_range_witness :
  exists p,
    create_packet 64 = Some p /\
    packet_size p = 64 /\
    length p = Z.to_nat 64 /\
    (forall j, (j < Z.to_nat (64 - sizeof_packet_t))%nat ->
               payload p j = Z.of_nat j mod 256) /\
    validate_packet p = true /\
    (forall j b, (j < Z.to_nat (64 - sizeof_packet_t))%nat ->
                 b <> payload p j ->
                 validate_packet (set_payload p j b) = false) /\
    (forall q, packet_size q < sizeof_packet_t ->
               validate_packet q = false).
Proof.
  apply (create_validate_in_range 64).
  unfold MIN_PACKET_SIZE, MAX_PACKET_SIZE. lia.
Defined.

(** C9 as stated fails: [create_packet] is not total over its [int]
    argument.  A negative size is not raised to the header size: the
    test against [sizeof (packet_t)] is unsigned, so -1 passes it as
    2^64 - 1, the allocation of that many bytes fails, and the program
    exits: there is no packet to validate. *)
Theorem create_packet_minus_one :
  create_packet (-1) = None /\
  create_packet (- 2 ^ 31) = None /\
  option_map validate_packet (create_packet (-1)) <> Some true.
Proof.
  assert (H1 : create_packet (-1) = None)
    by (apply create_packet_negative; lia).
  assert (H2 : create_packet (- 2 ^ 31) = None)
    by (apply create_packet_negative; lia).
  rewrite H1, H2. repeat split. discriminate.
Qed.

(** Sizes that are not negative, in or out of the configured bounds:
    the packet has the larger of the size and the header size, and is
    accepted. *)
Theorem create_validate_nonnegative (size : Z) :
  0 <= size <= INT_MAX ->
  exists p,
    create_packet size = Some p /\
    packet_size p = Z.max size sizeof_packet_t /\
    validate_packet p = true.
Proof.
  intros Hsize.
  destruct (create_packet_nonneg size Hsize) as (p & Hc & Hwf).
  exists p. pose proof Hwf as (_ & _ & Hps & _).
  repeat split; [exact Hc | exact Hps|].
  apply (validate_well_formed _ _ Hwf).
Qed.

Lemma create_validate_nonnegative_example :
  exists p,
    create_packet 10 = Some p /\
    packet_size p = Z.max 10 sizeof_packet_t /\
    validate_packet p = true.
Proof.
  apply (create_validate_nonnegative 10). unfold INT_MAX. lia.
Defined.

(** C4 (what the code does where the claim fails): the rest of a
    packet is asked for once.  When the 16 payload bytes of a 64-byte
    reply arrive in two reads of 8, the receive returns after 56
    bytes; the packet still validates, because the reused buffer
    already held the same payload; the 8 bytes left in the stream are
    then taken for the start of the next header, and the next reply,
    though faithful, is rejected and leaves the stream out of step
    again.  Read whole, that reply is accepted. *)
Theorem stream_split_payload_loses_framing :
  packet_size Scenario.reply1 = 64 /\
  tcp_client_receive Scenario.sent1 Scenario.split_delivery
  = Received 56 Scenario.reply1 [Segment (skipn 56 Scenario.reply1)] /\
  skipn 56 Scenario.reply1 = [12; 13; 14; 15; 0; 0; 0; 0] /\
  validate_packet Scenario.reply1 = true /\
  (exists s,
     tcp_client_iter false 0 0 1000 2000 Scenario.packet64
                     Scenario.split_delivery
     = Some (fst Scenario.after1, snd Scenario.after1, Some s)) /\
  snd Scenario.after1 = [Segment (skipn 56 Scenario.reply1)] /\
  (exists buf,
     tcp_client_iter false 0 1 3000 4000 (fst Scenario.after1)
                     (snd Scenario.after1 ++ [Segment Scenario.reply2])
     = Some (buf, [Segment (skipn 56 Scenario.reply2)], None)) /\
  (exists buf s,
     tcp_client_iter false 0 1 3000 4000 (fst Scenario.after1)
                     [Segment Scenario.reply2]
     = Some (buf, [], Some s)).
Proof.
  split; [reflexivity|].
  split; [vm_compute; reflexivity|].
  split; [reflexivity|].
  split; [reflexivity|].
  split; [eexists; vm_compute; reflexivity|].
  split; [reflexivity|].
  split; eexists; [|eexists]; vm_compute; reflexivity.
Qed.

(** A reply whose header comes in one read and whose payload in the
    next is put together and validated. *)
Theorem stream_header_then_payload (size : Z) (p w : list Z)
        (q : list arrival) (now : Z) :
  sizeof_packet_t < size < 2 ^ 31 ->
  length p = Z.to_nat size ->
  well_formed size w ->
  tcp_client_receive p (Segment (firstn 48 w) :: Segment (skipn 48 w) :: q)
  = Received size w q /\
  validate_packet (set_client_recv w now) = true.
Proof.
  intros Hsize Hp Hwf. pose proof Hwf as (_ & Hlen & Hps & _).
  unfold sizeof_packet_t in Hsize.
  split.
  - rewrite (tcp_receive_header_then_rest p w q) by (rewrite ?Hps; lia).
    f_equal. lia.
  - destruct (set_client_recv_spec w now ltac:(lia)) as (Hl & Hsame & _).
    apply (validate_well_formed size).
    apply (well_formed_header_change size w); [exact Hwf | exact Hl|].
    intros k Hk. apply Hsame. lia.
Qed.

Lemma stream_header_then_payload_example :
  tcp_client_receive Scenario.sent1
    [Segment (firstn 48 Scenario.reply1); Segment (skipn 48 Scenario.reply1)]
  = Received 64 Scenario.reply1 [] /\
  validate_packet (set_client_recv Scenario.reply1 2000) = true.
Proof.
  apply (stream_header_then_payload 64 Scenario.sent1 Scenario.reply1 [] 2000).
  - unfold sizeof_packet_t. lia.
  - reflexivity.
  - unfold well_formed, sizeof_packet_t. repeat split; try reflexivity; try lia.
    intros j Hj. do 16 (destruct j as [|j]; [reflexivity|]). simpl in Hj. lia.
Defined.

End Claims.

(* ================================================================== *)
(** * Measurement and run theorems *)

Section RunClaims.
Import C Packet Net Server Client Stats.


(** C8 (amended): on the datagram transport a timeout ends the
    iteration without a sample and the loop goes on with the next
    packet.  Against the channel that loses every third packet and
    echoes the others, a run of [N] packets records [N - N / 3]
    samples and reaches the statistics; it prints them when [N] is at
    least 1, and prints no summary when [N] is 0. *)
Theorem udp_lossy_run_samples (cfg : config) (clock_offset : Z)
        (now_s now_r srv_recv srv_send : nat -> Z) :
  MIN_PACKET_SIZE <= cfg_packet_size cfg <= MAX_PACKET_SIZE ->
  0 <= num_packets cfg <= INT_MAX ->
  let env := {| now_send := now_s; now_recv := now_r;
                channel := lossy_channel srv_recv srv_send |} in
  (forall st i,
      (Z.of_nat i + 1) mod 3 = 0 ->
      udp_client_iter (time_sync cfg) clock_offset env st i
      = {| packet := prepare (packet st) i (now_s i);
           samples := samples st |}) /\
  exists out,
    run_udp_client cfg clock_offset env = Some out /\
    Z.of_nat (length (recorded out))
    = num_packets cfg - num_packets cfg / 3 /\
    (1 <= num_packets cfg ->
     exists s, report out = Some s /\
               packets_received s = length (recorded out)) /\
    (num_packets cfg = 0 -> report out = None).
Proof.
  intros Hsize Hn env. split.
  - intros st i Hi. rewrite udp_iter_timeout; [reflexivity|].
    intros sent. subst env. cbn [channel]. unfold lossy_channel.
    rewrite Hi. reflexivity.
  - unfold MIN_PACKET_SIZE, MAX_PACKET_SIZE in Hsize.
    unfold INT_MAX in Hn.
    destruct (create_packet_nonneg (cfg_packet_size cfg)) as (p & Hc & Hwf);
      [unfold INT_MAX; lia|].
    unfold run_udp_client. rewrite Hc.
    set (N := Z.to_nat (num_packets cfg)).
    destruct (lossy_loop_invariant (time_sync cfg) clock_offset
                now_s now_r srv_recv srv_send _ p N Hwf)
      as (_ & Hcount); [unfold N; lia|].
    fold env in Hcount.
    set (st := fold_left (udp_client_iter (time_sync cfg) clock_offset env)
                         (seq 0 N) {| packet := p; samples := [] |}) in *.
    eexists. split; [reflexivity|]. cbn [recorded report].
    assert (HN : Z.of_nat N = num_packets cfg) by (unfold N; lia).
    rewrite HN in Hcount.
    split; [exact Hcount | split].
    + intros H1.
      assert (Hne : samples st <> []).
      { intros E. rewrite E in Hcount. cbn [length] in Hcount.
        pose proof (Z.div_mod (num_packets cfg) 3 ltac:(lia)).
        pose proof (Z.mod_pos_bound (num_packets cfg) 3 ltac:(lia)). lia. }
      destruct (summarize_nonempty (num_packets cfg) (samples st) Hne)
        as (s & Hs & Hr & _).
      exists s. split; [exact Hs | exact Hr].
    + intros H0. rewrite H0 in Hcount. change (0 - 0 / 3) with 0 in Hcount.
      destruct (samples st); [reflexivity | cbn [length] in Hcount; lia].
Qed.

Lemma udp_lossy_run_samples_witness :
  exists out,
    run_udp_client Scenario.config5 0 Scenario.lossy_env = Some out /\
    Z.of_nat (length (recorded out)) = 5 - 5 / 3.
Proof.
  destruct (udp_lossy_run_samples
              Scenario.config5 0
              (fun i => 1000 * Z.of_nat i) (fun i => 1000 * Z.of_nat i + 40)
              (fun i => 1000 * Z.of_nat i + 120)
              (fun i => 1000 * Z.of_nat i + 120))
    as (_ & out & Hrun & Hcount & _).
  - unfold MIN_PACKET_SIZE, MAX_PACKET_SIZE. simpl. lia.
  - unfold INT_MAX. simpl. lia.
  - exists out. split; [exact Hrun | exact Hcount].
Defined.

(** C8 as stated fails for a run of no packet: nothing is recorded and
    the statistics block is not printed. *)
Lemma udp_run_of_no_packet_prints_no_summary :
  exists out,
    run_udp_client Scenario.config0 0 Scenario.lossy_env = Some out /\
    recorded out = [] /\
    report out = None.
Proof. eexists. split; [reflexivity|]. split; reflexivity. Qed.

End RunClaims.

(* ================================================================== *)
(** * Further properties of the exchange *)

Section Further.
Import C Packet Net Server Client Stats.

Lemma measure_symmetric_example :
  (s_one_way_latency (measure false 0 Scenario.early_reply)
   == s_rtt (measure false 0 Scenario.early_reply) / 2)%Q.
Proof.
  apply (measure_symmetric 0 Scenario.early_reply). vm_compute. reflexivity.
Defined.

Lemma udp_server_faithful_example :
  snd (udp_server_step (repeat 0 (Z.to_nat MAX_PACKET_SIZE))
                       (Datagram Scenario.sent1) 1500 1500)
  = UdpEcho (Z.of_nat (length Scenario.sent1))
            (faithful_echo Scenario.sent1 1500 1500).
Proof.
  apply (udp_server_faithful (repeat 0 (Z.to_nat MAX_PACKET_SIZE))
                             Scenario.sent1 1500 1500).
  - apply repeat_length.
  - unfold MAX_PACKET_SIZE. vm_compute length. lia.
  - reflexivity.
Defined.

(** Packet loss: 100 sent and 90 received is a loss of 10 per cent. *)
Lemma packet_loss_example : (packet_loss 100 90 == 10)%Q.
Proof. vm_compute. reflexivity. Qed.

(** The pattern stops [sizeof (packet_t)] bytes short of the declared
    size although the payload starts at offset 44: the last four bytes
    of the buffer stay zero and are not looked at by [validate_packet]. *)
Theorem validate_ignores_tail (size : Z) (p : list Z) (k : nat) (b : Z) :
  well_formed size p ->
  (Z.to_nat size - 4 <= k < Z.to_nat size)%nat ->
  validate_packet (write p k [b]) = true.
Proof.
  intros Hwf Hk. pose proof Hwf as (Hsz & Hlen & Hps & Hpat).
  unfold sizeof_packet_t in Hsz.
  apply (validate_well_formed size). unfold well_formed.
  split; [exact Hsz | split; [| split]].
  - rewrite length_write; [exact Hlen | cbn [length]; lia].
  - rewrite <- Hps. unfold packet_size, OFF_packet_size.
    apply load_write_other; [lia | left; lia].
  - intros j Hj. rewrite <- (Hpat j Hj). unfold payload, OFF_payload.
    apply nth_write_other; [lia | left].
    unfold sizeof_packet_t in Hj. lia.
Qed.

Lemma validate_ignores_tail_example :
  validate_packet (write Scenario.packet64 63 [255]) = true.
Proof.
  apply (validate_ignores_tail 64 Scenario.packet64 63 255).
  - unfold well_formed, sizeof_packet_t.
    repeat split; try reflexivity; try lia.
    intros j Hj. do 16 (destruct j as [|j]; [reflexivity|]).
    simpl in Hj. lia.
  - simpl. lia.
Defined.

End Further.

(* ================================================================== *)
(** * The clock *)

Section ClockFacts.
Import C Clock.

Lemma get_timestamp_usec_value (s u : Z) :
  valid_timeval s u -> get_timestamp_usec s u = s * 1000000 + u.
Proof.
  intros [Hs Hu]. unfold get_timestamp_usec. apply to_u64_small. lia.
Qed.

(** Stamps of two readings of the clock are ordered as the readings
    are, and the unsigned difference of the later and the earlier one is
    the number of microseconds between them. *)
Theorem timestamps_keep_order (s1 u1 s2 u2 : Z) :
  valid_timeval s1 u1 -> valid_timeval s2 u2 ->
  (get_timestamp_usec s1 u1 < get_timestamp_usec s2 u2
   <-> s1 < s2 \/ (s1 = s2 /\ u1 < u2)) /\
  (get_timestamp_usec s1 u1 = get_timestamp_usec s2 u2
   <-> s1 = s2 /\ u1 = u2) /\
  (get_timestamp_usec s1 u1 <= get_timestamp_usec s2 u2 ->
   sub64 (get_timestamp_usec s2 u2) (get_timestamp_usec s1 u1)
   = (s2 - s1) * 1000000 + (u2 - u1)).
Proof.
  intros H1 H2.
  rewrite (get_timestamp_usec_value s1 u1 H1).
  rewrite (get_timestamp_usec_value s2 u2 H2).
  destruct H1 as [Hs1 Hu1], H2 as [Hs2 Hu2].
  split; [lia | split; [lia|]].
  intros Hle. unfold sub64. rewrite to_u64_small by lia. lia.
Qed.

Lemma timestamps_keep_order_example :
  (get_timestamp_usec 1700000000 999999 < get_timestamp_usec 1700000001 0
   <-> 1700000000 < 1700000001 \/ (1700000000 = 1700000001 /\ 999999 < 0)) /\
  (get_timestamp_usec 1700000000 999999 = get_timestamp_usec 1700000001 0
   <-> 1700000000 = 1700000001 /\ 999999 = 0) /\
  (get_timestamp_usec 1700000000 999999 <= get_timestamp_usec 1700000001 0 ->
   sub64 (get_timestamp_usec 1700000001 0)
         (get_timestamp_usec 1700000000 999999)
   = (1700000001 - 1700000000) * 1000000 + (0 - 999999)).
Proof.
  apply (timestamps_keep_order 1700000000 999999 1700000001 0);
    unfold valid_timeval; lia.
Defined.

End ClockFacts.

(* ================================================================== *)
(** * The command line *)

Section MainFacts.
Import C.

Lemma clamp_packet_size_bounds (n : Z) :
  Packet.MIN_PACKET_SIZE <= Main.clamp_packet_size n
  <= Packet.MAX_PACKET_SIZE.
Proof.
  unfold Main.clamp_packet_size, Packet.MIN_PACKET_SIZE,
    Packet.MAX_PACKET_SIZE.
  destruct (Z.ltb_spec n 64); [lia|].
  destruct (Z.ltb_spec 8192 n); lia.
Qed.

Lemma set_option_packet_size (c c' : Main.config_t) (o : Main.option_t) :
  Packet.MIN_PACKET_SIZE <= Main.packet_size c <= Packet.MAX_PACKET_SIZE ->
  Main.set_option c o = Main.Config c' ->
  Packet.MIN_PACKET_SIZE <= Main.packet_size c' <= Packet.MAX_PACKET_SIZE.
Proof.
  intros Hc Hset.
  destruct o; cbn [Main.set_option] in Hset; try discriminate;
    injection Hset as <-; cbn [Main.packet_size];
    try exact Hc; apply clamp_packet_size_bounds.
Qed.

Lemma parse_options_packet_size (opts : list Main.option_t) :
  forall c c',
  Packet.MIN_PACKET_SIZE <= Main.packet_size c <= Packet.MAX_PACKET_SIZE ->
  Main.parse_options opts c = Main.Config c' ->
  Packet.MIN_PACKET_SIZE <= Main.packet_size c' <= Packet.MAX_PACKET_SIZE.
Proof.
  induction opts as [|o rest IH]; intros c c' Hc Hp; cbn [Main.parse_options] in Hp.
  - injection Hp as <-. exact Hc.
  - destruct (Main.set_option c o) as [status|c1] eqn:Hset; [discriminate|].
    apply (IH c1 c'); [|exact Hp].
    apply (set_option_packet_size c c1 o); assumption.
Qed.

Lemma main_runs_parsed (opts : list Main.option_t) (mode : Main.run_mode)
      (c : Main.config_t) :
  Main.main opts = inr (mode, c) ->
  Main.parse_options opts Main.default_config = Main.Config c /\
  Main.dispatch c = mode /\ mode <> Main.UsageFailure.
Proof.
  unfold Main.main. intros H.
  destruct (Main.parse_options opts Main.default_config) as [s|c0];
    [discriminate|].
  destruct (Main.dispatch c0) eqn:Hd; try discriminate;
    injection H as <- <-; repeat split; try exact Hd; discriminate.
Qed.

(** Whatever the options, when [main] goes on to run a server or a
    client the configured packet size lies between 64 and 8192, and
    [create_packet] on it returns a valid packet of exactly that size. *)
Theorem main_packet_size_is_usable (opts : list Main.option_t)
        (mode : Main.run_mode) (c : Main.config_t) :
  Main.main opts = inr (mode, c) ->
  Packet.MIN_PACKET_SIZE <= Main.packet_size c <= Packet.MAX_PACKET_SIZE /\
  exists p,
    Packet.create_packet (Main.packet_size c) = Some p /\
    Packet.packet_size p = Main.packet_size c /\
    Packet.validate_packet p = true.
Proof.
  intros Hmain. destruct (main_runs_parsed opts mode c Hmain) as (Hp & _).
  assert (Hb : Packet.MIN_PACKET_SIZE <= Main.packet_size c
               <= Packet.MAX_PACKET_SIZE).
  { apply (parse_options_packet_size opts Main.default_config c);
      [|exact Hp].
    unfold Main.default_config, Main.DEFAULT_PACKET_SIZE,
      Packet.MIN_PACKET_SIZE, Packet.MAX_PACKET_SIZE.
    cbn [Main.packet_size]. lia. }
  split; [exact Hb|].
  unfold Packet.MIN_PACKET_SIZE, Packet.MAX_PACKET_SIZE in Hb.
  destruct (create_packet_nonneg (Main.packet_size c)) as (p & Hc & Hwf);
    [unfold INT_MAX; lia|].
  replace (Z.max (Main.packet_size c) Packet.sizeof_packet_t)
    with (Main.packet_size c) in Hwf
    by (unfold Packet.sizeof_packet_t; lia).
  exists p. pose proof Hwf as (_ & _ & Hps & _).
  split; [exact Hc | split; [exact Hps|]].
  apply (validate_well_formed _ _ Hwf).
Qed.

Lemma main_packet_size_is_usable_example :
  Packet.MIN_PACKET_SIZE
  <= Main.packet_size CommandLines.client_line_config
  <= Packet.MAX_PACKET_SIZE /\
  exists p,
    Packet.create_packet (Main.packet_size CommandLines.client_line_config)
    = Some p /\
    Packet.packet_size p = Main.packet_size CommandLines.client_line_config /\
    Packet.validate_packet p = true.
Proof.
  apply (main_packet_size_is_usable CommandLines.client_line
                                    Main.RunUdpClient
                                    CommandLines.client_line_config).
  vm_compute. reflexivity.
Defined.

Lemma parse_options_rate (opts : list Main.option_t) :
  forall c c',
  (forall n, ~ In (Main.Opt_r n) opts) ->
  Main.parse_options opts c = Main.Config c' ->
  Main.rate_pps c' = Main.rate_pps c.
Proof.
  induction opts as [|o rest IH]; intros c c' Hno Hp;
    cbn [Main.parse_options] in Hp.
  - injection Hp as <-. reflexivity.
  - destruct (Main.set_option c o) as [status|c1] eqn:Hset; [discriminate|].
    rewrite (IH c1 c'); [| intros n Hin; apply (Hno n); right; exact Hin
                         | exact Hp].
    destruct o; cbn [Main.set_option] in Hset; try discriminate;
      injection Hset as <-; cbn [Main.rate_pps]; try reflexivity.
    exfalso. apply (Hno n). left. reflexivity.
Qed.

(** The pacing follows the rate whenever the rate is positive, and the
    rate is 10 unless [-r] changes it: on a command line without [-r]
    the interval between packets is 100000 microseconds whatever [-d]
    says. *)
Theorem delay_option_alone_has_no_effect (opts : list Main.option_t)
        (c : Main.config_t) :
  (forall n, ~ In (Main.Opt_r n) opts) ->
  Main.parse_options opts Main.default_config = Main.Config c ->
  Client.actual_delay_us (Main.client_config c) = 100000.
Proof.
  intros Hno Hp.
  pose proof (parse_options_rate opts Main.default_config c Hno Hp) as Hr.
  unfold Client.actual_delay_us, Main.client_config.
  cbn [Client.rate_pps Client.delay_ms]. rewrite Hr.
  reflexivity.
Qed.

Lemma delay_option_alone_has_no_effect_example :
  Main.delay_ms CommandLines.client_line_config = 250 /\
  Client.actual_delay_us (Main.client_config CommandLines.client_line_config)
  = 100000.
Proof.
  split; [reflexivity|].
  apply (delay_option_alone_has_no_effect CommandLines.client_line).
  - intros n Hin. unfold CommandLines.client_line in Hin.
    cbn [In] in Hin.
    repeat (destruct Hin as [Hin|Hin]; [discriminate|]). exact Hin.
  - vm_compute. reflexivity.
Defined.

(** With a rate that is not positive the interval is the delay in
    microseconds. *)
Lemma pacing_by_delay (c : Main.config_t) :
  Main.rate_pps c <= 0 -> - 2147483 <= Main.delay_ms c <= 2147483 ->
  Client.actual_delay_us (Main.client_config c) = Main.delay_ms c * 1000.
Proof.
  intros Hr Hd. unfold Client.actual_delay_us, Main.client_config.
  cbn [Client.rate_pps Client.delay_ms].
  destruct (Z.ltb_spec 0 (Main.rate_pps c)); [lia|].
  unfold to_i32.
  destruct (Z_le_gt_dec 0 (Main.delay_ms c)) as [Hpos|Hneg].
  - rewrite Z.mod_small by lia.
    destruct (Z.ltb_spec (Main.delay_ms c * 1000) (2 ^ 31)); lia.
  - assert (Hm : (Main.delay_ms c * 1000) mod 2 ^ 32
                 = Main.delay_ms c * 1000 + 2 ^ 32).
    { symmetry.
      apply (Z.mod_unique_pos (Main.delay_ms c * 1000) (2 ^ 32) (-1)); lia. }
    rewrite Hm.
    destruct (Z.ltb_spec (Main.delay_ms c * 1000 + 2 ^ 32) (2 ^ 31)); lia.
Qed.

Lemma parse_options_stops (opts : list Main.option_t) :
  forall c,
  In Main.Opt_h opts \/ In Main.Opt_unknown opts ->
  exists status, Main.parse_options opts c = Main.Exit status.
Proof.
  induction opts as [|o rest IH]; intros c Hin.
  - destruct Hin as [[]|[]].
  - cbn [Main.parse_options].
    destruct (Main.set_option c o) as [status|c1] eqn:Hset;
      [exists status; reflexivity|].
    apply IH. destruct Hin as [[Ho|Hin]|[Ho|Hin]].
    + subst o. discriminate.
    + left. exact Hin.
    + subst o. discriminate.
    + right. exact Hin.
Qed.

(** [main] starts a run only from a command line free of [-h] and of
    unknown options; a client run needs a server address, given by a
    [-c] that no later [-s] overrides; with no option at all the usage
    is printed and the exit status is a failure. *)
Theorem main_dispatch (opts : list Main.option_t) (mode : Main.run_mode)
        (c : Main.config_t) :
  Main.main opts = inr (mode, c) ->
  ~ In Main.Opt_h opts /\ ~ In Main.Opt_unknown opts /\
  ((mode = Main.RunTcpServer \/ mode = Main.RunUdpServer) ->
   Main.is_server c = true) /\
  ((mode = Main.RunTcpClient \/ mode = Main.RunUdpClient) ->
   Main.is_server c = false /\ Main.server_ip c <> String.EmptyString) /\
  ((mode = Main.RunTcpServer \/ mode = Main.RunTcpClient) <->
   Main.protocol c = Main.PROTOCOL_TCP) /\
  Main.main [] = inl Main.EXIT_FAILURE.
Proof.
  intros Hmain.
  destruct (main_runs_parsed opts mode c Hmain) as (Hp & Hd & Hne).
  assert (Hstop : forall o, o = Main.Opt_h \/ o = Main.Opt_unknown ->
                            ~ In o opts).
  { intros o Ho Hin.
    destruct (parse_options_stops opts Main.default_config) as (s & Hs).
    - destruct Ho as [-> | ->]; [left | right]; exact Hin.
    - rewrite Hs in Hp. discriminate. }
  split; [apply Hstop; left; reflexivity|].
  split; [apply Hstop; right; reflexivity|].
  unfold Main.dispatch in Hd.
  destruct (Main.is_server c), (Main.server_ip c), (Main.protocol c);
    subst mode; repeat split; intros; try reflexivity; try discriminate;
    try congruence;
    repeat match goal with
           | H : _ \/ _ |- _ => destruct H
           end; try discriminate; try congruence;
    try (left; reflexivity); try (right; reflexivity).
Qed.

Lemma main_dispatch_example :
  Main.is_server CommandLines.client_line_config = false /\
  Main.server_ip CommandLines.client_line_config <> String.EmptyString.
Proof.
  destruct (main_dispatch CommandLines.client_line Main.RunUdpClient
                          CommandLines.client_line_config)
    as (_ & _ & _ & Hc & _).
  - vm_compute. reflexivity.
  - apply Hc. right. reflexivity.
Defined.

End MainFacts.

(* ================================================================== *)
(** * Minimum, maximum, mean and loss *)

Section SummaryFacts.
Import Stats.
Local Open Scope Q_scope.

Lemma Qltb_true (x y : Q) : Qltb x y = true -> x < y.
Proof.
  unfold Qltb. intros H. apply Qnot_le_lt. intros Hle.
  apply Qle_bool_iff in Hle. rewrite Hle in H. discriminate.
Qed.

Lemma Qltb_false (x y : Q) : Qltb x y = false -> y <= x.
Proof.
  unfold Qltb. intros H. apply Qle_bool_iff.
  destruct (Qle_bool y x); [reflexivity | discriminate].
Qed.

Lemma minimum_spec (xs : list Q) :
  forall x0,
  minimum x0 xs <= x0 /\
  (forall x, In x xs -> minimum x0 xs <= x) /\
  (minimum x0 xs = x0 \/ In (minimum x0 xs) xs).
Proof.
  induction xs as [|a xs IH]; intros x0; unfold minimum; cbn [fold_left].
  - split; [apply Qle_refl | split; [intros x [] | left; reflexivity]].
  - fold (minimum (if Qltb a x0 then a else x0) xs).
    destruct (IH (if Qltb a x0 then a else x0)) as (H0 & Hall & Hin).
    destruct (Qltb a x0) eqn:E.
    + apply Qltb_true in E. split; [|split].
      * apply (Qle_trans _ a); [exact H0 | apply Qlt_le_weak; exact E].
      * intros x [<-|Hx]; [exact H0 | apply Hall; exact Hx].
      * right. destruct Hin as [->|Hin]; [left; reflexivity | right; exact Hin].
    + apply Qltb_false in E. split; [exact H0 | split].
      * intros x [<-|Hx];
          [apply (Qle_trans _ x0); assumption | apply Hall; exact Hx].
      * destruct Hin as [->|Hin]; [left; reflexivity | right; right; exact Hin].
Qed.

Lemma maximum_spec (xs : list Q) :
  forall x0,
  x0 <= maximum x0 xs /\
  (forall x, In x xs -> x <= maximum x0 xs) /\
  (maximum x0 xs = x0 \/ In (maximum x0 xs) xs).
Proof.
  induction xs as [|a xs IH]; intros x0; unfold maximum; cbn [fold_left].
  - split; [apply Qle_refl | split; [intros x [] | left; reflexivity]].
  - fold (maximum (if Qltb x0 a then a else x0) xs).
    destruct (IH (if Qltb x0 a then a else x0)) as (H0 & Hall & Hin).
    destruct (Qltb x0 a) eqn:E.
    + apply Qltb_true in E. split; [|split].
      * apply (Qle_trans _ a); [apply Qlt_le_weak; exact E | exact H0].
      * intros x [<-|Hx]; [exact H0 | apply Hall; exact Hx].
      * right. destruct Hin as [->|Hin]; [left; reflexivity | right; exact Hin].
    + apply Qltb_false in E. split; [exact H0 | split].
      * intros x [<-|Hx];
          [apply (Qle_trans _ x0); assumption | apply Hall; exact Hx].
      * destruct Hin as [->|Hin]; [left; reflexivity | right; right; exact Hin].
Qed.

(** The extremes of the statistics block of a run that recorded at
    least one sample (doubles are compared exactly, so the values of the
    samples decide): every one-way latency lies between the minimum and
    the maximum printed, every round trip between the minimum and the
    maximum round trip, and each of the four is the value of a recorded
    sample. *)
Theorem summary_extremes_are_samples (num_packets : Z)
        (samples : list sample) :
  samples <> [] ->
  exists s,
    summarize num_packets samples = Some s /\
    packets_received s = length samples /\
    (forall x, In x samples ->
               min_latency s <= s_one_way_latency x <= max_latency s) /\
    (exists x, In x samples /\ s_one_way_latency x = min_latency s) /\
    (exists x, In x samples /\ s_one_way_latency x = max_latency s) /\
    (forall x, In x samples ->
               min_rtt_us s <= s_rtt x <= max_rtt_us s) /\
    (exists x, In x samples /\ s_rtt x = min_rtt_us s) /\
    (exists x, In x samples /\ s_rtt x = max_rtt_us s).
Proof.
  intros Hne. destruct samples as [|s0 rest]; [contradiction|].
  set (samples := s0 :: rest).
  set (ls := map s_one_way_latency samples).
  set (rs := map s_rtt samples).
  destruct (minimum_spec ls (s_one_way_latency s0)) as (_ & Hmin & Hmin_in).
  destruct (maximum_spec ls (s_one_way_latency s0)) as (_ & Hmax & Hmax_in).
  destruct (minimum_spec rs (s_rtt s0)) as (_ & Rmin & Rmin_in).
  destruct (maximum_spec rs (s_rtt s0)) as (_ & Rmax & Rmax_in).
  eexists. split; [reflexivity|].
  cbn [packets_received min_latency max_latency min_rtt_us max_rtt_us].
  fold samples. fold ls. fold rs.
  assert (Hin_ls : forall v, In v ls ->
                     exists x, In x samples /\ s_one_way_latency x = v).
  { intros v Hv. unfold ls in Hv. apply in_map_iff in Hv.
    destruct Hv as (x & Hx & Hin). exists x. split; assumption. }
  assert (Hin_rs : forall v, In v rs ->
                     exists x, In x samples /\ s_rtt x = v).
  { intros v Hv. unfold rs in Hv. apply in_map_iff in Hv.
    destruct Hv as (x & Hx & Hin). exists x. split; assumption. }
  split; [reflexivity|].
  split; [|split; [|split; [|split; [|split]]]].
  - intros x Hx. split; [apply Hmin | apply Hmax];
      unfold ls; apply in_map; exact Hx.
  - apply Hin_ls. destruct Hmin_in as [->|Hin]; [left; reflexivity | exact Hin].
  - apply Hin_ls. destruct Hmax_in as [->|Hin]; [left; reflexivity | exact Hin].
  - intros x Hx. split; [apply Rmin | apply Rmax];
      unfold rs; apply in_map; exact Hx.
  - apply Hin_rs. destruct Rmin_in as [->|Hin]; [left; reflexivity | exact Hin].
  - apply Hin_rs. destruct Rmax_in as [->|Hin]; [left; reflexivity | exact Hin].
Qed.

Lemma summary_extremes_are_samples_example :
  exists s,
    summarize 3 (map Scenario.sample_of_latency Scenario.latencies_10_20_30)
    = Some s /\
    packets_received s = 3%nat /\
    (forall x,
        In x (map Scenario.sample_of_latency Scenario.latencies_10_20_30) ->
        min_latency s <= s_one_way_latency x <= max_latency s).
Proof.
  destruct (summary_extremes_are_samples
              3 (map Scenario.sample_of_latency Scenario.latencies_10_20_30))
    as (s & Hs & Hn & Hlat & _).
  - discriminate.
  - exists s. split; [exact Hs | split; [exact Hn | exact Hlat]].
Defined.

Lemma packet_loss_range (num_packets : Z) (received : nat) :
  (0 < num_packets)%Z -> (Z.of_nat received <= num_packets)%Z ->
  0 <= packet_loss num_packets received <= 100.
Proof.
  intros Hn Hr. unfold packet_loss.
  assert (HN : 0 < inject_Z num_packets)
    by (change 0 with (inject_Z 0); rewrite <- Zlt_Qlt; exact Hn).
  assert (Hd : 0 <= inject_Z (num_packets - Z.of_nat received))
    by (change 0 with (inject_Z 0); rewrite <- Zle_Qle; lia).
  assert (Hd' : inject_Z (num_packets - Z.of_nat received)
                <= inject_Z num_packets)
    by (rewrite <- Zle_Qle; lia).
  split.
  - apply Qle_shift_div_l; [exact HN | lra].
  - apply Qle_shift_div_r; [exact HN | lra].
Qed.

(** The loss percentage of a run that received no more packets than it
    sent lies between 0 and 100, and is 0 exactly when every packet was
    received. *)
Theorem packet_loss_bounds (num_packets : Z) (received : nat) :
  (0 < num_packets)%Z -> (Z.of_nat received <= num_packets)%Z ->
  0 <= packet_loss num_packets received <= 100 /\
  (packet_loss num_packets received == 0
   <-> Z.of_nat received = num_packets).
Proof.
  intros Hn Hr. unfold packet_loss.
  assert (HN : 0 < inject_Z num_packets)
    by (change 0 with (inject_Z 0); rewrite <- Zlt_Qlt; exact Hn).
  assert (Hd : 0 <= inject_Z (num_packets - Z.of_nat received))
    by (change 0 with (inject_Z 0); rewrite <- Zle_Qle; lia).
  assert (Hd' : inject_Z (num_packets - Z.of_nat received)
                <= inject_Z num_packets)
    by (rewrite <- Zle_Qle; lia).
  split; [split|].
  - apply Qle_shift_div_l; [exact HN | lra].
  - apply Qle_shift_div_r; [exact HN | lra].
  - split.
    + intros H0.
      assert (Hz : inject_Z (num_packets - Z.of_nat received) == 0).
      { assert (Hm : 100 * inject_Z (num_packets - Z.of_nat received)
                     == 0 * inject_Z num_packets).
        { rewrite <- H0. field. lra. }
        lra. }
      unfold Qeq in Hz. cbn [Qnum Qden inject_Z] in Hz. lia.
    + intros ->. rewrite Z.sub_diag. unfold Qdiv. ring.
Qed.

Lemma packet_loss_bounds_example :
  0 <= packet_loss 100 90 <= 100 /\
  (packet_loss 100 90 == 0 <-> Z.of_nat 90 = 100%Z).
Proof. apply (packet_loss_bounds 100 90); lia. Defined.

End SummaryFacts.

(* ================================================================== *)
(** * Throughput *)

Section ThroughputFacts.
Import C Throughput.
Local Open Scope Q_scope.

Lemma duration_formula (delay : Z) (rtts : list Q) :
  rtts <> [] ->
  test_duration_sec delay rtts
  == (last rtts 0 - hd 0 rtts + inject_Z delay) / 1000000.
Proof.
  intros Hne. destruct rtts as [|r0 [|r1 rest]]; [contradiction| |].
  - cbn [test_duration_sec last hd]. field.
  - unfold test_duration_sec. cbn [hd]. field.
Qed.

Lemma throughput_value (size delay : Z) (rtts : list Q) :
  rtts <> [] ->
  (0 <= Z.of_nat (length rtts) * size * 8 < 2 ^ 31)%Z ->
  ~ last rtts 0 - hd 0 rtts + inject_Z delay == 0 ->
  exists t,
    throughput_bps size delay rtts = Some t /\
    t == inject_Z (Z.of_nat (length rtts) * size * 8) * 1000000
         / (last rtts 0 - hd 0 rtts + inject_Z delay).
Proof.
  intros Hne Hbits Hnz. unfold throughput_bps.
  pose proof (duration_formula delay rtts Hne) as Hd.
  destruct (Qeq_bool (test_duration_sec delay rtts) 0) eqn:E.
  - apply Qeq_bool_eq in E. rewrite E in Hd. exfalso. apply Hnz.
    setoid_replace (last rtts 0 - hd 0 rtts + inject_Z delay)
      with ((last rtts 0 - hd 0 rtts + inject_Z delay) / 1000000 * 1000000)
      by field.
    rewrite <- Hd. ring.
  - eexists. split; [reflexivity|].
    rewrite to_i32_small by exact Hbits. rewrite Hd. field. exact Hnz.
Qed.

(** The duration that divides the number of bits is the difference of
    the last and the first round-trip time plus one pacing interval, not
    the time the run took.  On a channel whose last round trip takes as
    long as its first, the reported throughput is the bits of all
    received packets per single pacing interval: it grows with the
    number of packets. *)
Theorem throughput_of_steady_channel (size delay : Z) (rtts : list Q) :
  rtts <> [] ->
  last rtts 0 == hd 0 rtts ->
  (0 < delay)%Z ->
  (0 <= Z.of_nat (length rtts) * size * 8 < 2 ^ 31)%Z ->
  exists t,
    throughput_bps size delay rtts = Some t /\
    t == inject_Z (Z.of_nat (length rtts)) * inject_Z (size * 8)
         * (1000000 / inject_Z delay).
Proof.
  intros Hne Hsame Hdelay Hbits.
  assert (HD : 0 < inject_Z delay)
    by (change 0 with (inject_Z 0); rewrite <- Zlt_Qlt; exact Hdelay).
  destruct (throughput_value size delay rtts Hne Hbits) as (t & Ht & Hv).
  - rewrite Hsame. lra.
  - exists t. split; [exact Ht|]. rewrite Hv, Hsame.
    rewrite <- Z.mul_assoc, inject_Z_mult. field. lra.
Qed.

Lemma throughput_of_steady_channel_example :
  exists t,
    throughput_bps 1024 100000 [500; 640; 500] = Some t /\
    t == inject_Z (Z.of_nat 3) * inject_Z (1024 * 8)
         * (1000000 / inject_Z 100000).
Proof.
  apply (throughput_of_steady_channel 1024 100000 [500; 640; 500]).
  - discriminate.
  - reflexivity.
  - lia.
  - cbn [length]. lia.
Defined.

(** When the last round trip is shorter than the first by more than the
    pacing interval, the duration is negative and so is the reported
    throughput. *)
Theorem throughput_negative (size delay : Z) (rtts : list Q) :
  rtts <> [] ->
  last rtts 0 - hd 0 rtts < - inject_Z delay ->
  (0 < Z.of_nat (length rtts) * size * 8 < 2 ^ 31)%Z ->
  exists t, throughput_bps size delay rtts = Some t /\ t < 0.
Proof.
  intros Hne Hshort Hbits.
  destruct (throughput_value size delay rtts Hne) as (t & Ht & Hv);
    [lia | lra |].
  exists t. split; [exact Ht|]. rewrite Hv.
  set (d := last rtts 0 - hd 0 rtts + inject_Z delay) in *.
  assert (Hd : d < 0) by (unfold d; lra).
  assert (Hb : 0 < inject_Z (Z.of_nat (length rtts) * size * 8))
    by (change 0 with (inject_Z 0); rewrite <- Zlt_Qlt; lia).
  setoid_replace
    (inject_Z (Z.of_nat (length rtts) * size * 8) * 1000000 / d)
    with (- (inject_Z (Z.of_nat (length rtts) * size * 8) * 1000000 / (- d)))
    by (field; lra).
  assert (Hq : 0 < inject_Z (Z.of_nat (length rtts) * size * 8) * 1000000
                   / (- d)).
  { apply Qlt_shift_div_l; lra. }
  lra.
Qed.

Lemma throughput_negative_example :
  exists t, throughput_bps 1024 1000 [5000; 3000] = Some t /\ t < 0.
Proof.
  apply (throughput_negative 1024 1000 [5000; 3000]).
  - discriminate.
  - cbn [last hd]. unfold Qlt. cbn. lia.
  - cbn [length]. lia.
Defined.

End ThroughputFacts.

(* ================================================================== *)
(** * Synchronisation with rounds that fail *)

Section SyncRounds.
Import C Packet Net Sync Server.

Lemma min_rtt_inv_step (i : nat) (e : round_env) (st : sync_state) :
  min_rtt st <= INT64_MAX /\
  (min_rtt st < INT64_MAX \/ best_round st = 0%nat) ->
  min_rtt (sync_round i e st) <= INT64_MAX /\
  (min_rtt (sync_round i e st) < INT64_MAX
   \/ best_round (sync_round i e st) = 0%nat).
Proof.
  intros [Hle Hor]. unfold sync_round.
  destruct (r_io e) as [| |t2 t3 t4]; try (split; assumption).
  destruct (Z.ltb_spec (round_rtt (r_t1 e) t2 t3 t4) (min_rtt st));
    cbn [min_rtt best_round]; [split; [lia | left; lia] | split; assumption].
Qed.

Lemma min_rtt_inv_loop (env : nat -> round_env) (c : nat) :
  forall i st,
  min_rtt st <= INT64_MAX /\
  (min_rtt st < INT64_MAX \/ best_round st = 0%nat) ->
  min_rtt (sync_loop c i env st) <= INT64_MAX /\
  (min_rtt (sync_loop c i env st) < INT64_MAX
   \/ best_round (sync_loop c i env st) = 0%nat).
Proof.
  induction c as [|c IH]; intros i st H; cbn [sync_loop]; [exact H|].
  apply IH. apply min_rtt_inv_step. exact H.
Qed.

Lemma round_values_rtt_le (e : round_env) (r o : Z) :
  round_values e = Some (r, o) -> r <= INT64_MAX.
Proof.
  unfold round_values. destruct (r_io e); try discriminate.
  intros H. injection H as <- _. apply round_rtt_le_max.
Qed.

Lemma round_failed_values (e : round_env) :
  round_failed e = true <-> round_values e = None.
Proof.
  unfold round_failed, round_values.
  destruct (r_io e); split; intros H;
    try reflexivity; try discriminate.
Qed.

(** Rounds that fail are skipped without disturbing the choice: as soon
    as one round succeeds with an [rtt] below [INT64_MAX], the function
    returns the offset of the first of the successful rounds whose
    [rtt] is the smallest. *)
Theorem sync_skips_failed_rounds (env : nat -> round_env) (k : nat)
        (rk ok : Z) :
  (k < SYNC_ROUNDS)%nat ->
  round_values (env k) = Some (rk, ok) ->
  rk < INT64_MAX ->
  exists b r o,
    (b < SYNC_ROUNDS)%nat /\
    round_values (env b) = Some (r, o) /\
    synchronize_clocks true env = Some o /\
    (forall j r' o', (j < SYNC_ROUNDS)%nat ->
                     round_values (env j) = Some (r', o') -> r <= r') /\
    (forall j r' o', (j < b)%nat ->
                     round_values (env j) = Some (r', o') -> r < r').
Proof.
  intros Hk Hvk Hrk.
  destruct (synchronize_clocks_best env) as (Hinv & Hb & Hres).
  set (st := sync_loop SYNC_ROUNDS 0 env sync_init) in *.
  destruct Hinv as (_ & _ & Hmin & Hbest).
  pose proof (Hmin k rk ok Hk Hvk) as Hle.
  destruct Hbest as [[Hm _] | (_ & [o Hbo] & Hfirst)]; [lia|].
  exists (best_round st), (min_rtt st), o. rewrite Hbo in Hres.
  split; [exact Hb | split; [exact Hbo | split; [exact Hres | split]]].
  - exact Hmin.
  - exact Hfirst.
Qed.

Lemma sync_skips_failed_rounds_example :
  exists b r o,
    (b < SYNC_ROUNDS)%nat /\
    round_values
      ((fun i => if (i =? 4)%nat then ideal_round 30 7 1000
                 else {| r_t1 := 0; r_io := RecvFailed |}) b) = Some (r, o) /\
    synchronize_clocks true
      (fun i => if (i =? 4)%nat then ideal_round 30 7 1000
                else {| r_t1 := 0; r_io := RecvFailed |}) = Some o /\
    (forall j r' o', (j < SYNC_ROUNDS)%nat ->
       round_values
         ((fun i => if (i =? 4)%nat then ideal_round 30 7 1000
                    else {| r_t1 := 0; r_io := RecvFailed |}) j)
       = Some (r', o') -> r <= r') /\
    (forall j r' o', (j < b)%nat ->
       round_values
         ((fun i => if (i =? 4)%nat then ideal_round 30 7 1000
                    else {| r_t1 := 0; r_io := RecvFailed |}) j)
       = Some (r', o') -> r < r').
Proof.
  apply (sync_skips_failed_rounds
           (fun i => if (i =? 4)%nat then ideal_round 30 7 1000
                     else {| r_t1 := 0; r_io := RecvFailed |})
           4 60 7).
  - unfold SYNC_ROUNDS. lia.
  - reflexivity.
  - unfold INT64_MAX. lia.
Defined.

(** The returned value is indeterminate exactly when round 0 fails and
    no round succeeds with an [rtt] below [INT64_MAX]: the cell read at
    the end is then [offsets[0]], which was never written. *)
Theorem sync_indeterminate_iff (env : nat -> round_env) :
  synchronize_clocks true env = None <->
  round_failed (env 0%nat) = true /\
  forall j r o, (j < SYNC_ROUNDS)%nat ->
                round_values (env j) = Some (r, o) -> r = INT64_MAX.
Proof.
  destruct (synchronize_clocks_best env) as (Hinv & Hb & Hres).
  set (st := sync_loop SYNC_ROUNDS 0 env sync_init) in *.
  destruct Hinv as (_ & _ & Hmin & Hbest).
  destruct (min_rtt_inv_loop env SYNC_ROUNDS 0 sync_init) as [_ Hor];
    [cbn [sync_init min_rtt best_round]; split; [lia | right; reflexivity]|].
  fold st in Hor.
  rewrite Hres. split.
  - intros Hnone.
    destruct Hbest as [[Hm H0] | (_ & [o Hbo] & _)];
      [| rewrite Hbo in Hnone; discriminate].
    rewrite H0 in Hnone. split.
    + apply round_failed_values.
      destruct (round_values (env 0%nat)); [discriminate | reflexivity].
    + intros j r o Hj Hv. pose proof (Hmin j r o Hj Hv).
      pose proof (round_values_rtt_le _ _ _ Hv). lia.
  - intros [Hf Hall]. apply round_failed_values in Hf.
    destruct Hor as [Hlt | H0].
    + destruct Hbest as [[Hm _] | (_ & [o Hbo] & _)]; [lia|].
      specialize (Hall _ _ _ Hb Hbo). lia.
    + rewrite H0, Hf. reflexivity.
Qed.

Lemma sync_packet_spec (i : nat) (t1 : Z) :
  (i < SYNC_ROUNDS)%nat ->
  length (sync_packet i t1) = 48%nat /\
  seq_num (sync_packet i t1) = 2 ^ 32 - 1 - Z.of_nat i /\
  client_send (sync_packet i t1) = to_u64 t1 /\
  packet_size (sync_packet i t1) = 48.
Proof.
  intros Hi. unfold SYNC_ROUNDS in Hi.
  assert (Hseq : seq_num (sync_packet i t1) = 2 ^ 32 - 1 - Z.of_nat i).
  { rewrite seq_num_sync_packet, sync_seq_num_value by lia.
    apply to_u64_small. lia. }
  unfold sync_packet, set_client_send, set_packet_size, set_seq_num,
    client_send, packet_size, sizeof_packet_t, OFF_client_send,
    OFF_packet_size, OFF_seq_num in *.
  set (v := sync_seq_num (Z.of_nat i)) in *.
  assert (H0 : length (repeat 0 (Z.to_nat 48)) = 48%nat)
    by (rewrite repeat_length; reflexivity).
  assert (H1 : length (store 8 (repeat 0 (Z.to_nat 48)) 0 v) = 48%nat)
    by (rewrite length_store; lia).
  assert (H2 : length (store 4 (store 8 (repeat 0 (Z.to_nat 48)) 0 v) 40 48)
               = 48%nat)
    by (rewrite length_store; lia).
  split; [rewrite length_store; lia | split; [exact Hseq | split]].
  - apply load_store_same. lia.
  - rewrite load_store_other by lia. rewrite load_store_same by lia.
    reflexivity.
Qed.

Lemma firstn_stamp_prefix (buf h : list Z) (now1 now2 : Z) :
  (32 <= length h <= length buf)%nat ->
  firstn (length h) (stamp (write buf 0 h) now1 now2) = stamp h now1 now2.
Proof.
  intros Hlen.
  assert (Hb : length (write buf 0 h) = length buf)
    by (apply length_write_prefix; lia).
  destruct (stamp_spec (write buf 0 h) now1 now2 ltac:(lia)) as (Hl1 & _).
  destruct (stamp_spec h now1 now2 ltac:(lia)) as (Hl2 & _).
  apply list_eq_nth.
  - rewrite length_firstn, Hl1, Hl2, Hb. lia.
  - intros k Hk. rewrite length_firstn, Hl1, Hb in Hk.
    rewrite nth_firstn. destruct (Nat.ltb_spec k (length h)); [|lia].
    rewrite !nth_stamp by lia.
    destruct ((24 <=? k) && (k <? 32))%nat; [reflexivity|].
    destruct ((16 <=? k) && (k <? 24))%nat; [reflexivity|].
    apply nth_write_prefix. lia.
Qed.

Lemma udp_server_step_whole (buf dgram : list Z) (now1 now2 : Z) :
  length buf = Z.to_nat MAX_PACKET_SIZE ->
  (48 <= length dgram <= Z.to_nat MAX_PACKET_SIZE)%nat ->
  packet_size dgram = Z.of_nat (length dgram) ->
  snd (udp_server_step buf (Datagram dgram) now1 now2) =
  UdpEcho (Z.of_nat (length dgram)) (stamp dgram now1 now2).
Proof.
  intros Hbuf Hlen Hps.
  assert (Hne : dgram <> [])
    by (destruct dgram; [cbn [length] in Hlen; lia | discriminate]).
  rewrite udp_server_step_datagram by exact Hne. cbv zeta. cbn [snd].
  rewrite (firstn_all2 dgram) by lia.
  assert (Hw : length (write buf 0 dgram) = length buf)
    by (apply length_write_prefix; lia).
  destruct (stamp_spec (write buf 0 dgram) now1 now2 ltac:(lia))
    as (_ & Hsame & _).
  assert (Hsize : packet_size (stamp (write buf 0 dgram) now1 now2)
                  = Z.of_nat (length dgram)).
  { rewrite <- Hps. unfold packet_size, OFF_packet_size.
    apply load_ext. intros k Hk. rewrite Hsame by lia.
    apply nth_write_prefix. lia. }
  rewrite Hsize, Nat2Z.id. f_equal.
  apply firstn_stamp_prefix. lia.
Qed.

(** Either server answers the synchronisation packet of a round with
    the same 48 bytes: the packet as sent, with [server_recv] and
    [server_send] set to the two readings of the server clock; the tag
    and the client's [t1] come back unchanged. *)
Theorem servers_answer_sync_packet (i : nat) (t1 : Z)
        (tcp_buf udp_buf : list Z) (q : list arrival) (now1 now2 : Z) :
  (i < SYNC_ROUNDS)%nat ->
  (48 <= length tcp_buf)%nat ->
  length udp_buf = Z.to_nat MAX_PACKET_SIZE ->
  let out := stamp (sync_packet i t1) now1 now2 in
  (exists buf',
     tcp_server_step tcp_buf (Segment (sync_packet i t1) :: q) now1 now2
     = TcpSyncEcho buf' out q) /\
  snd (udp_server_step udp_buf (Datagram (sync_packet i t1)) now1 now2)
  = UdpEcho 48 out /\
  length out = 48%nat /\
  seq_num out = 2 ^ 32 - 1 - Z.of_nat i /\
  client_send out = to_u64 t1 /\
  server_recv out = to_u64 now1 /\
  server_send out = to_u64 now2.
Proof.
  intros Hi Htcp Hudp out.
  destruct (sync_packet_spec i t1 Hi) as (Hlen & Hseq & Hcs & Hps).
  set (h := sync_packet i t1) in *.
  destruct (stamp_spec h now1 now2 ltac:(lia)) as (Hlo & Hsame & Hr & Hs).
  fold out in Hlo, Hsame, Hr, Hs.
  split; [|split; [|split; [|split; [|split; [|split]]]]].
  - unfold tcp_server_step, sizeof_packet_t.
    change (Z.to_nat 48) with 48%nat.
    rewrite recv_segment_fits by lia. rewrite Hlen.
    destruct (Z.leb_spec (Z.of_nat 48) 0) as [H0|_]; [lia|].
    assert (Hseq' : seq_num (write tcp_buf 0 h) = seq_num h).
    { unfold seq_num, OFF_seq_num. apply load_ext. intros k Hk.
      apply nth_write_prefix. lia. }
    rewrite Hseq'.
    assert (Hsync : is_sync_seq (seq_num h) = true)
      by (apply is_sync_seq_threshold; unfold SYNC_ROUNDS in Hi; lia).
    rewrite Hsync. eexists. f_equal.
  - rewrite udp_server_step_whole.
    + rewrite Hlen. reflexivity.
    + exact Hudp.
    + rewrite Hlen. unfold MAX_PACKET_SIZE. lia.
    + rewrite Hps, Hlen. reflexivity.
  - rewrite Hlo. exact Hlen.
  - rewrite <- Hseq. unfold seq_num, OFF_seq_num. apply load_ext.
    intros k Hk. apply Hsame. lia.
  - rewrite <- Hcs. unfold client_send, OFF_client_send. apply load_ext.
    intros k Hk. apply Hsame. lia.
  - exact Hr.
  - exact Hs.
Qed.

Lemma servers_answer_sync_packet_example :
  snd (udp_server_step (repeat 0 (Z.to_nat MAX_PACKET_SIZE))
                       (Datagram (sync_packet 2 1000)) 1107 1108)
  = UdpEcho 48 (stamp (sync_packet 2 1000) 1107 1108).
Proof.
  destruct (servers_answer_sync_packet
              2 1000 Scenario.packet64 (repeat 0 (Z.to_nat MAX_PACKET_SIZE))
              [] 1107 1108) as (_ & H & _).
  - unfold SYNC_ROUNDS. lia.
  - vm_compute. lia.
  - apply repeat_length.
  - exact H.
Defined.

End SyncRounds.

(* ================================================================== *)
(** * Datagram runs on any channel *)

Section UdpAnyChannel.
Import C Packet Net Client Stats Channel.

Variables (ts : bool) (clock_offset : Z) (env : udp_env).

(** An iteration records nothing, or one sample whose sequence number
    is that of the iteration. *)
Lemma udp_iter_samples (st : client_state) (i : nat) :
  samples (udp_client_iter ts clock_offset env st i) = samples st \/
  exists s,
    samples (udp_client_iter ts clock_offset env st i) = samples st ++ [s] /\
    s_seq_num s = Z.of_nat i + 1.
Proof.
  unfold udp_client_iter.
  destruct (channel env i _) as [|d]; [left; reflexivity|].
  destruct (recvfrom _ _ d) as [n p].
  destruct (n <=? 0); [left; reflexivity|].
  destruct (validate_packet (set_client_recv p (now_recv env i)));
    [|left; reflexivity].
  destruct (Z.eqb_spec (seq_num (set_client_recv p (now_recv env i)))
                       (Z.of_nat i + 1)) as [E|E];
    [|left; reflexivity].
  right. eexists. split; [reflexivity|]. exact E.
Qed.

Lemma sorted_snoc (l : list Z) (x : Z) :
  StronglySorted Z.lt l -> Forall (fun y => y < x) l ->
  StronglySorted Z.lt (l ++ [x]).
Proof.
  intros Hs Hall. induction Hs as [|a l Hs IH Ha]; cbn [app].
  - constructor; constructor.
  - inversion Hall as [|? ? Hax Hall']; subst.
    constructor; [apply IH; exact Hall'|].
    apply Forall_app. split; [exact Ha | constructor; [exact Hax | constructor]].
Qed.

Lemma udp_loop_send_order (p0 : list Z) (n : nat) :
  let st := fold_left (udp_client_iter ts clock_offset env) (seq 0 n)
                      {| packet := p0; samples := [] |} in
  StronglySorted Z.lt (map s_seq_num (samples st)) /\
  Forall (fun s => 1 <= s_seq_num s <= Z.of_nat n) (samples st) /\
  (length (samples st) <= n)%nat.
Proof.
  induction n as [|n IH]; intros st.
  - subst st. cbn. repeat split; constructor.
  - subst st. rewrite fold_left_seq_S.
    destruct IH as (Hs & Hall & Hlen).
    set (stn := fold_left (udp_client_iter ts clock_offset env) (seq 0 n)
                          {| packet := p0; samples := [] |}) in *.
    destruct (udp_iter_samples stn n) as [-> | (s & -> & Hseq)].
    + split; [exact Hs | split; [|lia]].
      eapply Forall_impl; [|exact Hall]. cbn beta. intros a Ha. lia.
    + rewrite map_app, length_app. cbn [map length]. split; [|split; [|lia]].
      * apply sorted_snoc; [exact Hs|].
        apply Forall_map. eapply Forall_impl; [|exact Hall].
        cbn beta. intros a Ha. lia.
      * apply Forall_app. split.
        -- eapply Forall_impl; [|exact Hall]. cbn beta. intros a Ha. lia.
        -- constructor; [lia | constructor].
Qed.

End UdpAnyChannel.

Section UdpBoundedChannel.
Import C Packet Net Client Stats Channel.

Variables (ts : bool) (clock_offset : Z) (env : udp_env) (size : Z).
Hypothesis env_fits : within_buffer size env.

Lemma bounded_header_change (p p' : list Z) :
  bounded size p ->
  length p' = length p ->
  (forall k, (40 <= k)%nat -> nth k p' 0 = nth k p 0) ->
  bounded size p'.
Proof.
  intros (Hlen & Hps) Hl Hsame. unfold bounded.
  split; [rewrite Hl; exact Hlen|].
  replace (packet_size p') with (packet_size p); [exact Hps|].
  unfold packet_size, OFF_packet_size. apply load_ext.
  intros k Hk. symmetry. apply Hsame. lia.
Qed.

(** A datagram that fits, received into a bounded buffer with the
    declared size as the length, leaves the buffer bounded: nothing is
    written past the allocation, and the size declared stays within
    it. *)
Lemma recvfrom_bounded (p d : list Z) :
  bounded size p -> fits size d ->
  bounded size (snd (recvfrom p (Z.to_nat (packet_size p)) (Datagram d))).
Proof.
  intros (Hlen & Hps) Hfit. unfold recvfrom. cbn [snd].
  set (len := Z.to_nat (packet_size p)).
  set (data := firstn len d).
  assert (Hdata : length data = Nat.min len (length d))
    by (unfold data; apply length_firstn).
  assert (Hw : length (write p 0 data) = length p)
    by (apply length_write_prefix; lia).
  unfold bounded. split; [rewrite Hw; exact Hlen|].
  destruct Hfit as [Hshort | (Hlong & Hd)].
  - replace (packet_size (write p 0 data)) with (packet_size p);
      [exact Hps|].
    unfold packet_size, OFF_packet_size. apply load_ext.
    intros k Hk. symmetry. apply nth_write_other; lia.
  - replace (packet_size (write p 0 data)) with (packet_size d);
      [exact Hd|].
    unfold packet_size, OFF_packet_size. apply load_ext.
    intros k Hk. rewrite nth_write_prefix by lia.
    unfold data. rewrite nth_firstn.
    destruct (Nat.ltb_spec k len); [reflexivity | lia].
Qed.

Lemma udp_iter_bounded (st : client_state) (i : nat) :
  bounded size (packet st) ->
  bounded size (packet (udp_client_iter ts clock_offset env st i)).
Proof.
  intros Hb. pose proof Hb as (Hlen & Hps).
  set (p1 := prepare (packet st) i (now_send env i)).
  destruct (prepare_spec (packet st) i (now_send env i) ltac:(lia))
    as (Hl1 & Hsame1 & _). fold p1 in Hl1, Hsame1.
  assert (Hb1 : bounded size p1).
  { apply (bounded_header_change (packet st)); [exact Hb | exact Hl1|].
    intros k Hk. apply Hsame1. lia. }
  unfold udp_client_iter. fold p1.
  destruct (channel env i (firstn (Z.to_nat (packet_size p1)) p1))
    as [|[d|]] eqn:Hch.
  - exact Hb1.
  - assert (Hfit : fits size d).
    { pose proof Hb1 as (Hlen1 & Hps1).
      assert (Hn : (44 <= Z.to_nat (packet_size p1) <= length p1)%nat)
        by lia.
      assert (Hz : Z.of_nat (Z.to_nat (packet_size p1)) = packet_size p1)
        by lia.
      revert Hch. generalize (Z.to_nat (packet_size p1)) Hn Hz.
      intros n Hn' Hz' Hch.
      apply (env_fits i (firstn n p1)); [| | exact Hch].
      - rewrite length_firstn. lia.
      - rewrite length_firstn.
        replace (Nat.min n (length p1)) with n by lia.
        rewrite Hz'.
        unfold packet_size, OFF_packet_size.
        apply load_ext. intros k Hk. rewrite nth_firstn.
        destruct (Nat.ltb_spec k n); [reflexivity | lia]. }
    pose proof (recvfrom_bounded p1 d Hb1 Hfit) as Hb2.
    destruct (recvfrom p1 (Z.to_nat (packet_size p1)) (Datagram d))
      as [n b] eqn:Hrecv. cbn [snd] in Hb2.
    destruct (n <=? 0); [exact Hb2|].
    pose proof Hb2 as (Hlen2 & _).
    destruct (set_client_recv_spec b (now_recv env i) ltac:(lia))
      as (Hl' & Hsame' & _).
    assert (Hb' : bounded size (set_client_recv b (now_recv env i))).
    { apply (bounded_header_change b); [exact Hb2 | exact Hl'|].
      intros k Hk. apply Hsame'. lia. }
    destruct (negb (validate_packet (set_client_recv b (now_recv env i)))
              || negb (seq_num (set_client_recv b (now_recv env i))
                       =? Z.of_nat i + 1)); exact Hb'.
  - cbn [recvfrom]. exact Hb1.
Qed.

Lemma udp_loop_bounded (p0 : list Z) (n : nat) :
  bounded size p0 ->
  bounded size
    (packet (fold_left (udp_client_iter ts clock_offset env) (seq 0 n)
                       {| packet := p0; samples := [] |})).
Proof.
  intros Hb. induction n as [|n IH].
  - exact Hb.
  - rewrite fold_left_seq_S. apply udp_iter_bounded. exact IH.
Qed.

End UdpBoundedChannel.

Section UdpRunFacts.
Import C Packet Net Client Stats Channel.

(** On a datagram channel that loses packets, fails to send, or
    delivers any replies that fit the buffer, the run never passes a
    length beyond its allocation to [sendto] or [recvfrom], and its
    samples are recorded in the order of sending: their sequence numbers
    increase strictly and lie between 1 and the number of packets, so no
    more samples than packets are recorded and the loss reported lies
    between 0 and 100. *)
Theorem udp_samples_in_send_order (cfg : config) (clock_offset : Z)
        (env : udp_env) (out : run_output) :
  0 <= num_packets cfg ->
  0 <= cfg_packet_size cfg <= INT_MAX ->
  within_buffer (Z.max (cfg_packet_size cfg) sizeof_packet_t) env ->
  run_udp_client cfg clock_offset env = Some out ->
  (exists p,
     create_packet (cfg_packet_size cfg) = Some p /\
     forall n,
       bounded (Z.of_nat (length p))
         (packet (fold_left
                    (udp_client_iter (time_sync cfg) clock_offset env)
                    (seq 0 n) {| packet := p; samples := [] |}))) /\
  StronglySorted Z.lt (map s_seq_num (recorded out)) /\
  Forall (fun s => 1 <= s_seq_num s <= num_packets cfg) (recorded out) /\
  Z.of_nat (length (recorded out)) <= num_packets cfg /\
  (forall s, report out = Some s ->
             (0 <= loss_pct s <= 100)%Q).
Proof.
  intros Hn Hsize Hfit Hrun. unfold run_udp_client in Hrun.
  destruct (create_packet_nonneg (cfg_packet_size cfg) Hsize)
    as (p & Hp & Hwf).
  rewrite Hp in Hrun. injection Hrun as <-. cbn [recorded report].
  pose proof Hwf as (Hsz & Hlen & Hps & _).
  unfold sizeof_packet_t in Hsz.
  assert (Hsize' : Z.of_nat (length p)
                   = Z.max (cfg_packet_size cfg) sizeof_packet_t)
    by (rewrite Hlen; lia).
  split.
  - exists p. split; [exact Hp|]. intros n.
    rewrite Hsize'. apply udp_loop_bounded; [exact Hfit|].
    split; [exact Hlen | rewrite Hps; unfold sizeof_packet_t; lia].
  - destruct (udp_loop_send_order (time_sync cfg) clock_offset env p
                                  (Z.to_nat (num_packets cfg)))
      as (Hs & Hall & Hlen').
    set (st := fold_left (udp_client_iter (time_sync cfg) clock_offset env)
                         (seq 0 (Z.to_nat (num_packets cfg)))
                         {| packet := p; samples := [] |}) in *.
    split; [exact Hs | split; [|split; [lia|]]].
    + eapply Forall_impl; [|exact Hall]. cbn beta. intros a Ha. lia.
    + intros s Hrep.
      destruct (samples st) as [|s0 rest] eqn:Est; [discriminate|].
      destruct (summarize_nonempty (num_packets cfg) (s0 :: rest))
        as (s' & Hs' & _ & _ & _ & _ & Hloss); [discriminate|].
      rewrite Hs' in Hrep. injection Hrep as <-. rewrite Hloss.
      apply packet_loss_range; cbn [length] in *; lia.
Qed.

(** A channel that answers with faithful echoes or not at all keeps
    within any buffer. *)
Lemma lossy_channel_within_buffer (size : Z) (ns nr : nat -> Z)
      (srv_recv srv_send : nat -> Z) :
  within_buffer size
    {| now_send := ns; now_recv := nr;
       channel := lossy_channel srv_recv srv_send |}.
Proof.
  intros i sent d Hlen Hps Hch. cbn [channel] in Hch.
  unfold lossy_channel in Hch.
  destruct ((Z.of_nat i + 1) mod 3 =? 0); [discriminate|].
  injection Hch as <-. unfold faithful_echo.
  destruct (stamp_spec sent (srv_recv i) (srv_send i) ltac:(lia))
    as (Hl & Hsame & _).
  right. split; [lia|].
  replace (packet_size (Server.stamp sent (srv_recv i) (srv_send i)))
    with (packet_size sent); [lia|].
  unfold packet_size, OFF_packet_size. apply load_ext.
  intros k Hk. symmetry. apply Hsame. lia.
Qed.

Lemma udp_samples_in_send_order_example :
  exists out,
    run_udp_client Scenario.config5 0 Scenario.lossy_env = Some out /\
    StronglySorted Z.lt (map s_seq_num (recorded out)) /\
    Forall (fun s => 1 <= s_seq_num s <= 5) (recorded out).
Proof.
  eexists. split; [reflexivity|].
  destruct (udp_samples_in_send_order
              Scenario.config5 0 Scenario.lossy_env _
              ltac:(cbn; lia) ltac:(cbn; unfold INT_MAX; lia)
              (lossy_channel_within_buffer _ _ _ _ _) eq_refl)
    as (_ & Hs & Hall & _).
  split; [exact Hs | exact Hall].
Defined.

End UdpRunFacts.

(* ================================================================== *)
(** * A damaged reply and the reused buffer *)

Section DamagedReply.
Import C Packet Net Client Stats Channel.

Variables (ts : bool) (clock_offset : Z) (env : udp_env).

Lemma validate_corrupted (size : Z) (p : list Z) :
  corrupted size p -> validate_packet p = false.
Proof.
  intros (Hsz & _ & Hps & j & Hj & Hne). unfold validate_packet.
  rewrite Hps. destruct (Z.ltb_spec size sizeof_packet_t); [reflexivity|].
  apply (validate_loop_false _ _ 0%nat j); [lia | exact Hne].
Qed.

Lemma corrupted_header_change (size : Z) (p p' : list Z) :
  corrupted size p ->
  length p' = length p ->
  (forall k, (40 <= k)%nat -> nth k p' 0 = nth k p 0) ->
  corrupted size p'.
Proof.
  intros (Hsz & Hlen & Hps & j & Hj & Hne) Hl Hsame. unfold corrupted.
  split; [exact Hsz | split; [rewrite Hl; exact Hlen | split]].
  - rewrite <- Hps. unfold packet_size. apply load_ext.
    intros k Hk. apply Hsame. unfold OFF_packet_size in Hk. lia.
  - exists j. split; [exact Hj|]. unfold payload in *.
    rewrite Hsame by (unfold OFF_payload; lia). exact Hne.
Qed.

Lemma prepare_corrupted (size : Z) (p : list Z) (i : nat) (now : Z) :
  corrupted size p -> corrupted size (prepare p i now).
Proof.
  intros Hc. pose proof Hc as (Hsz & Hlen & _).
  unfold sizeof_packet_t in Hsz.
  destruct (prepare_spec p i now ltac:(lia)) as (Hl & Hsame & _).
  apply (corrupted_header_change size p); [exact Hc | exact Hl|].
  intros k Hk. apply Hsame. lia.
Qed.

(** Once the buffer is corrupted, an iteration on a well-behaved
    channel leaves it corrupted and records nothing. *)
Lemma corrupted_iter (size : Z) (st : client_state) (i : nat) :
  corrupted size (packet st) ->
  well_behaved env i ->
  corrupted size (packet (udp_client_iter ts clock_offset env st i)) /\
  samples (udp_client_iter ts clock_offset env st i) = samples st.
Proof.
  intros Hc Hwb.
  set (p1 := prepare (packet st) i (now_send env i)).
  assert (Hc1 : corrupted size p1) by (apply prepare_corrupted; exact Hc).
  pose proof Hc1 as (Hsz & Hlen1 & Hps1 & _).
  unfold sizeof_packet_t in Hsz.
  unfold udp_client_iter. fold p1.
  destruct (Hwb (firstn (Z.to_nat (packet_size p1)) p1))
    as [-> | [-> | (t2 & t3 & ->)]].
  - split; [exact Hc1 | reflexivity].
  - cbn [recvfrom]. split; [exact Hc1 | reflexivity].
  - rewrite Hps1.
    assert (Hfirst : firstn (Z.to_nat size) p1 = p1)
      by (apply firstn_all2; lia).
    rewrite Hfirst. set (e := faithful_echo p1 t2 t3).
    destruct (stamp_spec p1 t2 t3 ltac:(lia)) as (Hle & Hsame_e & _).
    fold (faithful_echo p1 t2 t3) in Hle, Hsame_e. fold e in Hle, Hsame_e.
    assert (Hce : corrupted size e).
    { apply (corrupted_header_change size p1); [exact Hc1 | exact Hle|].
      intros k Hk. apply Hsame_e. lia. }
    unfold recvfrom.
    assert (Hfe : firstn (Z.to_nat size) e = e) by (apply firstn_all2; lia).
    rewrite Hfe, write_whole by lia.
    destruct (Z.leb_spec (Z.of_nat (Nat.min (length e) (Z.to_nat size))) 0)
      as [H0|_]; [lia|].
    set (p' := set_client_recv e (now_recv env i)).
    destruct (set_client_recv_spec e (now_recv env i) ltac:(lia))
      as (Hl' & Hsame' & _). fold p' in Hl', Hsame'.
    assert (Hc' : corrupted size p').
    { apply (corrupted_header_change size e); [exact Hce | exact Hl'|].
      intros k Hk. apply Hsame'. lia. }
    rewrite (validate_corrupted size p' Hc'). cbn [negb orb packet samples].
    split; [exact Hc' | reflexivity].
Qed.

Lemma corrupted_loop (size : Z) (l : list nat) :
  forall st,
  corrupted size (packet st) ->
  (forall i, In i l -> well_behaved env i) ->
  samples (fold_left (udp_client_iter ts clock_offset env) l st)
  = samples st.
Proof.
  induction l as [|i l IH]; intros st Hc Hwb; cbn [fold_left];
    [reflexivity|].
  destruct (corrupted_iter size st i Hc (Hwb i (or_introl eq_refl)))
    as (Hc' & Hs').
  rewrite IH; [exact Hs' | exact Hc'|].
  intros k Hk. apply Hwb. right. exact Hk.
Qed.

(** A reply with one damaged payload byte is rejected, and because the
    reply has already replaced the contents of the buffer the client
    sends from, the damage goes out with every later packet: whatever
    the channel does afterwards, short of damaging replies again, no
    later iteration records a sample. *)
Theorem damaged_reply_ends_all_sampling (size : Z) (st : client_state)
        (i : nat) (t2 t3 : Z) (j : nat) (b : Z) (later : list nat) :
  well_formed size (packet st) ->
  (j < Z.to_nat (size - sizeof_packet_t))%nat ->
  b <> Z.of_nat j mod 256 ->
  (forall sent,
      channel env i sent = Sent (Datagram (damaged_echo sent t2 t3 j b))) ->
  (forall k, In k later -> well_behaved env k) ->
  samples (fold_left (udp_client_iter ts clock_offset env) (i :: later) st)
  = samples st.
Proof.
  intros Hwf Hj Hb Hch Hlater. cbn [fold_left].
  set (p1 := prepare (packet st) i (now_send env i)).
  assert (Hwf1 : well_formed size p1)
    by (apply prepare_well_formed; exact Hwf).
  pose proof Hwf1 as (Hsz & Hlen1 & Hps1 & Hpat1).
  unfold sizeof_packet_t in Hsz, Hj.
  set (e := faithful_echo p1 t2 t3).
  destruct (stamp_spec p1 t2 t3 ltac:(lia)) as (Hle & Hsame_e & _).
  fold (faithful_echo p1 t2 t3) in Hle, Hsame_e. fold e in Hle, Hsame_e.
  set (d := damaged_echo p1 t2 t3 j b).
  assert (Hld : length d = length p1).
  { unfold d, damaged_echo, set_payload. fold e.
    rewrite length_write; [exact Hle | cbn [length]; unfold OFF_payload; lia]. }
  assert (Hcd : corrupted size d).
  { unfold corrupted, sizeof_packet_t.
    split; [exact Hsz | split; [lia | split]].
    - rewrite <- Hps1. unfold packet_size, OFF_packet_size. apply load_ext.
      intros k Hk. unfold d, damaged_echo, set_payload. fold e.
      rewrite nth_write_other by (unfold OFF_payload; cbn [length]; lia).
      apply Hsame_e. lia.
    - exists j. split; [exact Hj|]. unfold payload, d, damaged_echo,
        set_payload. fold e. rewrite nth_write by (unfold OFF_payload; lia).
      cbn [length].
      destruct (Nat.leb_spec (OFF_payload + j) (OFF_payload + j)); [|lia].
      destruct (Nat.ltb_spec (OFF_payload + j) (OFF_payload + j + 1)); [|lia].
      cbn [andb]. rewrite Nat.sub_diag. cbn [nth]. exact Hb. }
  set (p' := set_client_recv d (now_recv env i)).
  destruct (set_client_recv_spec d (now_recv env i) ltac:(lia))
    as (Hl' & Hsame' & _). fold p' in Hl', Hsame'.
  assert (Hc' : corrupted size p').
  { apply (corrupted_header_change size d); [exact Hcd | exact Hl'|].
    intros k Hk. apply Hsame'. lia. }
  assert (Hstep : udp_client_iter ts clock_offset env st i
                  = {| packet := p'; samples := samples st |}).
  { unfold udp_client_iter. fold p1. rewrite Hch, Hps1.
    assert (Hfirst : firstn (Z.to_nat size) p1 = p1)
      by (apply firstn_all2; lia).
    rewrite Hfirst. fold d. unfold recvfrom.
    assert (Hfd : firstn (Z.to_nat size) d = d) by (apply firstn_all2; lia).
    rewrite Hfd, write_whole by lia.
    destruct (Z.leb_spec (Z.of_nat (Nat.min (length d) (Z.to_nat size))) 0)
      as [H0|_]; [lia|].
    fold p'. rewrite (validate_corrupted size p' Hc'). reflexivity. }
  rewrite Hstep.
  rewrite (corrupted_loop size later); [reflexivity | exact Hc' | exact Hlater].
Qed.

End DamagedReply.

Section DamagedReplyExample.
Import C Packet Net Client Stats Channel.

Lemma damaged_reply_ends_all_sampling_example :
  samples (fold_left (udp_client_iter false 0 one_damaged_reply)
                     [2; 3; 4; 5]%nat
                     {| packet := Scenario.packet64; samples := [] |})
  = [].
Proof.
  apply (damaged_reply_ends_all_sampling
           false 0 one_damaged_reply 64
           {| packet := Scenario.packet64; samples := [] |}
           2 2120 2120 5 255 [3; 4; 5]%nat).
  - unfold well_formed, sizeof_packet_t.
    repeat split; try reflexivity; try lia.
    intros j Hj. do 16 (destruct j as [|j]; [reflexivity|]).
    simpl in Hj. lia.
  - simpl. lia.
  - cbn. discriminate.
  - intros sent. reflexivity.
  - intros k Hk sent. right. right.
    exists (1000 * Z.of_nat k + 120), (1000 * Z.of_nat k + 120).
    cbn [one_damaged_reply channel].
    destruct Hk as [<-|[<-|[<-|[]]]]; reflexivity.
Defined.

End DamagedReplyExample.

(* ================================================================== *)
(** * The stream server on whole packets *)

Section StreamServerFacts.
Import C Packet Net Server Session Stream.

Lemma write_header_then_rest (buf w : list Z) :
  (48 < length w <= length buf)%nat ->
  write (write buf 0 (firstn 48 w)) 48 (skipn 48 w) = write buf 0 w.
Proof.
  intros H.
  assert (Hf : length (firstn 48 w) = 48%nat) by (rewrite length_firstn; lia).
  assert (Hs : length (skipn 48 w) = (length w - 48)%nat)
    by apply length_skipn.
  assert (H1 : length (write buf 0 (firstn 48 w)) = length buf)
    by (apply length_write_prefix; lia).
  apply list_eq_nth.
  - rewrite length_write by lia. rewrite H1, length_write_prefix; lia.
  - intros k Hk. rewrite !nth_write by lia. rewrite Hs, Hf.
    destruct (Nat.leb_spec 48 k); destruct (Nat.ltb_spec k (48 + (length w - 48)));
      destruct (Nat.leb_spec 0 k); destruct (Nat.ltb_spec k (0 + length w));
      destruct (Nat.ltb_spec k (0 + 48)); cbn [andb]; try lia;
      try reflexivity.
    + rewrite nth_skipn. f_equal. lia.
    + rewrite nth_firstn. destruct (Nat.ltb_spec (k - 0) 48); [|lia].
      reflexivity.
Qed.

Lemma packet_size_stamp (p : list Z) (now1 now2 : Z) :
  (32 <= length p)%nat ->
  packet_size (stamp p now1 now2) = packet_size p.
Proof.
  intros H. destruct (stamp_spec p now1 now2 H) as (_ & Hsame & _).
  unfold packet_size, OFF_packet_size. apply load_ext.
  intros k Hk. apply Hsame. lia.
Qed.

Lemma packet_size_write_prefix (buf d : list Z) :
  (44 <= length d)%nat ->
  packet_size (write buf 0 d) = packet_size d.
Proof.
  intros H. unfold packet_size, OFF_packet_size. apply load_ext.
  intros k Hk. apply nth_write_prefix. lia.
Qed.

Lemma seq_num_write_prefix (buf d : list Z) :
  (8 <= length d)%nat ->
  seq_num (write buf 0 d) = seq_num d.
Proof.
  intros H. unfold seq_num, OFF_seq_num. apply load_ext.
  intros k Hk. apply nth_write_prefix. lia.
Qed.

Lemma load_firstn (n : nat) (m : list Z) (off len : nat) :
  (off + n <= len)%nat ->
  load n (firstn len m) off = load n m off.
Proof.
  intros H. apply load_ext. intros k Hk. rewrite nth_firstn.
  destruct (Nat.ltb_spec k len); [reflexivity | lia].
Qed.

(** A bare header tagged as a synchronisation packet comes back
    stamped, and the pass does not count it. *)
Lemma tcp_server_step_sync (buf h : list Z) (q : list arrival)
      (now1 now2 : Z) :
  length h = 48%nat -> (48 <= length buf)%nat ->
  is_sync_seq (seq_num h) = true ->
  tcp_server_step buf (Segment h :: q) now1 now2
  = TcpSyncEcho (stamp (write buf 0 h) now1 now2) (stamp h now1 now2) q.
Proof.
  intros Hh Hbuf Hsync. unfold tcp_server_step, sizeof_packet_t.
  change (Z.to_nat 48) with 48%nat.
  rewrite recv_segment_fits by lia. rewrite Hh.
  destruct (Z.leb_spec (Z.of_nat 48) 0) as [H0|_]; [lia|].
  rewrite seq_num_write_prefix by lia. rewrite Hsync.
  f_equal. rewrite <- Hh. apply firstn_stamp_prefix. lia.
Qed.

(** A whole data packet delivered in one piece is read in two steps,
    header and rest, and comes back stamped and otherwise unchanged;
    nothing of it stays in the stream. *)
Lemma tcp_server_step_data (buf w : list Z) (q : list arrival)
      (now1 now2 : Z) :
  (48 <= length w <= length buf)%nat ->
  Z.of_nat (length w) < 2 ^ 31 ->
  packet_size w = Z.of_nat (length w) ->
  is_sync_seq (seq_num w) = false ->
  tcp_server_step buf (Segment w :: q) now1 now2
  = TcpDataEcho (Z.of_nat (length w)) (stamp (write buf 0 w) now1 now2)
                (stamp w now1 now2) q.
Proof.
  intros Hlen Hint Hps Hdata.
  assert (Hout : firstn (Z.to_nat (packet_size
                                     (stamp (write buf 0 w) now1 now2)))
                        (stamp (write buf 0 w) now1 now2)
                 = stamp w now1 now2).
  { rewrite packet_size_stamp by (rewrite length_write_prefix; lia).
    rewrite packet_size_write_prefix by lia. rewrite Hps, Nat2Z.id.
    apply firstn_stamp_prefix. lia. }
  unfold tcp_server_step, sizeof_packet_t.
  change (Z.to_nat 48) with 48%nat.
  destruct (Nat.eq_dec (length w) 48) as [E|E].
  - rewrite recv_segment_fits by lia. rewrite E.
    destruct (Z.leb_spec (Z.of_nat 48) 0) as [H0|_]; [lia|].
    rewrite seq_num_write_prefix by lia. rewrite Hdata.
    rewrite packet_size_write_prefix by lia. rewrite Hps, E.
    change (to_i32 (sub32 (Z.of_nat 48) (Z.of_nat 48))) with 0.
    cbn [Z.ltb Z.compare].
    destruct (Z.leb_spec (Z.of_nat 48) 0) as [H0|_]; [lia|].
    rewrite Hout. reflexivity.
  - unfold recv. destruct (Nat.leb_spec (length w) 48) as [H|_]; [lia|].
    destruct (Z.leb_spec (Z.of_nat 48) 0) as [H0|_]; [lia|].
    assert (Hf : length (firstn 48 w) = 48%nat)
      by (rewrite length_firstn; lia).
    rewrite seq_num_write_prefix by lia.
    assert (Hseq : seq_num (firstn 48 w) = seq_num w)
      by (apply load_firstn; unfold OFF_seq_num; lia).
    rewrite Hseq, Hdata.
    rewrite packet_size_write_prefix by lia.
    assert (Hps' : packet_size (firstn 48 w) = packet_size w)
      by (apply load_firstn; unfold OFF_packet_size; lia).
    rewrite Hps', Hps.
    assert (Hrem : to_i32 (sub32 (Z.of_nat (length w)) (Z.of_nat 48))
                   = Z.of_nat (length w) - 48).
    { unfold sub32. rewrite to_u32_small by lia. apply to_i32_small. lia. }
    rewrite Hrem.
    destruct (Z.ltb_spec 0 (Z.of_nat (length w) - 48)) as [_|H0]; [|lia].
    assert (Hr : length (skipn 48 w) = (length w - 48)%nat)
      by apply length_skipn.
    destruct (Nat.leb_spec (length (skipn 48 w))
                           (Z.to_nat (Z.of_nat (length w) - 48)))
      as [_|H]; [|lia].
    rewrite Hr.
    replace (Z.of_nat 48 + Z.of_nat (length w - 48))
      with (Z.of_nat (length w)) by lia.
    destruct (Z.leb_spec (Z.of_nat (length w)) 0) as [H0|_]; [lia|].
    rewrite Nat2Z.id, write_header_then_rest by lia.
    rewrite Hout. reflexivity.
Qed.

Lemma length_stamp_write (buf w : list Z) (now1 now2 : Z) :
  (32 <= length w <= length buf)%nat ->
  length (stamp (write buf 0 w) now1 now2) = length buf.
Proof.
  intros H.
  assert (Hw : length (write buf 0 w) = length buf)
    by (apply length_write_prefix; lia).
  destruct (stamp_spec (write buf 0 w) now1 now2 ltac:(lia)) as (Hl & _).
  rewrite Hl. exact Hw.
Qed.

Lemma tcp_server_step_closed (buf : list Z) (now1 now2 : Z) :
  tcp_server_step buf [] now1 now2 = TcpClosed.
Proof. reflexivity. Qed.

Lemma tcp_session_loop (clock : nat -> Z * Z) (ws : list (list Z)) :
  forall (fuel k : nat) (buf : list Z) (count : Z) (outs : list (list Z)),
  (Z.to_nat MAX_PACKET_SIZE <= length buf)%nat ->
  Forall framed ws ->
  (length ws < fuel)%nat ->
  0 <= count ->
  count + Z.of_nat (length ws) < 2 ^ 64 ->
  tcp_server_session fuel clock k buf (map Segment ws) count outs
  = Some {| echoes := outs ++ stamped clock k ws;
            packet_count := count + Z.of_nat (length (data_packets ws));
            printed_count := None |}.
Proof.
  induction ws as [|w ws IH]; intros fuel k buf count outs Hbuf Hall Hfuel
    Hc Hmax.
  - destruct fuel as [|f]; [cbn [length] in Hfuel; lia|].
    cbn [map tcp_server_session stamped data_packets filter length].
    rewrite tcp_server_step_closed, app_nil_r, Z.add_0_r. reflexivity.
  - destruct fuel as [|f]; [cbn [length] in Hfuel; lia|].
    cbn [length] in Hfuel, Hmax.
    inversion Hall as [|w' ws' (Hlen & Hkind) Hrest]; subst.
    unfold sizeof_packet_t, MAX_PACKET_SIZE in Hlen, Hbuf.
    cbn [map tcp_server_session stamped data_packets filter].
    fold (data_packets ws).
    destruct (is_sync_seq (seq_num w)) eqn:Hs.
    + unfold sizeof_packet_t in Hkind.
      rewrite tcp_server_step_sync by (try exact Hs; lia).
      cbn [negb].
      rewrite IH.
      * rewrite <- app_assoc. reflexivity.
      * rewrite length_stamp_write by lia.
        unfold MAX_PACKET_SIZE. lia.
      * exact Hrest.
      * lia.
      * exact Hc.
      * lia.
    + rewrite tcp_server_step_data by (try exact Hs; try exact Hkind; lia).
      cbn [negb length].
      assert (Hadd : add64 count 1 = count + 1)
        by (unfold add64; apply to_u64_small; lia).
      rewrite Hadd, IH.
      * rewrite <- app_assoc. f_equal. f_equal. lia.
      * rewrite length_stamp_write by lia.
        unfold MAX_PACKET_SIZE. lia.
      * exact Hrest.
      * lia.
      * lia.
      * lia.
Qed.

(** The server's loop over one connection, on a stream that delivers
    each packet in one piece and then ends: every packet comes back, in
    order, stamped with the two readings of the server clock of its pass
    and otherwise as it was sent; synchronisation packets are answered
    but not counted, so [packet_count] ends as the number of data
    packets; and the loop ends when the stream does, by the [break]
    after the read of the header, which prints nothing: the count is
    not shown. *)
Theorem tcp_server_session_echoes (clock : nat -> Z * Z)
        (ws : list (list Z)) (buf : list Z) (fuel : nat) :
  length buf = Z.to_nat MAX_PACKET_SIZE ->
  Forall framed ws ->
  Z.of_nat (length ws) < 2 ^ 64 ->
  (length ws < fuel)%nat ->
  tcp_server_session fuel clock 0 buf (map Segment ws) 0 []
  = Some {| echoes := stamped clock 0 ws;
            packet_count := Z.of_nat (length (data_packets ws));
            printed_count := None |}.
Proof.
  intros Hbuf Hall Hmax Hfuel.
  rewrite (tcp_session_loop clock ws fuel 0 buf 0 []);
    [reflexivity | lia | exact Hall | exact Hfuel | lia | lia].
Qed.

End StreamServerFacts.

Section StreamServerExample.
Import C Packet Net Server Client Session Stream.

Lemma tcp_server_session_echoes_example :
  tcp_server_session 4 tick 0 (repeat 0 (Z.to_nat MAX_PACKET_SIZE))
                     (map Segment three_packets) 0 []
  = Some {| echoes := stamped tick 0 three_packets;
            packet_count := Z.of_nat (length (data_packets three_packets));
            printed_count := None |}.
Proof.
  apply (tcp_server_session_echoes
           tick three_packets (repeat 0 (Z.to_nat MAX_PACKET_SIZE)) 4).
  - apply repeat_length.
  - assert (Hframed : forall w,
               (48 <=? length w)%nat = true ->
               (length w <=? 64)%nat = true ->
               (if is_sync_seq (seq_num w)
                then (length w =? 48)%nat
                else packet_size w =? Z.of_nat (length w)) = true ->
               framed w).
    { intros w H1 H2 H3. apply Nat.leb_le in H1, H2.
      unfold framed, sizeof_packet_t, MAX_PACKET_SIZE.
      split; [lia|].
      destruct (is_sync_seq (seq_num w));
        [apply Nat.eqb_eq in H3 | apply Z.eqb_eq in H3]; lia. }
    unfold three_packets.
    apply Forall_cons; [apply Hframed; vm_compute; reflexivity|].
    apply Forall_cons; [apply Hframed; vm_compute; reflexivity|].
    apply Forall_cons; [apply Hframed; vm_compute; reflexivity|].
    apply Forall_nil.
  - unfold three_packets. cbn [length]. lia.
  - unfold three_packets. cbn [length]. lia.
Defined.

End StreamServerExample.

(* ================================================================== *)
(** * The stream client against a server that answers whole packets *)

Section StreamClientFacts.
Import C Packet Net Server Client Stats Session Stream.

Variables (ts : bool) (clock_offset : Z).

(** A whole packet delivered in one piece is read in two steps and
    fills the buffer. *)
Lemma tcp_client_receive_whole (p w : list Z) (q : list arrival) :
  length p = length w ->
  (48 <= length w)%nat ->
  Z.of_nat (length w) < 2 ^ 31 ->
  packet_size w = Z.of_nat (length w) ->
  tcp_client_receive p (Segment w :: q) = Received (Z.of_nat (length w)) w q.
Proof.
  intros Hp Hlen Hint Hps.
  unfold tcp_client_receive, sizeof_packet_t.
  change (Z.to_nat 48) with 48%nat.
  destruct (Nat.eq_dec (length w) 48) as [E|E].
  - rewrite recv_segment_fits by lia. rewrite E.
    destruct (Z.leb_spec (Z.of_nat 48) 0) as [H0|_]; [lia|].
    rewrite write_whole by lia. rewrite Hps, E.
    change (to_i32 (sub32 (Z.of_nat 48) (Z.of_nat 48))) with 0.
    cbn [Z.ltb Z.compare].
    destruct (Z.leb_spec (Z.of_nat 48) 0) as [H0|_]; [lia|].
    reflexivity.
  - unfold recv. destruct (Nat.leb_spec (length w) 48) as [H|_]; [lia|].
    destruct (Z.leb_spec (Z.of_nat 48) 0) as [H0|_]; [lia|].
    assert (Hf : length (firstn 48 w) = 48%nat)
      by (rewrite length_firstn; lia).
    rewrite packet_size_write_prefix by lia.
    assert (Hps' : packet_size (firstn 48 w) = packet_size w)
      by (apply load_firstn; unfold OFF_packet_size; lia).
    rewrite Hps', Hps.
    assert (Hrem : to_i32 (sub32 (Z.of_nat (length w)) (Z.of_nat 48))
                   = Z.of_nat (length w) - 48).
    { unfold sub32. rewrite to_u32_small by lia. apply to_i32_small. lia. }
    rewrite Hrem.
    destruct (Z.ltb_spec 0 (Z.of_nat (length w) - 48)) as [_|H0]; [|lia].
    assert (Hr : length (skipn 48 w) = (length w - 48)%nat)
      by apply length_skipn.
    destruct (Nat.leb_spec (length (skipn 48 w))
                           (Z.to_nat (Z.of_nat (length w) - 48)))
      as [_|H]; [|lia].
    rewrite Hr.
    replace (Z.of_nat 48 + Z.of_nat (length w - 48))
      with (Z.of_nat (length w)) by lia.
    destruct (Z.leb_spec (Z.of_nat (length w)) 0) as [H0|_]; [lia|].
    rewrite Nat2Z.id, write_header_then_rest by lia.
    rewrite write_whole by lia. reflexivity.
Qed.

(** An iteration that finds the faithful echo of its packet on the
    stream takes the sample of that echo and leaves the stream empty. *)
Lemma tcp_iter_echo (size : Z) (p : list Z) (i : nat) (ns nr t2 t3 : Z) :
  well_formed size p ->
  size < 2 ^ 31 ->
  Z.of_nat i + 1 < 2 ^ 64 ->
  exists p',
    well_formed size p' /\
    tcp_client_pass ts clock_offset i ns nr p
                    [Segment (stamp (prepare p i ns) t2 t3)]
    = Some (p', [], Some (echo_sample ts clock_offset size i ns nr t2 t3)).
Proof.
  intros Hwf Hsize Hi.
  set (p1 := prepare p i ns).
  assert (Hwf1 : well_formed size p1) by (apply prepare_well_formed; exact Hwf).
  pose proof Hwf1 as (Hsz & Hlen1 & Hps1 & _).
  unfold sizeof_packet_t in Hsz.
  assert (Hpl : (32 <= length p)%nat)
    by (destruct Hwf as (_ & Hl & _); unfold sizeof_packet_t in *; lia).
  destruct (prepare_spec p i ns Hpl) as (_ & _ & Hseq1 & Hcs1).
  fold p1 in Hseq1, Hcs1.
  set (e := stamp p1 t2 t3).
  destruct (stamp_spec p1 t2 t3 ltac:(lia)) as (Hle & Hsame_e & Hsr & Hss).
  fold e in Hle, Hsame_e, Hsr, Hss.
  assert (Hwfe : well_formed size e).
  { apply (well_formed_header_change size p1); [exact Hwf1 | exact Hle|].
    intros k Hk. apply Hsame_e. lia. }
  pose proof Hwfe as (_ & _ & Hpse & _).
  set (p' := set_client_recv e nr).
  destruct (set_client_recv_spec e nr ltac:(lia)) as (Hl' & Hsame' & Hcr).
  fold p' in Hl', Hsame', Hcr.
  assert (Hwf' : well_formed size p').
  { apply (well_formed_header_change size e); [exact Hwfe | exact Hl'|].
    intros k Hk. apply Hsame'. lia. }
  pose proof Hwf' as (_ & _ & Hps' & _).
  assert (Hseq' : seq_num p' = Z.of_nat i + 1).
  { transitivity (seq_num p1).
    - unfold seq_num, OFF_seq_num. apply load_ext. intros k Hk.
      rewrite Hsame' by lia. apply Hsame_e. lia.
    - rewrite Hseq1. apply to_u64_small. lia. }
  assert (Hcs' : client_send p' = to_u64 ns).
  { rewrite <- Hcs1. unfold client_send, OFF_client_send. apply load_ext.
    intros k Hk. rewrite Hsame' by lia. apply Hsame_e. lia. }
  assert (Hsr' : server_recv p' = to_u64 t2).
  { rewrite <- Hsr. unfold server_recv, OFF_server_recv. apply load_ext.
    intros k Hk. apply Hsame'. lia. }
  assert (Hss' : server_send p' = to_u64 t3).
  { rewrite <- Hss. unfold server_send, OFF_server_send. apply load_ext.
    intros k Hk. apply Hsame'. lia. }
  exists p'. split; [exact Hwf'|].
  unfold tcp_client_pass. fold p1. fold e.
  rewrite (tcp_client_receive_whole p1 e []) by lia.
  fold p'. rewrite (validate_well_formed size p' Hwf'). cbn [negb].
  unfold Double.measure, echo_sample, one_way_sync_u64.
  rewrite Hseq', Hps', Hcs', Hsr', Hss', Hcr. reflexivity.
Qed.

(** Once the server has closed the connection the iteration breaks. *)
Lemma tcp_iter_closed (p : list Z) (i : nat) (ns nr : Z) :
  tcp_client_pass ts clock_offset i ns nr p [] = None.
Proof. reflexivity. Qed.

Variables (env : tcp_env) (k : nat) (srv_recv srv_send : nat -> Z).
Hypothesis env_reply :
  forall i sent,
    tcp_reply env i sent = closing_server k srv_recv srv_send i sent.

Lemma tcp_loop_closing (size : Z) (count : nat) :
  forall (i : nat) (p : list Z) (acc : list sample),
  well_formed size p ->
  size < 2 ^ 31 ->
  Z.of_nat (i + count) < 2 ^ 64 ->
  tcp_client_loop count i ts clock_offset env p [] acc
  = acc ++ map (fun j => echo_sample ts clock_offset size j
                           (tcp_now_send env j) (tcp_now_recv env j)
                           (srv_recv j) (srv_send j))
               (seq i (Nat.min count (k - i))).
Proof.
  induction count as [|c IH]; intros i p acc Hwf Hsize Hi.
  - cbn [tcp_client_loop Nat.min seq map]. rewrite app_nil_r. reflexivity.
  - cbn [tcp_client_loop]. rewrite env_reply. unfold closing_server.
    destruct (Nat.ltb_spec i k) as [Hik|Hik].
    + pose proof Hwf as (Hsz & Hlen & _).
      assert (Hwf1 : well_formed size
                       (prepare p i (tcp_now_send env i)))
        by (apply prepare_well_formed; exact Hwf).
      pose proof Hwf1 as (_ & Hlen1 & Hps1 & _).
      rewrite Hps1, firstn_all2 by lia. cbn [app].
      destruct (tcp_iter_echo size p i (tcp_now_send env i)
                              (tcp_now_recv env i) (srv_recv i) (srv_send i)
                              Hwf Hsize ltac:(lia))
        as (p' & Hwf' & ->).
      rewrite IH by (try assumption; lia).
      replace (Nat.min (S c) (k - i)) with (S (Nat.min c (k - S i))) by lia.
      cbn [seq map]. rewrite <- app_assoc. reflexivity.
    + cbn [app]. rewrite tcp_iter_closed.
      replace (Nat.min (S c) (k - i)) with 0%nat by lia.
      cbn [seq map]. rewrite app_nil_r. reflexivity.
Qed.

Lemma tcp_run_closing (cfg : config) :
  time_sync cfg = ts ->
  0 <= cfg_packet_size cfg <= INT_MAX ->
  0 <= num_packets cfg <= INT_MAX ->
  exists out,
    run_tcp_client cfg clock_offset env = Some out /\
    recorded out
    = echo_samples ts clock_offset
                   (Z.max (cfg_packet_size cfg) sizeof_packet_t)
                   env srv_recv srv_send
                   (Nat.min (Z.to_nat (num_packets cfg)) k) /\
    report out = summarize (num_packets cfg) (recorded out).
Proof.
  intros Hts Hsize Hn. unfold INT_MAX in Hn.
  destruct (create_packet_nonneg (cfg_packet_size cfg) Hsize)
    as (p & Hp & Hwf).
  unfold INT_MAX in Hsize.
  unfold run_tcp_client. rewrite Hp, Hts.
  eexists. split; [reflexivity|]. cbn [recorded report].
  split; [|reflexivity].
  rewrite (tcp_loop_closing (Z.max (cfg_packet_size cfg) sizeof_packet_t))
    by (try exact Hwf; unfold sizeof_packet_t; lia).
  cbn [app]. unfold echo_samples. rewrite Nat.sub_0_r. reflexivity.
Qed.

End StreamClientFacts.

Section StreamRuns.
Import C Packet Net Server Client Stats Session Stream.
Local Open Scope Q_scope.

Lemma packet_loss_zero_iff (num_packets : Z) (received : nat) :
  (0 < num_packets)%Z -> (Z.of_nat received <= num_packets)%Z ->
  (packet_loss num_packets received == 0
   <-> Z.of_nat received = num_packets).
Proof.
  intros Hn Hr. unfold packet_loss.
  assert (HN : 0 < inject_Z num_packets)
    by (change 0 with (inject_Z 0); rewrite <- Zlt_Qlt; exact Hn).
  split.
  - intros H0.
    assert (Hz : inject_Z (num_packets - Z.of_nat received) == 0).
    { assert (Hm : 100 * inject_Z (num_packets - Z.of_nat received)
                   == 0 * inject_Z num_packets).
      { rewrite <- H0. field. lra. }
      lra. }
    unfold Qeq in Hz. cbn [Qnum Qden inject_Z] in Hz. lia.
  - intros ->. rewrite Z.sub_diag. unfold Qdiv. ring.
Qed.

(** A stream client of [N] packets against a server that answers the
    first [k] packets whole and then closes the connection: the run
    records exactly the samples of the first [min N k] echoes, in
    order, numbered from 1, each with the declared size and the
    differences of its four stamps as the doubles that store them; the
    first read that finds the
    connection closed ends the loop, and the packets never sent count
    as lost.  The loss is 0 exactly when the server answered them all;
    with no echo at all no summary is printed. *)
Theorem tcp_run_until_server_closes (cfg : config) (clock_offset : Z)
        (env : tcp_env) (k : nat) (srv_recv srv_send : nat -> Z) :
  (0 <= cfg_packet_size cfg <= INT_MAX)%Z ->
  (0 <= num_packets cfg <= INT_MAX)%Z ->
  (forall i sent,
      tcp_reply env i sent = closing_server k srv_recv srv_send i sent) ->
  let n := Nat.min (Z.to_nat (num_packets cfg)) k in
  exists out,
    run_tcp_client cfg clock_offset env = Some out /\
    recorded out
    = echo_samples (time_sync cfg) clock_offset
                   (Z.max (cfg_packet_size cfg) sizeof_packet_t)
                   env srv_recv srv_send n /\
    length (recorded out) = n /\
    (n = 0%nat -> report out = None) /\
    ((0 < n)%nat ->
     exists s, report out = Some s /\
               packets_received s = n /\
               loss_pct s = packet_loss (num_packets cfg) n /\
               (loss_pct s == 0 <-> (Z.to_nat (num_packets cfg) <= k)%nat)).
Proof.
  intros Hsize Hn Henv n.
  destruct (tcp_run_closing (time_sync cfg) clock_offset env k
                            srv_recv srv_send Henv cfg eq_refl Hsize Hn)
    as (out & Hrun & Hrec & Hrep).
  fold n in Hrec.
  assert (Hlen : length (recorded out) = n).
  { rewrite Hrec. unfold echo_samples.
    rewrite length_map, length_seq. reflexivity. }
  exists out.
  split; [exact Hrun | split; [exact Hrec | split; [exact Hlen | split]]].
  - intros H0. rewrite Hrep.
    destruct (recorded out) as [|s0 rest]; [reflexivity|].
    cbn [length] in Hlen. lia.
  - intros Hpos.
    destruct (summarize_nonempty (num_packets cfg) (recorded out))
      as (s & Hs & Hpr & _ & _ & _ & Hloss).
    { intros E. rewrite E in Hlen. cbn [length] in Hlen. lia. }
    rewrite Hlen in Hpr, Hloss.
    exists s.
    split; [rewrite Hrep; exact Hs | split; [exact Hpr | split;
      [exact Hloss|]]].
    rewrite Hloss. unfold INT_MAX in Hn.
    destruct (packet_loss_zero_iff (num_packets cfg) n) as (H1 & H2);
      [lia | lia |].
    split.
    + intros H0. apply H1 in H0. lia.
    + intros Hle. apply H2. lia.
Qed.

Lemma tcp_run_until_server_closes_example :
  exists out,
    run_tcp_client Scenario.config5 0 (steady_env 3) = Some out /\
    length (recorded out) = 3%nat /\
    exists s, report out = Some s /\ loss_pct s = packet_loss 5 3.
Proof.
  destruct (tcp_run_until_server_closes
              Scenario.config5 0 (steady_env 3) 3
              (fun i => 1000 * Z.of_nat i + 120)%Z
              (fun i => 1000 * Z.of_nat i + 120)%Z)
    as (out & Hrun & _ & Hlen & _ & Hrep).
  - cbn. unfold INT_MAX. lia.
  - cbn. unfold INT_MAX. lia.
  - intros i sent. reflexivity.
  - destruct Hrep as (s & Hs & _ & Hloss & _); [cbn; lia|].
    exists out. split; [exact Hrun | split; [exact Hlen|]].
    exists s. split; [exact Hs | exact Hloss].
Defined.

End StreamRuns.

(* ================================================================== *)
(** * What the datagram server sends beyond the bytes it received *)

Section UdpServerBuffer.
Import C Packet Net Server.

(** The datagram server keeps one buffer for all its clients.  After a
    datagram [dA], a datagram [dB] that declares more bytes than it has
    is answered with [packet_size dB] bytes: its own, stamped, followed
    by the bytes [dA] left in the buffer at those positions. *)
Theorem udp_server_answers_with_previous_bytes (buf dA dB : list Z)
        (a1 a2 b1 b2 : Z) :
  length buf = Z.to_nat MAX_PACKET_SIZE ->
  (44 <= length dB)%nat ->
  (length dA <= Z.to_nat MAX_PACKET_SIZE)%nat ->
  Z.of_nat (length dB) < packet_size dB <= Z.of_nat (length dA) ->
  let buf1 := fst (udp_server_step buf (Datagram dA) a1 a2) in
  exists out,
    snd (udp_server_step buf1 (Datagram dB) b1 b2)
    = UdpEcho (packet_size dB) out /\
    length out = Z.to_nat (packet_size dB) /\
    (forall k, (k < length dB)%nat -> (k < 16 \/ 32 <= k)%nat ->
               nth k out 0 = nth k dB 0) /\
    (forall k, (length dB <= k < Z.to_nat (packet_size dB))%nat ->
               nth k out 0 = nth k dA 0).
Proof.
  intros Hbuf HB HA Hps buf1.
  set (M := Z.to_nat MAX_PACKET_SIZE) in *.
  assert (HM : (64 <= M)%nat) by (unfold M, MAX_PACKET_SIZE; lia).
  assert (HneA : dA <> []) by (intros E; rewrite E in Hps; cbn in Hps; lia).
  assert (HneB : dB <> []) by (intros E; rewrite E in HB; cbn in HB; lia).
  assert (Hb1 : buf1 = stamp (write buf 0 dA) a1 a2).
  { unfold buf1. rewrite udp_server_step_datagram by exact HneA.
    cbn [fst]. fold M. rewrite firstn_all2 by lia. reflexivity. }
  assert (Hw1 : length (write buf 0 dA) = M)
    by (rewrite length_write_prefix; lia).
  destruct (stamp_spec (write buf 0 dA) a1 a2 ltac:(lia))
    as (Hl1 & Hsame1 & _). rewrite <- Hb1 in Hl1, Hsame1.
  rewrite udp_server_step_datagram by exact HneB. fold M.
  rewrite (firstn_all2 dB) by lia. cbn [snd].
  set (buf2 := stamp (write buf1 0 dB) b1 b2).
  assert (Hw2 : length (write buf1 0 dB) = M)
    by (rewrite length_write_prefix; lia).
  destruct (stamp_spec (write buf1 0 dB) b1 b2 ltac:(lia))
    as (Hl2 & Hsame2 & _). fold buf2 in Hl2, Hsame2.
  assert (Hsize : packet_size buf2 = packet_size dB).
  { unfold packet_size, OFF_packet_size. apply load_ext. intros k Hk.
    rewrite Hsame2 by lia. apply nth_write_prefix. lia. }
  rewrite Hsize.
  exists (firstn (Z.to_nat (packet_size dB)) buf2).
  split; [reflexivity | split; [|split]].
  - rewrite length_firstn. lia.
  - intros k Hk Hrange. rewrite nth_firstn.
    destruct (Nat.ltb_spec k (Z.to_nat (packet_size dB))); [|lia].
    rewrite Hsame2 by lia. apply nth_write_prefix. lia.
  - intros k Hk. rewrite nth_firstn.
    destruct (Nat.ltb_spec k (Z.to_nat (packet_size dB))); [|lia].
    rewrite Hsame2 by lia.
    rewrite nth_write_other by lia.
    rewrite Hsame1 by lia. apply nth_write_prefix. lia.
Qed.

Lemma udp_server_answers_with_previous_bytes_example :
  exists out,
    snd (udp_server_step
           (fst (udp_server_step (repeat 0 (Z.to_nat MAX_PACKET_SIZE))
                                 (Datagram Channel.marked_datagram) 11 12))
           (Datagram Channel.cut_datagram) 21 22)
    = UdpEcho 64 out /\
    nth 54 out 0 = 99.
Proof.
  destruct (udp_server_answers_with_previous_bytes
              (repeat 0 (Z.to_nat MAX_PACKET_SIZE))
              Channel.marked_datagram Channel.cut_datagram 11 12 21 22)
    as (out & Hout & _ & _ & Hprev).
  - apply repeat_length.
  - vm_compute. lia.
  - apply Nat.leb_le. vm_compute. reflexivity.
  - vm_compute. split; [reflexivity | discriminate].
  - exists out. split; [exact Hout|].
    rewrite (Hprev 54%nat); [reflexivity|].
    split; [apply Nat.leb_le | apply Nat.ltb_lt]; vm_compute; reflexivity.
Defined.

End UdpServerBuffer.

(* ================================================================== *)
(** * Replies that arrive out of sequence *)

Section OutOfSequence.
Import C Packet Net Client Stats Channel.

Variables (ts : bool) (clock_offset : Z) (env : udp_env).





End OutOfSequence.

Section OutOfSequenceExample.
Import C Packet Net Client Stats Channel.




End OutOfSequenceExample.

(* ================================================================== *)
(** * Conversions to [double] *)

Section DoubleFacts.
Import C Packet Stats.

(** Integers of magnitude up to 2^53 are stored as they are. *)
Lemma round_int_small (z : Z) :
  - 2 ^ 53 <= z <= 2 ^ 53 -> Double.round_int z = z.
Proof.
  intros H. unfold Double.round_int.
  destruct (Z.leb_spec (Z.abs z) (2 ^ 53)); [reflexivity | lia].
Qed.

(** Between 2^63 and 2^64 the doubles are 2048 apart: what lies up to
    1024 above 2^63 is stored as 2^63. *)
Lemma round_int_above_2_63 (d : Z) :
  0 <= d <= 1024 -> Double.round_int (2 ^ 63 + d) = 2 ^ 63.
Proof.
  intros Hd. unfold Double.round_int.
  rewrite (Z.abs_eq (2 ^ 63 + d)) by lia.
  destruct (Z.leb_spec (2 ^ 63 + d) (2 ^ 53)) as [H|_]; [lia|].
  assert (Hlog : Z.log2 (2 ^ 63 + d) = 63)
    by (apply Z.log2_unique; lia).
  rewrite Hlog. change (63 - 52) with 11. change (11 - 1) with 10.
  assert (Hq : (2 ^ 63 + d) / 2 ^ 11 = 2 ^ 52).
  { symmetry. apply (Z.div_unique (2 ^ 63 + d) (2 ^ 11) (2 ^ 52) d); lia. }
  assert (Hr : (2 ^ 63 + d) mod 2 ^ 11 = d).
  { symmetry. apply (Z.mod_unique (2 ^ 63 + d) (2 ^ 11) (2 ^ 52) d); lia. }
  rewrite Hq, Hr.
  change (Z.odd (2 ^ 52)) with false. rewrite andb_false_r, orb_false_r.
  destruct (Z.ltb_spec (2 ^ 10) d) as [H|_]; [lia|].
  rewrite Z.sgn_pos by lia. lia.
Qed.

(** The conversion agrees with the primitive binary64 numbers of the
    kernel on values on both sides of 2^53 and up to the end of the
    64-bit range. *)
Lemma round_int_agrees_with_binary64 :
  Forall (fun z => Double.to_int (Double.of_u64 z)
                   = Some (Double.round_int z))
         [0; 1; 240; 2 ^ 53 - 1; 2 ^ 53; 2 ^ 53 + 1; 2 ^ 53 + 2;
          2 ^ 53 + 3; 2 ^ 54 + 2; 2 ^ 54 + 6; 2 ^ 62 + 511; 2 ^ 62 + 513;
          2 ^ 63; 2 ^ 63 + 120; 2 ^ 63 + 1024; 2 ^ 63 + 1025;
          2 ^ 63 + 3072; 2 ^ 63 + 4096; 2 ^ 64 - 1025; 2 ^ 64 - 1024;
          2 ^ 64 - 3; 2 ^ 64 - 1].
Proof. repeat constructor. Qed.

(** So does the rounded difference of two converted values, as in
    [rtt - server_processing]. *)
Lemma round_int_difference_agrees_with_binary64 :
  Forall (fun ab =>
            Double.to_int (PrimFloat.sub (Double.of_u64 (fst ab))
                                         (Double.of_u64 (snd ab)))
            = Some (Double.round_int (Double.round_int (fst ab)
                                      - Double.round_int (snd ab))))
         [(240, 0); (5, 2 ^ 63 + 4096); (2 ^ 63 + 4096, 5);
          (2 ^ 53 + 2, 2 ^ 60); (2 ^ 64 - 1, 3); (3, 2 ^ 64 - 1);
          (2 ^ 62 + 513, 2 ^ 53 + 1); (1000, 2 ^ 54 + 6)].
Proof. repeat constructor. Qed.

(** With the stamps of a reply in order and no more than 2^53
    microseconds apart, the values the client stores are the plain
    differences: the processing time of the server, the round trip, the
    one-way latency of a synchronised run, and half of round trip minus
    processing time in a run without synchronisation. *)
Theorem stored_measure_in_order (ts : bool) (off : Z) (p : list Z) :
  0 <= server_recv p <= server_send p ->
  server_send p < 2 ^ 64 ->
  server_send p - server_recv p <= 2 ^ 53 ->
  0 <= client_send p <= client_recv p ->
  client_recv p < 2 ^ 64 ->
  client_recv p - client_send p <= 2 ^ 53 ->
  client_send p <= server_recv p - off ->
  server_recv p - off - client_send p <= 2 ^ 53 ->
  s_server_processing (Double.measure ts off p)
  = inject_Z (server_send p - server_recv p) /\
  s_rtt (Double.measure ts off p)
  = inject_Z (client_recv p - client_send p) /\
  s_one_way_latency (Double.measure true off p)
  = inject_Z (server_recv p - off - client_send p) /\
  s_one_way_latency (Double.measure false off p)
  = (inject_Z ((client_recv p - client_send p)
               - (server_send p - server_recv p)) / 2)%Q.
Proof.
  intros H1 H2 H3 H4 H5 H6 H7 H8.
  assert (Hsp : sub64 (server_send p) (server_recv p)
                = server_send p - server_recv p)
    by (unfold sub64; apply to_u64_small; lia).
  assert (Hrtt : sub64 (client_recv p) (client_send p)
                 = client_recv p - client_send p)
    by (unfold sub64; apply to_u64_small; lia).
  assert (Hlat : one_way_sync_u64 p off
                 = server_recv p - off - client_send p).
  { unfold one_way_sync_u64, sub64, to_u64.
    rewrite Zminus_mod_idemp_r, Zminus_mod_idemp_l.
    apply Z.mod_small. lia. }
  unfold Double.measure.
  cbn [s_server_processing s_rtt s_one_way_latency].
  rewrite Hsp, Hrtt, Hlat.
  rewrite (round_int_small (server_send p - server_recv p)) by lia.
  rewrite (round_int_small (client_recv p - client_send p)) by lia.
  rewrite (round_int_small (server_recv p - off - client_send p)) by lia.
  rewrite round_int_small by lia.
  repeat split.
Qed.

Lemma stored_measure_in_order_example :
  s_server_processing (Double.measure true 100 Scenario.early_reply)
  = inject_Z (server_send Scenario.early_reply
              - server_recv Scenario.early_reply) /\
  s_rtt (Double.measure true 100 Scenario.early_reply)
  = inject_Z (client_recv Scenario.early_reply
              - client_send Scenario.early_reply) /\
  s_one_way_latency (Double.measure true 100 Scenario.early_reply)
  = inject_Z (server_recv Scenario.early_reply - 100
              - client_send Scenario.early_reply) /\
  s_one_way_latency (Double.measure false 100 Scenario.early_reply)
  = (inject_Z ((client_recv Scenario.early_reply
                - client_send Scenario.early_reply)
               - (server_send Scenario.early_reply
                  - server_recv Scenario.early_reply)) / 2)%Q.
Proof.
  apply (stored_measure_in_order true 100 Scenario.early_reply);
    vm_compute; try split; try reflexivity; try discriminate.
Defined.

End DoubleFacts.

(* ================================================================== *)
(** * Synchronisation and measurement together *)

Section SynchronisedRun.
Import C Packet Net Server Sync Client Stats Session Stream.

Lemma sub64_chain (a b c : Z) :
  sub64 (sub64 (to_u64 a) (to_u64 b)) (to_u64 c) = to_u64 (a - b - c).
Proof.
  unfold sub64, to_u64.
  rewrite Zminus_mod_idemp_r, Zminus_mod_idemp_l.
  rewrite <- (Zminus_mod_idemp_l (a mod 2 ^ 64 - b mod 2 ^ 64)).
  rewrite <- Zminus_mod. rewrite Zminus_mod_idemp_l. reflexivity.
Qed.

Lemma synchronize_clocks_ideal (d start : nat -> Z) (o : Z) :
  - 2 ^ 63 <= o < 2 ^ 63 ->
  synchronize_clocks true (ideal_env d o start)
  = Some (if 0 <=? o then o else o + 2 ^ 63).
Proof.
  intros Ho.
  destruct (synchronize_clocks_best (ideal_env d o start)) as (_ & _ & ->).
  rewrite ideal_round_values. cbn [option_map snd].
  destruct (Z.leb_spec 0 o).
  - rewrite round_offset_ideal_nonneg by lia. reflexivity.
  - rewrite round_offset_ideal_negative by lia. reflexivity.
Qed.

(** A stream client run with [-t], on a path where the server clock
    runs [o] ahead of the client clock and packet [i] takes [d i] to
    reach the server: the offset is estimated in ten noiseless rounds
    and then used for every sample.  Each one-way latency stored is the
    double nearest to [d i] when the server clock is not behind, and
    the double nearest to [d i + 2^63] when it is.  So with the server
    clock ahead and transit times up to 2^53 the latencies stored are
    the transit times, and with the server clock behind and transit
    times up to 1024 microseconds every latency stored is 2^63. *)
Theorem synchronised_run_latencies (cfg : config) (env : tcp_env)
        (k : nat) (srv_recv srv_send : nat -> Z)
        (sync_delay sync_start : nat -> Z) (o : Z) (d : nat -> Z) :
  time_sync cfg = true ->
  0 <= cfg_packet_size cfg <= INT_MAX ->
  0 <= num_packets cfg <= INT_MAX ->
  (forall i sent,
      tcp_reply env i sent = closing_server k srv_recv srv_send i sent) ->
  - 2 ^ 63 <= o < 2 ^ 63 ->
  (forall i, 0 <= d i < 2 ^ 63 /\
             srv_recv i = tcp_now_send env i + d i + o) ->
  let n := Nat.min (Z.to_nat (num_packets cfg)) k in
  exists clock_offset out,
    synchronize_clocks true (ideal_env sync_delay o sync_start)
    = Some clock_offset /\
    run_tcp_client cfg clock_offset env = Some out /\
    map s_one_way_latency (recorded out)
    = map (fun i => inject_Z (Double.round_int
                                (if 0 <=? o then d i else d i + 2 ^ 63)))
          (seq 0 n) /\
    (0 <= o -> (forall i, d i <= 2 ^ 53) ->
     map s_one_way_latency (recorded out)
     = map (fun i => inject_Z (d i)) (seq 0 n)) /\
    (o < 0 -> (forall i, d i <= 1024) ->
     map s_one_way_latency (recorded out)
     = map (fun _ => inject_Z (2 ^ 63)) (seq 0 n)).
Proof.
  intros Hts Hsize Hn Henv Ho Hd n.
  set (off := if 0 <=? o then o else o + 2 ^ 63).
  destruct (tcp_run_closing true off env k srv_recv srv_send Henv cfg
                            Hts Hsize Hn)
    as (out & Hrun & Hrec & _).
  fold n in Hrec.
  assert (Hlat : map s_one_way_latency (recorded out)
                 = map (fun i => inject_Z
                                   (Double.round_int
                                      (if 0 <=? o then d i
                                       else d i + 2 ^ 63)))
                       (seq 0 n)).
  { rewrite Hrec. unfold echo_samples. rewrite map_map.
    apply map_ext. intros i.
    unfold echo_sample. cbn [s_one_way_latency].
    destruct (Hd i) as (Hdi & ->).
    rewrite sub64_chain. f_equal. f_equal. unfold off.
    destruct (Z.leb_spec 0 o).
    - replace (tcp_now_send env i + d i + o - o - tcp_now_send env i)
        with (d i) by ring.
      apply to_u64_small. lia.
    - replace (tcp_now_send env i + d i + o - (o + 2 ^ 63)
               - tcp_now_send env i)
        with (d i - 2 ^ 63) by ring.
      unfold to_u64. symmetry.
      apply (Z.mod_unique_pos (d i - 2 ^ 63) (2 ^ 64) (-1)); lia. }
  exists off, out.
  split; [apply synchronize_clocks_ideal; exact Ho|].
  split; [exact Hrun|].
  split; [exact Hlat|].
  split.
  - intros Hpos Hsmall. rewrite Hlat. apply map_ext. intros i.
    destruct (Z.leb_spec 0 o); [|lia].
    destruct (Hd i) as (Hdi & _). specialize (Hsmall i).
    rewrite round_int_small by lia. reflexivity.
  - intros Hneg Hsmall. rewrite Hlat. apply map_ext. intros i.
    destruct (Z.leb_spec 0 o); [lia|].
    destruct (Hd i) as (Hdi & _). specialize (Hsmall i).
    rewrite (Z.add_comm (d i)), round_int_above_2_63 by lia. reflexivity.
Qed.

Lemma synchronised_run_latencies_example :
  exists clock_offset out,
    synchronize_clocks true
      (ideal_env (fun _ => 100) (-50) (fun i => 1000000 + 50000 * Z.of_nat i))
    = Some clock_offset /\
    run_tcp_client synced_config5 clock_offset (behind_env 5) = Some out /\
    map s_one_way_latency (recorded out)
    = map (fun _ : nat => inject_Z (2 ^ 63)) (seq 0 5).
Proof.
  destruct (synchronised_run_latencies
              synced_config5 (behind_env 5) 5
              (fun i => 1000 * Z.of_nat i + 70)
              (fun i => 1000 * Z.of_nat i + 70)
              (fun _ => 100) (fun i => 1000000 + 50000 * Z.of_nat i)
              (-50) (fun _ => 120))
    as (off & out & Hsync & Hrun & _ & _ & Hbehind).
  - reflexivity.
  - cbn. unfold INT_MAX. lia.
  - cbn. unfold INT_MAX. lia.
  - intros i sent. reflexivity.
  - lia.
  - intros i. split; [lia|]. cbn [behind_env tcp_now_send]. lia.
  - exists off, out.
    split; [exact Hsync | split; [exact Hrun|]].
    apply Hbehind; [lia | intros; lia].
Defined.

End SynchronisedRun.

(* ================================================================== *)
(** * Packets of any size that is not negative *)

Section CreateFacts.
Import C Packet.

Lemma load_zero (n : nat) (m : list Z) :
  forall off,
  (forall k, (off <= k < off + n)%nat -> nth k m 0 = 0) ->
  load n m off = 0.
Proof.
  induction n as [|n IH]; intros off H; cbn [load]; [reflexivity|].
  rewrite (H off) by lia. rewrite IH; [reflexivity|].
  intros k Hk. apply H. lia.
Qed.

(** The bytes [create_packet] leaves at zero: the five stamps, and the
    last four bytes of the buffer, which lie past the pattern. *)
Lemma create_packet_zeroed (size : Z) (p : list Z) :
  0 <= size <= INT_MAX ->
  create_packet size = Some p ->
  forall k, (k < 40 \/ Z.to_nat (Z.max size sizeof_packet_t) - 4 <= k)%nat ->
            nth k p 0 = 0.
Proof.
  intros Hsize Hc k Hk. unfold INT_MAX in Hsize.
  set (size' := Z.max size sizeof_packet_t) in *.
  assert (Hs' : sizeof_packet_t <= size' <= 2 ^ 31 - 1)
    by (unfold size', sizeof_packet_t; lia).
  unfold create_packet, to_size_t in Hc.
  rewrite (to_u64_small size) in Hc by lia.
  replace (if size <? sizeof_packet_t then sizeof_packet_t else size)
    with size' in Hc
    by (unfold size'; destruct (Z.ltb_spec size sizeof_packet_t); lia).
  rewrite (to_u64_small size') in Hc by lia.
  rewrite (to_u32_small size') in Hc by lia.
  unfold calloc_bytes, PTRDIFF_MAX in Hc.
  destruct (Z.ltb_spec (2 ^ 63 - 1) size') as [Hbig|_]; [lia|].
  injection Hc as <-.
  unfold sizeof_packet_t in *.
  set (p0 := set_packet_size (repeat 0 (Z.to_nat size')) size').
  assert (Hl0 : length p0 = Z.to_nat size').
  { unfold p0, set_packet_size, store. rewrite length_write.
    - apply repeat_length.
    - rewrite length_le_encode, repeat_length. unfold OFF_packet_size. lia. }
  assert (Hfit : (OFF_payload + 0 + Z.to_nat (size' - 48) <= length p0)%nat)
    by (rewrite Hl0; unfold OFF_payload; lia).
  rewrite nth_fill_payload by exact Hfit.
  unfold OFF_payload in *.
  assert (Hout : ((44 + 0 <=? k) && (k <? 44 + 0 + Z.to_nat (size' - 48)))%nat
                 = false).
  { destruct (Nat.leb_spec (44 + 0) k);
      destruct (Nat.ltb_spec k (44 + 0 + Z.to_nat (size' - 48)));
      cbn [andb]; try reflexivity. lia. }
  rewrite Hout.
  unfold p0, set_packet_size, store.
  rewrite nth_write_other.
  - apply nth_repeat.
  - rewrite repeat_length. unfold OFF_packet_size. lia.
  - rewrite length_le_encode. unfold OFF_packet_size. lia.
Qed.

(** C9 (amended): [create_packet] does not enforce the bounds of the
    configuration.  For every requested size from 0 to [INT_MAX], below
    64, below the header size or above 8192 as it may be, it returns a
    packet that has and declares the larger of the size and the header
    size, with the five stamps at zero and the pattern [i mod 256] in
    byte [i] of the payload for [i] below the declared size minus the
    header size; [validate_packet] accepts it. *)
Theorem create_packet_nonnegative_sizes (size : Z) :
  0 <= size <= INT_MAX ->
  exists p,
    create_packet size = Some p /\
    length p = Z.to_nat (Z.max size sizeof_packet_t) /\
    packet_size p = Z.max size sizeof_packet_t /\
    seq_num p = 0 /\ client_send p = 0 /\ server_recv p = 0 /\
    server_send p = 0 /\ client_recv p = 0 /\
    (forall j, (j < Z.to_nat (Z.max size sizeof_packet_t
                              - sizeof_packet_t))%nat ->
               payload p j = Z.of_nat j mod 256) /\
    validate_packet p = true.
Proof.
  intros Hsize.
  destruct (create_packet_nonneg size Hsize) as (p & Hc & Hwf).
  pose proof (create_packet_zeroed size p Hsize Hc) as Hzero.
  pose proof Hwf as (_ & Hlen & Hps & Hpat).
  assert (Hstamp : forall off, (off + 8 <= 40)%nat -> load 8 p off = 0).
  { intros off Hoff. apply load_zero. intros k Hk. apply Hzero. lia. }
  exists p.
  split; [exact Hc|].
  split; [exact Hlen|].
  split; [exact Hps|].
  split; [apply Hstamp; unfold OFF_seq_num; lia|].
  split; [apply Hstamp; unfold OFF_client_send; lia|].
  split; [apply Hstamp; unfold OFF_server_recv; lia|].
  split; [apply Hstamp; unfold OFF_server_send; lia|].
  split; [apply Hstamp; unfold OFF_client_recv; lia|].
  split; [exact Hpat|].
  apply (validate_well_formed _ _ Hwf).
Qed.

Lemma create_packet_nonnegative_sizes_witness :
  exists p,
    create_packet 10000 = Some p /\
    length p = Z.to_nat (Z.max 10000 sizeof_packet_t) /\
    packet_size p = Z.max 10000 sizeof_packet_t /\
    seq_num p = 0 /\ client_send p = 0 /\ server_recv p = 0 /\
    server_send p = 0 /\ client_recv p = 0 /\
    (forall j, (j < Z.to_nat (Z.max 10000 sizeof_packet_t
                              - sizeof_packet_t))%nat ->
               payload p j = Z.of_nat j mod 256) /\
    validate_packet p = true.
Proof.
  apply (create_packet_nonnegative_sizes 10000). unfold INT_MAX. lia.
Defined.

(** C7 as stated fails: the payload of a 64-byte packet is the 20 bytes
    from offset 44 on, but [create_packet] writes the pattern to the
    first 16 of them and [validate_packet] reads no further.  Byte 16
    of the payload is 0 where the pattern has 16, and setting it to 255
    leaves the packet valid. *)
Lemma changed_tail_byte_passes_validation :
  exists p,
    create_packet 64 = Some p /\
    length p = 64%nat /\
    payload p 16 = 0 /\
    Z.of_nat 16 mod 256 = 16 /\
    payload (set_payload p 16 255) 16 = 255 /\
    validate_packet (set_payload p 16 255) = true.
Proof.
  eexists. split; [reflexivity|]. vm_compute. repeat split.
Qed.

End CreateFacts.

(* ================================================================== *)
(** * The jitter in binary64 *)

Section JitterInDouble.
Import C Packet Stats.






End JitterInDouble.
